(** * viva-engineering/http-client-xhr: request lifecycle, retry and formatting

    A shallow embedding of the three TypeScript sources of the client
    ([readystate.ts], [retryable.ts] + [timer.ts], [index.ts]) and the
    properties of the request executor, the retry policy, the header parser,
    the request-id counter and the duration formatter.

    Conventions of the embedding.
    - A JavaScript [number] that the code only uses as an integer (request
      ids, retry budgets, attempt numbers, status codes, string indices) is
      a [Z]; the duration handed to [formatDuration] may be fractional and is
      a [Q] (every finite double is a rational).  Where the code computes
      with doubles (the backoff delay, the differences of time stamps) the
      number is a [JsNum.t], and the rounding, the overflow to [Infinity]
      and [NaN] are written out.
    - A JavaScript string is a [string] of 8-bit code units, which is what an
      [XMLHttpRequest] returns for header blobs (a ByteString).
    - An object used as a dictionary ([Headers]) whose properties the code
      enumerates (the request headers) is a [Headers.t], which keeps the
      order of [Object.keys]; the header map of a response, which is only
      written and read by name, is the [gmap string string] of its own
      properties.
    - [undefined]/[null] for an optional field is [None].
    - The browser is the environment: it delivers transport events and fires
      timers, one [Event] at a time, and the executor is the step function
      that runs the registered handler to completion. *)

From Stdlib Require Import ZArith QArith Qround Qabs Qpower Lia Lqa.
From Stdlib Require Import Strings.String Strings.Ascii.
From stdpp Require Import base gmap strings list pretty sorting.

Close Scope Q_scope.
Open Scope Z_scope.

(* ================================================================== *)
(** * JavaScript string primitives used by the sources                 *)
(* ================================================================== *)

Module JsString.

Definition code (c : ascii) : Z := Z.of_nat (nat_of_ascii c).

(** White space and line terminators that [String.prototype.trim] removes,
    restricted to 8-bit code units: TAB, LF, VT, FF, CR, SP and NBSP. *)
Definition isWhiteSpace (c : ascii) : bool :=
  let n := code c in
  ((9 <=? n) && (n <=? 13)) || (n =? 32) || (n =? 160).

Fixpoint trimStart (s : string) : string :=
  match s with
  | EmptyString => EmptyString
  | String c s' => if isWhiteSpace c then trimStart s' else s
  end.

Fixpoint trimEnd (s : string) : string :=
  match s with
  | EmptyString => EmptyString
  | String c s' =>
      match trimEnd s' with
      | EmptyString => if isWhiteSpace c then EmptyString else String c EmptyString
      | t => String c t
      end
  end.

Definition trim (s : string) : string := trimEnd (trimStart s).

(** [toLowerCase] on 8-bit code units: A-Z, and the Latin-1 capitals
    U+00C0..U+00DE except the multiplication sign U+00D7. *)
Definition lowerChar (c : ascii) : ascii :=
  let n := code c in
  if ((65 <=? n) && (n <=? 90))
     || ((192 <=? n) && (n <=? 222) && negb (n =? 215))
  then ascii_of_nat (Z.to_nat (n + 32))
  else c.

Fixpoint toLowerCase (s : string) : string :=
  match s with
  | EmptyString => EmptyString
  | String c s' => String (lowerChar c) (toLowerCase s')
  end.

Definition length (s : string) : Z := Z.of_nat (String.length s).

(** [s.indexOf(c)] for a one-character search string: the index of the
    first occurrence, or -1. *)
Fixpoint indexOf (c : ascii) (s : string) : Z :=
  match s with
  | EmptyString => -1
  | String a s' =>
      if Ascii.eqb a c then 0
      else let i := indexOf c s' in if i <? 0 then -1 else i + 1
  end.

(** Relative index of [slice]: a negative index counts from the end, and
    the result is clamped to [0, len]. *)
Definition relIndex (len i : Z) : Z :=
  if i <? 0 then Z.max (len + i) 0 else Z.min i len.

(** [s.slice(start, end)]. *)
Definition slice (s : string) (start stop : Z) : string :=
  let len := length s in
  let from := relIndex len start in
  let to := relIndex len stop in
  substring (Z.to_nat from) (Z.to_nat (to - from)) s.

(** [s.slice(start)]. *)
Definition sliceFrom (s : string) (start : Z) : string :=
  slice s start (length s).

Definition CR : ascii := ascii_of_nat 13.
Definition LF : ascii := ascii_of_nat 10.
Definition CRLF : string := String CR (String LF EmptyString).

(** [s.split('\r\n')]: the pieces between the non-overlapping occurrences
    of CR LF, scanned left to right; never the empty list. *)
Fixpoint splitCRLF (s : string) : list string :=
  match s with
  | EmptyString => [EmptyString]
  | String c s' =>
      let plain :=
        match splitCRLF s' with
        | [] => [String c EmptyString]
        | h :: t => String c h :: t
        end in
      if Ascii.eqb c CR then
        match s' with
        | String d s'' => if Ascii.eqb d LF then EmptyString :: splitCRLF s'' else plain
        | EmptyString => plain
        end
      else plain
  end.

End JsString.

(* ================================================================== *)
(** * JavaScript numbers: doubles                                      *)
(* ================================================================== *)

(** A JavaScript number: [NaN], an infinity, or a finite double, which is
    kept as the rational it denotes, in lowest terms.  (The sign of a zero
    is not kept; none of the sources can tell the two zeros apart.) *)
Module JsNum.

Inductive t := NaN | Num (q : Q) | PosInfinity | NegInfinity.

(** The number that is the integer [z]; a double when [|z| <= 2^53]. *)
Definition ofZ (z : Z) : t := Num (inject_Z z).

(** [ToNumber] of a numeric field that may be [undefined]. *)
Definition ofField (f : option Q) : t :=
  match f with
  | Some q => Num q
  | None => NaN
  end.

Definition twoTo (k : Z) : Q := Qpower 2 k.

(** The binary exponent of [a > 0]: the [e] with [2^e <= a < 2^(e+1)]. *)
Definition exponent2 (a : Q) : Z :=
  let e := Z.log2 (Qnum a) - Z.log2 (Z.pos (Qden a)) in
  if Qle_bool (twoTo e) a then e else e - 1.

(** The integer nearest to [x], the even one on a tie. *)
Definition roundHalfEven (x : Q) : Z :=
  let f := Qfloor x in
  match (x - inject_Z f ?= 1 # 2)%Q with
  | Lt => f
  | Gt => f + 1
  | Eq => if Z.even f then f else f + 1
  end.

(** The double nearest to the real [x] (IEEE 754 binary64, round to nearest,
    ties to even): 53 significant bits, which are fewer below [2^-1022]
    where the doubles are [2^-1074] apart, and an infinity when the rounded
    magnitude reaches [2^1024]. *)
Definition round (x : Q) : t :=
  if Qeq_bool x 0 then Num 0
  else
    let a := Qabs x in
    let ulp := twoTo (Z.max (exponent2 a) (-1022) - 52) in
    let v := (inject_Z (roundHalfEven (a / ulp)) * ulp)%Q in
    if Qle_bool (twoTo 1024) v then (if Qle_bool 0 x then PosInfinity else NegInfinity)
    else Num (Qred (if Qle_bool 0 x then v else - v)).

(** [2 ** n] for an integer [n]. *)
Definition pow2 (n : Z) : t := round (twoTo n).

Definition neg (a : t) : t :=
  match a with
  | NaN => NaN
  | Num x => Num (- x)
  | PosInfinity => NegInfinity
  | NegInfinity => PosInfinity
  end.

(** An infinity times the finite [x]. *)
Definition scaleInfinity (inf : t) (x : Q) : t :=
  if Qeq_bool x 0 then NaN else if Qle_bool 0 x then inf else neg inf.

(** [a * b]. *)
Definition mul (a b : t) : t :=
  match a with
  | NaN => NaN
  | Num x =>
      match b with
      | NaN => NaN
      | Num y => round (x * y)
      | PosInfinity => scaleInfinity PosInfinity x
      | NegInfinity => scaleInfinity NegInfinity x
      end
  | PosInfinity =>
      match b with
      | NaN => NaN
      | Num y => scaleInfinity PosInfinity y
      | PosInfinity => PosInfinity
      | NegInfinity => NegInfinity
      end
  | NegInfinity =>
      match b with
      | NaN => NaN
      | Num y => scaleInfinity NegInfinity y
      | PosInfinity => NegInfinity
      | NegInfinity => PosInfinity
      end
  end.

(** [a - b]. *)
Definition sub (a b : t) : t :=
  match a with
  | NaN => NaN
  | Num x =>
      match b with
      | NaN => NaN
      | Num y => round (x - y)
      | PosInfinity => NegInfinity
      | NegInfinity => PosInfinity
      end
  | PosInfinity =>
      match b with
      | NaN => NaN
      | Num _ => PosInfinity
      | PosInfinity => NaN
      | NegInfinity => PosInfinity
      end
  | NegInfinity =>
      match b with
      | NaN => NaN
      | Num _ => NegInfinity
      | PosInfinity => NegInfinity
      | NegInfinity => NaN
      end
  end.

(** [a < b]: false when either side is [NaN]. *)
Definition lt (a b : t) : bool :=
  match a with
  | NaN => false
  | Num x =>
      match b with
      | NaN => false
      | Num y => negb (Qle_bool y x)
      | PosInfinity => true
      | NegInfinity => false
      end
  | PosInfinity => false
  | NegInfinity =>
      match b with
      | NaN => false
      | Num _ => true
      | PosInfinity => true
      | NegInfinity => false
      end
  end.

(** [a > b]. *)
Definition gt (a b : t) : bool := lt b a.

End JsNum.

Coercion JsNum.ofZ : Z >-> JsNum.t.

(* ================================================================== *)
(** * JavaScript objects used as dictionaries of strings               *)
(* ================================================================== *)

Module Headers.

Definition isDigit (c : ascii) : bool := (48 <=? JsString.code c) && (JsString.code c <=? 57).

(** The value of a string of decimal digits, read after the digits [acc]. *)
Fixpoint digitsValue (acc : Z) (s : string) : option Z :=
  match s with
  | EmptyString => Some acc
  | String c s' =>
      if isDigit c then digitsValue (acc * 10 + (JsString.code c - 48)) s' else None
  end.

(** An array index: the canonical numeral of an integer from 0 to
    [2^32 - 2], that is, digits only and no leading zero. *)
Definition arrayIndex (s : string) : option Z :=
  match s with
  | EmptyString => None
  | String c s' =>
      if Ascii.eqb c "0" && negb (String.eqb s' EmptyString) then None
      else
        match digitsValue 0 s with
        | Some n => if n <=? 2 ^ 32 - 2 then Some n else None
        | None => None
        end
  end.

Definition isArrayIndex (s : string) : Prop := is_Some (arrayIndex s).

Definition indexLe (a b : string) : Prop :=
  default 0 (arrayIndex a) <= default 0 (arrayIndex b).

#[global] Instance indexLe_dec a b : Decision (indexLe a b) := Z_le_dec _ _.

(** The own properties of an object, given by their definitions in the
    order in which they were made: a name defined again keeps its place and
    takes the new value. *)
Record t := mk { definitions : list (string * string) }.

Fixpoint lastDefinition (defs : list (string * string)) (name : string) : option string :=
  match defs with
  | [] => None
  | (k, v) :: rest =>
      match lastDefinition rest name with
      | Some v' => Some v'
      | None => if String.eqb k name then Some v else None
      end
  end.

(** [object[name]] for an own property. *)
Definition get (o : t) (name : string) : option string := lastDefinition (definitions o) name.

(** The names in the order in which they were first defined. *)
Definition createdKeys (o : t) : list string :=
  foldl (fun ks d => if bool_decide (d.1 ∈ ks) then ks else ks ++ [d.1]) [] (definitions o).

(** [Object.keys(object)]: the array indices in ascending order, then the
    other names in the order of their creation. *)
Definition keys (o : t) : list string :=
  merge_sort indexLe (filter isArrayIndex (createdKeys o))
  ++ filter (fun k => ~ isArrayIndex k) (createdKeys o).

(** The pairs [(key, object[key])] for the keys of [Object.keys(object)]. *)
Definition entries (o : t) : list (string * string) :=
  omap (fun k => (fun v => (k, v)) <$> get o k) (keys o).

(** [{ ...a, ...b }]. *)
Definition spread (a b : t) : t := mk (definitions a ++ definitions b).

(** [{ }]. *)
Definition empty : t := mk [].

End Headers.

#[global] Instance Headers_lookup : Lookup string string Headers.t :=
  fun name o => Headers.get o name.
#[global] Instance Headers_empty : Empty Headers.t := Headers.empty.

(* ================================================================== *)
(** * readystate.ts, retryable.ts                                      *)
(* ================================================================== *)

Module ReadyState.
Inductive t := Unsent | Opened | HeadersReceived | Loading | Done.

Definition value (s : t) : Z :=
  match s with
  | Unsent => 0 | Opened => 1 | HeadersReceived => 2 | Loading => 3 | Done => 4
  end.
End ReadyState.

Module XhrFailures.
Inductive t := Status | Error | Abort | Timeout.

Definition value (c : t) : Z :=
  match c with Status => 0 | Error => 1 | Abort => 2 | Timeout => 3 end.

Definition eqb (a b : t) : bool := value a =? value b.
End XhrFailures.

(** [Outcome] of index.ts: the per-attempt latch. *)
Module Outcome.
Inductive t := None | Done | Error | Abort | Timeout.

Definition value (o : t) : Z :=
  match o with None => 0 | Done => 1 | Error => 2 | Abort => 3 | Timeout => 4 end.

Definition eqb (a b : t) : bool := value a =? value b.
End Outcome.

(** [retryNetworkErrors] is generic in the transport handle and ignores the
    optional response, so it is stated over any handle and response type. *)
Definition retryNetworkErrors {X R : Type} (xhr : X) (cause : XhrFailures.t)
    (res : option R) : bool :=
  XhrFailures.eqb cause XhrFailures.Timeout || XhrFailures.eqb cause XhrFailures.Error.

(* ================================================================== *)
(** * index.ts: data model                                             *)
(* ================================================================== *)

(** Payloads: what [params.body] and [xhr.response] can hold.  Every object
    is truthy; a string is truthy unless it is empty. *)
Inductive JsData :=
| DString (s : string)
| DArrayBuffer (bytes : list Z)
| DBlob (bytes : list Z)
| DObject (className : string).

Definition truthyData (d : option JsData) : bool :=
  match d with
  | Some (DString s) => negb (String.eqb s EmptyString)
  | Some _ => true
  | None => false
  end.

(** [ToString] of a payload, as [JSON.parse(data as string)] applies it. *)
Definition dataToString (d : JsData) : string :=
  match d with
  | DString s => s
  | DArrayBuffer _ => "[object ArrayBuffer]"
  | DBlob _ => "[object Blob]"
  | DObject c => "[object " +:+ c +:+ "]"
  end.

#[local] Unset Elimination Schemes.
Inductive Json :=
| JNull
| JBool (b : bool)
| JNumber (q : Q)
| JString (s : string)
| JArray (items : list Json)
| JObject (fields : list (string * Json)).
#[local] Set Elimination Schemes.

(** What the transport exposes to the handlers; the browser owns it. *)
Module XhrView.
Record t := mk {
  readyState : ReadyState.t;
  status : Z;
  response : option JsData;
  responseText : string;
  allResponseHeaders : string
}.

Definition initial : t := mk ReadyState.Unsent 0 None EmptyString EmptyString.
End XhrView.

(** The operations the executor invokes on the transport, in call order. *)
Inductive XhrCall :=
| AddEventListener (type : string)
| Open (method url : string)
| SetRequestHeader (name value : string)
| Send (body : JsData).

Module XMLHttpRequest.
Record t := mk {
  handle : nat;
  responseType : string;
  timeout : Z;
  calls : list XhrCall;
  view : XhrView.t
}.

Definition new (h : nat) : t := mk h EmptyString 0 [] XhrView.initial.

Definition call (c : XhrCall) (x : t) : t :=
  mk (handle x) (responseType x) (timeout x) (calls x ++ [c]) (view x).

Definition setResponseType (r : string) (x : t) : t :=
  mk (handle x) r (timeout x) (calls x) (view x).

Definition setTimeout (ms : Z) (x : t) : t :=
  mk (handle x) (responseType x) ms (calls x) (view x).

Definition setView (v : XhrView.t) (x : t) : t :=
  mk (handle x) (responseType x) (timeout x) (calls x) v.
End XMLHttpRequest.

Module Response.
Record t := mk {
  xhr : XMLHttpRequest.t;
  statusCode : Z;
  headers : gmap string string;
  rawHeaders : list (string * string);
  body : JsData;
  json : option Json
}.
End Response.

Definition IsRetryableCallback : Type :=
  XMLHttpRequest.t -> XhrFailures.t -> option Response.t -> bool.

Module HttpClientParams.
Record t := mk {
  hostname : string;
  port : Z;
  ssl : bool;
  headers : option Headers.t;
  timeout : option Z;
  retries : option Z;
  isRetryable : option IsRetryableCallback;
  slowThreshold : option Z
}.
End HttpClientParams.

Module HttpRequestOptions.
Record t := mk {
  body : option JsData;
  headers : option Headers.t;
  timeout : option Z;
  retries : option Z;
  isRetryable : option IsRetryableCallback;
  slowThreshold : option Z;
  responseType : option string
}.

(** [Object.assign({ }, params)] followed by [newParams.retries = r]. *)
Definition withRetries (r : Z) (p : t) : t :=
  mk (body p) (headers p) (timeout p) (Some r) (isRetryable p)
     (slowThreshold p) (responseType p).
End HttpRequestOptions.

(** [a || b] on an optional number: [undefined], [null] and 0 are falsy. *)
Definition orNumber (a : option Z) (b : Z) : Z :=
  match a with
  | Some n => if n =? 0 then b else n
  | None => b
  end.

(** [a == null ? b : a]. *)
Definition orNull {A : Type} (a : option A) (b : A) : A :=
  match a with
  | Some x => x
  | None => b
  end.

Module HttpClient.
Record t := mk {
  hostname : string;
  port : Z;
  headers : Headers.t;
  ssl : bool;
  timeout : Z;
  retries : Z;
  isRetryable : IsRetryableCallback;
  slowThreshold : Z
}.

(** The constructor. *)
Definition new (params : HttpClientParams.t) : t :=
  mk (HttpClientParams.hostname params)
     (HttpClientParams.port params)
     (orNull (HttpClientParams.headers params) ∅)
     (HttpClientParams.ssl params)
     (orNumber (HttpClientParams.timeout params) 0)
     (orNumber (HttpClientParams.retries params) 0)
     (orNull (HttpClientParams.isRetryable params) retryNetworkErrors)
     (orNumber (HttpClientParams.slowThreshold params) 200).
End HttpClient.

(** [${n}] for an integral number. *)
Definition numberToString (n : Z) : string := pretty n.

(** The value handed to [reject]: an object literal, as its fields. *)
Inductive JsValue :=
| VXhr (x : XMLHttpRequest.t)
| VCause (c : XhrFailures.t)
| VResponse (r : Response.t).

Definition JsObject : Type := list (string * JsValue).

Inductive Settlement :=
| Resolve (res : Response.t)
| Reject (reason : JsObject).

Inductive PromiseState :=
| Pending
| Fulfilled (res : Response.t)
| Rejected (reason : JsObject).

Definition settledAs (s : Settlement) : PromiseState :=
  match s with
  | Resolve res => Fulfilled res
  | Reject reason => Rejected reason
  end.

(** What a call of [_makeRequest] leaves behind: the variables its closures
    capture, the latch, and the promise it returned.  [forwardTo] lists the
    attempts whose [resolve]/[reject] this promise was chained to by
    [.then(resolve, reject)], nearest first. *)
Module Attempt.
Record t := mk {
  this : HttpClient.t;
  requestId : Z;
  attempt : Z;
  method : string;
  path : string;
  params : HttpRequestOptions.t;
  xhr : XMLHttpRequest.t;
  outcome : Outcome.t;
  promise : PromiseState;
  forwardTo : list nat
}.

Definition setXhr (x : XMLHttpRequest.t) (a : t) : t :=
  mk (this a) (requestId a) (attempt a) (method a) (path a) (params a) x
     (outcome a) (promise a) (forwardTo a).

Definition setOutcome (o : Outcome.t) (a : t) : t :=
  mk (this a) (requestId a) (attempt a) (method a) (path a) (params a) (xhr a)
     o (promise a) (forwardTo a).

Definition setPromise (p : PromiseState) (a : t) : t :=
  mk (this a) (requestId a) (attempt a) (method a) (path a) (params a) (xhr a)
     (outcome a) p (forwardTo a).

Definition setForwardTo (ks : list nat) (a : t) : t :=
  mk (this a) (requestId a) (attempt a) (method a) (path a) (params a) (xhr a)
     (outcome a) (promise a) ks.
End Attempt.

(** Callbacks handed to the global [setTimeout]. *)
Inductive TimerTask :=
| OnDone (k : nat)
| DoRetry (k : nat) (newParams : HttpRequestOptions.t).

Module Timer.
Record t := mk { task : TimerTask; delay : JsNum.t; fired : bool }.
End Timer.

(** The state of the page: the module-level counter, every attempt made so
    far (an attempt's index is also its transport handle), the timers set so
    far, and the log of every call of an attempt's [resolve] or [reject]. *)
Module World.
Record t := mk {
  nextRequestId : Z;
  attempts : list Attempt.t;
  timers : list Timer.t;
  settleLog : list (nat * Settlement)
}.

Definition initial : t := mk 1 [] [] [].

Definition setNextRequestId (n : Z) (w : t) : t :=
  mk n (attempts w) (timers w) (settleLog w).

Definition setAttempts (l : list Attempt.t) (w : t) : t :=
  mk (nextRequestId w) l (timers w) (settleLog w).

Definition setTimers (l : list Timer.t) (w : t) : t :=
  mk (nextRequestId w) (attempts w) l (settleLog w).

Definition log (e : nat * Settlement) (w : t) : t :=
  mk (nextRequestId w) (attempts w) (timers w) (settleLog w ++ [e]).

Definition alterAttempt (f : Attempt.t -> Attempt.t) (k : nat) (w : t) : t :=
  setAttempts (alter f k (attempts w)) w.
End World.

(** The JavaScript runtime function the executor calls. *)
Module Runtime.
Record t := mk { JSON_parse : string -> option Json }.
End Runtime.

Definition MAX_SAFE_INTEGER : Z := 2 ^ 53 - 1.

(** [setTimeout(task, delay)]. *)
Definition setTimeout (task : TimerTask) (delay : JsNum.t) (w : World.t) : World.t :=
  World.setTimers (World.timers w ++ [Timer.mk task delay false]) w.

(* ================================================================== *)
(** * index.ts: promises                                               *)
(* ================================================================== *)

(** Calling the [resolve]/[reject] of the attempts [ks] in turn: each call is
    logged; a pending promise takes the settlement and hands it to the
    callbacks registered with [then], a settled one ignores the call. *)
Fixpoint settleChain (ks : list nat) (s : Settlement) (w : World.t) : World.t :=
  match ks with
  | [] => w
  | k :: rest =>
      let w1 := World.log (k, s) w in
      match Attempt.promise <$> World.attempts w !! k with
      | Some Pending =>
          settleChain rest s (World.alterAttempt (Attempt.setPromise (settledAs s)) k w1)
      | _ => w1
      end
  end.

Definition settle (k : nat) (s : Settlement) (w : World.t) : World.t :=
  match World.attempts w !! k with
  | Some a => settleChain (k :: Attempt.forwardTo a) s w
  | None => w
  end.

Definition resolve (k : nat) (res : Response.t) : World.t -> World.t :=
  settle k (Resolve res).

Definition reject (k : nat) (reason : JsObject) : World.t -> World.t :=
  settle k (Reject reason).

(* ================================================================== *)
(** * index.ts: the executor                                           *)
(* ================================================================== *)

(** The name and value that the body of [headers.forEach] cuts out of one
    header line. *)
Definition headerPair (header : string) : string * string :=
  let nameEndIndex := JsString.indexOf ":" header in
  let name := JsString.trim (JsString.slice header 0 nameEndIndex) in
  let value := JsString.trim (JsString.sliceFrom header (nameEndIndex + 1)) in
  (name, value).

(** [object[key] = value] for a string [value] on an object literal, whose
    prototype is [Object.prototype]: the key [__proto__] is the accessor
    inherited from the prototype, and its setter ignores a value that is
    neither an object nor [null], so nothing is stored; any other key
    becomes, or stays, an own property with that value. *)
Definition setProperty (key value : string) (object : gmap string string)
    : gmap string string :=
  if String.eqb key "__proto__" then object else <[key := value]> object.

(** The body of [headers.forEach] in [onDone]. *)
Definition addHeader (res : Response.t) (header : string) : Response.t :=
  let '(name, value) := headerPair header in
  Response.mk (Response.xhr res) (Response.statusCode res)
    (setProperty (JsString.toLowerCase name) value (Response.headers res))
    (Response.rawHeaders res ++ [(name, value)])
    (Response.body res) (Response.json res).

(** [xhr.getAllResponseHeaders().trim().split('\r\n').forEach(...)]. *)
Definition parseHeaders (blob : string) (res : Response.t) : Response.t :=
  foldl addHeader res (JsString.splitCRLF (JsString.trim blob)).

Definition setJson (j : Json) (res : Response.t) : Response.t :=
  Response.mk (Response.xhr res) (Response.statusCode res) (Response.headers res)
    (Response.rawHeaders res) (Response.body res) (Some j).

(** The response object [onDone] builds from the transport.  The payload is
    [xhr.response || xhr.responseText]; the view gives [responseText] as a
    string, as the transport does whenever it is read for the response types
    [''] and ['text']. *)
Definition buildResponse (rt : Runtime.t) (xhr : XMLHttpRequest.t) : Response.t :=
  let v := XMLHttpRequest.view xhr in
  let data :=
    if truthyData (XhrView.response v)
    then default (DString (XhrView.responseText v)) (XhrView.response v)
    else DString (XhrView.responseText v) in
  let res := Response.mk xhr (XhrView.status v) ∅ [] data None in
  let res := parseHeaders (XhrView.allResponseHeaders v) res in
  if bool_decide (Response.headers res !! "content-type" = Some "application/json")
     && negb (String.eqb (XMLHttpRequest.responseType xhr) EmptyString)
  then
    match Runtime.JSON_parse rt (dataToString data) with
    | Some j => setJson j res
    | None => res
    end
  else res.

(** [const backoff = (2 ** attempt) * 250], for an integral [attempt]. *)
Definition backoff (attempt : Z) : JsNum.t := JsNum.mul (JsNum.pow2 attempt) 250.

(** [params.isRetryable == null ? this.isRetryable : params.isRetryable] in
    the closure of an attempt. *)
Definition isRetryableOf (a : Attempt.t) : IsRetryableCallback :=
  orNull (HttpRequestOptions.isRetryable (Attempt.params a))
         (HttpClient.isRetryable (Attempt.this a)).

(** [params.retries == null ? this.retries : params.retries] in the closure
    of an attempt. *)
Definition retriesOf (a : Attempt.t) : Z :=
  orNull (HttpRequestOptions.retries (Attempt.params a)) (HttpClient.retries (Attempt.this a)).

(** [retryIfPossible(xhr, cause, res)] in the closure of attempt [k]. *)
Definition retryIfPossible (k : nat) (cause : XhrFailures.t) (res : option Response.t)
    (w : World.t) : World.t :=
  match World.attempts w !! k with
  | None => w
  | Some a =>
      let params := Attempt.params a in
      let xhr := Attempt.xhr a in
      let isRetryable := isRetryableOf a in
      let retries := retriesOf a in
      let giveUp := reject k [("xhr", VXhr xhr); ("cause", VCause cause)] w in
      if negb (retries =? 0) then
        if isRetryable xhr cause res then
          let newParams := HttpRequestOptions.withRetries (retries - 1) params in
          setTimeout (DoRetry k newParams) (backoff (Attempt.attempt a)) w
        else giveUp
      else giveUp
  end.

(** [onDone], run by the 10 ms timer that the Done ready state sets. *)
Definition onDone (rt : Runtime.t) (k : nat) (w : World.t) : World.t :=
  match World.attempts w !! k with
  | None => w
  | Some a =>
      if negb (Outcome.eqb (Attempt.outcome a) Outcome.None) then w
      else
        let w := World.alterAttempt (Attempt.setOutcome Outcome.Done) k w in
        let res := buildResponse rt (Attempt.xhr a) in
        if 400 <=? Response.statusCode res
        then retryIfPossible k XhrFailures.Status (Some res) w
        else resolve k res w
  end.

Definition onReadyStateChange (k : nat) (w : World.t) : World.t :=
  match World.attempts w !! k with
  | None => w
  | Some a =>
      match XhrView.readyState (XMLHttpRequest.view (Attempt.xhr a)) with
      | ReadyState.Done => setTimeout (OnDone k) 10 w
      | _ => w
      end
  end.

Definition onError (k : nat) : World.t -> World.t :=
  retryIfPossible k XhrFailures.Error None.

Definition onAbort (k : nat) : World.t -> World.t :=
  retryIfPossible k XhrFailures.Abort None.

Definition onTimeout (k : nat) : World.t -> World.t :=
  retryIfPossible k XhrFailures.Timeout None.

(** [const requestId = nextRequestId++] and the wrap that follows it: the id
    handed out, and the new value of the counter. *)
Definition allocateRequestId (nextRequestId : Z) : Z * Z :=
  let requestId := nextRequestId in
  let nextRequestId := nextRequestId + 1 in
  (requestId, if MAX_SAFE_INTEGER <=? requestId then 1 else nextRequestId).

Definition methodIs (m : string) (method : string) : bool := String.eqb method m.

(** What [_makeRequest] does to the transport it creates, in source order:
    the response type, the listener of the [HttpTimer], the timeout, the four
    listeners of the executor, [open], the merged headers (call-site over
    client defaults) in the order of [Object.keys], and [send] when there is
    a body and the method is neither GET nor HEAD. *)
Definition newTransport (this : HttpClient.t) (method path : string)
    (params : HttpRequestOptions.t) (handle : nat) : XMLHttpRequest.t :=
  let xhr := XMLHttpRequest.new handle in
  let xhr :=
    match HttpRequestOptions.responseType params with
    | Some r => if String.eqb r EmptyString then xhr else XMLHttpRequest.setResponseType r xhr
    | None => xhr
    end in
  let xhr := XMLHttpRequest.call (AddEventListener "readystatechange") xhr in
  let timeout := orNull (HttpRequestOptions.timeout params) (HttpClient.timeout this) in
  let xhr := if timeout =? 0 then xhr else XMLHttpRequest.setTimeout timeout xhr in
  let xhr := XMLHttpRequest.call (AddEventListener "readystatechange") xhr in
  let xhr := XMLHttpRequest.call (AddEventListener "error") xhr in
  let xhr := XMLHttpRequest.call (AddEventListener "abort") xhr in
  let xhr := XMLHttpRequest.call (AddEventListener "timeout") xhr in
  let scheme := if HttpClient.ssl this then "https://" else "http://" in
  let url := scheme +:+ HttpClient.hostname this +:+ ":"
             +:+ numberToString (HttpClient.port this) +:+ path in
  let xhr := XMLHttpRequest.call (Open method url) xhr in
  let headers :=
    Headers.spread (HttpClient.headers this) (orNull (HttpRequestOptions.headers params) ∅) in
  let xhr :=
    foldl (fun x h => XMLHttpRequest.call (SetRequestHeader h.1 h.2) x) xhr
          (Headers.entries headers) in
  match HttpRequestOptions.body params with
  | Some body =>
      if truthyData (Some body) && negb (methodIs "GET" method) && negb (methodIs "HEAD" method)
      then XMLHttpRequest.call (Send body) xhr
      else xhr
  | None => xhr
  end.

(** [_makeRequest(method, path, params, attempt = 1)]: allocates the request
    id, sets up a fresh transport, and returns the index of the new attempt,
    which stands for the promise returned.  (The [HttpTimer] and the logger
    only observe; of the timer the listener it registers is kept.) *)
Definition _makeRequest (this : HttpClient.t) (method path : string)
    (params : HttpRequestOptions.t) (attempt : Z) (w : World.t) : nat * World.t :=
  let '(requestId, next) := allocateRequestId (World.nextRequestId w) in
  let w := World.setNextRequestId next w in
  let k := length (World.attempts w) in
  let xhr := newTransport this method path params k in
  let a := Attempt.mk this requestId attempt method path params xhr Outcome.None Pending [] in
  (k, World.setAttempts (World.attempts w ++ [a]) w).

(** [this._makeRequest(method, path, newParams).then(resolve, reject)] in the
    closure of attempt [k]: the attempt number is left to its default. *)
Definition doRetry (k : nat) (newParams : HttpRequestOptions.t) (w : World.t) : World.t :=
  match World.attempts w !! k with
  | None => w
  | Some a =>
      let '(k', w) :=
        _makeRequest (Attempt.this a) (Attempt.method a) (Attempt.path a) newParams 1 w in
      World.alterAttempt (Attempt.setForwardTo (k :: Attempt.forwardTo a)) k' w
  end.

(** [request], and with it [get], [post], [put], [patch] and [delete], which
    only fix the method. *)
Definition request (this : HttpClient.t) (method path : string)
    (params : HttpRequestOptions.t) (w : World.t) : nat * World.t :=
  _makeRequest this method path params 1 w.

(* ================================================================== *)
(** * The event loop                                                   *)
(* ================================================================== *)

(** What the browser does to the page: a transport changes its visible state
    and dispatches [readystatechange]; a transport dispatches [error],
    [abort] or [timeout]; a timer comes due. *)
Inductive Event :=
| ReadyStateChange (k : nat) (v : XhrView.t)
| ErrorEvent (k : nat)
| AbortEvent (k : nat)
| TimeoutEvent (k : nat)
| TimerFired (t : nat).

Definition runTimer (rt : Runtime.t) (t : nat) (w : World.t) : World.t :=
  match World.timers w !! t with
  | Some tm =>
      if Timer.fired tm then w
      else
        let w := World.setTimers
                   (<[t := Timer.mk (Timer.task tm) (Timer.delay tm) true]> (World.timers w)) w in
        match Timer.task tm with
        | OnDone k => onDone rt k w
        | DoRetry k newParams => doRetry k newParams w
        end
  | None => w
  end.

Definition step (rt : Runtime.t) (w : World.t) (e : Event) : World.t :=
  match e with
  | ReadyStateChange k v =>
      onReadyStateChange k
        (World.alterAttempt (fun a => Attempt.setXhr (XMLHttpRequest.setView v (Attempt.xhr a)) a) k w)
  | ErrorEvent k => onError k w
  | AbortEvent k => onAbort k w
  | TimeoutEvent k => onTimeout k w
  | TimerFired t => runTimer rt t w
  end.

Definition run (rt : Runtime.t) (w : World.t) (evs : list Event) : World.t :=
  foldl (step rt) w evs.

(* ================================================================== *)
(** * JavaScript number primitives used by timer.ts                    *)
(* ================================================================== *)

Module JsNumber.

(** [ToInt32]: wrap into the signed 32-bit range. *)
Definition ToInt32 (z : Z) : Z := (z + 2 ^ 31) mod 2 ^ 32 - 2 ^ 31.

(** Truncation toward zero. *)
Definition truncate (x : Q) : Z := Z.quot (Qnum x) (Z.pos (Qden x)).

(** [x | 0]. *)
Definition bitOr0 (x : Q) : Z := ToInt32 (truncate x).

(** [a % b] on integers: the remainder has the sign of the dividend. *)
Definition remainder (a b : Z) : Z := Z.rem a b.

Definition pow10 (k : Z) : Q := Qpower (inject_Z 10) k.

(** The largest [e' >= e] reached in [fuel] steps with [10^e' <= x]. *)
Fixpoint searchExponent (fuel : nat) (x : Q) (e : Z) : Z :=
  match fuel with
  | O => e
  | S fuel' =>
      if Qle_bool (pow10 (e + 1)) x then searchExponent fuel' x (e + 1) else e
  end.

(** The decimal exponent of [x > 0]: the [e] with [10^e <= x < 10^(e+1)],
    searched upward from a power of ten below [x]. *)
Definition exponent10 (x : Q) : Z :=
  let lo := - (Z.log2 (Z.pos (Qden x)) + 1) in
  let hi := Z.log2 (Qnum x) + 1 in
  searchExponent (Z.to_nat (hi - lo)) x lo.

Definition roundHalfUp (x : Q) : Z := Qfloor (x + (1 # 2))%Q.

(** The [n] and [e] of [Number.prototype.toPrecision] for [x > 0]:
    [10^(p-1) <= n < 10^p] with [n * 10^(e-p+1)] nearest to [x], the larger
    one on a tie. *)
Definition significand (p : Z) (x : Q) : Z * Z :=
  let e := exponent10 x in
  let n := roundHalfUp (x / pow10 (e - p + 1))%Q in
  if n =? 10 ^ p then (10 ^ (p - 1), e + 1) else (n, e).

Definition zeros (k : Z) : string := string_of_list_ascii (repeat "0"%char (Z.to_nat k)).

Definition sub (s : string) (from len : Z) : string :=
  substring (Z.to_nat from) (Z.to_nat len) s.

(** [x.toPrecision(p)] for a finite [x]. *)
Definition toPrecision (p : Z) (x : Q) : string :=
  if Qeq_bool x 0 then
    if p =? 1 then "0" else "0." +:+ zeros (p - 1)
  else
    let s := if Qle_bool 0 x then EmptyString else "-" in
    let '(n, e) := significand p (Qabs x) in
    let m := pretty n in
    if (e <? -6) || (p <=? e) then
      let m := if p =? 1 then m else sub m 0 1 +:+ "." +:+ sub m 1 (p - 1) in
      s +:+ m +:+ "e" +:+ (if 0 <=? e then "+" else "-") +:+ pretty (Z.abs e)
    else if e =? p - 1 then s +:+ m
    else if 0 <=? e then s +:+ sub m 0 (e + 1) +:+ "." +:+ sub m (e + 1) (p - (e + 1))
    else s +:+ "0." +:+ zeros (- (e + 1)) +:+ m.

End JsNumber.

(* ================================================================== *)
(** * timer.ts: formatDuration                                         *)
(* ================================================================== *)

Definition oneMinute : Z := 60.
Definition oneHour : Z := 60 * 60.

Definition formatDuration (rawMilliseconds : Q) : string :=
  let wholeSeconds :=
    JsNumber.bitOr0 (inject_Z (JsNumber.bitOr0 rawMilliseconds) / inject_Z 1000)%Q in
  let milliseconds :=
    JsNumber.toPrecision 6 (rawMilliseconds - inject_Z (wholeSeconds * 1000))%Q +:+ "ms" in
  if wholeSeconds <? 1 then milliseconds
  else if wholeSeconds <? oneMinute then
    numberToString wholeSeconds +:+ "sec " +:+ milliseconds
  else if wholeSeconds <? oneHour then
    let minutes := JsNumber.bitOr0 (inject_Z wholeSeconds / inject_Z oneMinute)%Q in
    let remainingSeconds := JsNumber.remainder wholeSeconds oneMinute in
    numberToString minutes +:+ "min " +:+ numberToString remainingSeconds +:+ "sec "
      +:+ milliseconds
  else
    let hours := JsNumber.bitOr0 (inject_Z wholeSeconds / inject_Z oneHour)%Q in
    let remainingMinutes :=
      JsNumber.bitOr0
        (inject_Z (JsNumber.remainder wholeSeconds oneHour) / inject_Z oneMinute)%Q in
    let remainingSeconds :=
      JsNumber.bitOr0
        (inject_Z (JsNumber.remainder (JsNumber.remainder wholeSeconds oneHour) oneMinute)) in
    numberToString hours +:+ "hr " +:+ numberToString remainingMinutes +:+ "min "
      +:+ numberToString remainingSeconds +:+ "sec " +:+ milliseconds.

(* ================================================================== *)
(** * index.ts: the public methods                                     *)
(* ================================================================== *)

(** The verb methods of [HttpClient] and [toString]; [request] is above. *)
Module HttpClientMethods.

Definition get (this : HttpClient.t) (path : string) (params : HttpRequestOptions.t)
    (w : World.t) : nat * World.t :=
  _makeRequest this "GET" path params 1 w.

Definition post (this : HttpClient.t) (path : string) (params : HttpRequestOptions.t)
    (w : World.t) : nat * World.t :=
  _makeRequest this "POST" path params 1 w.

Definition put (this : HttpClient.t) (path : string) (params : HttpRequestOptions.t)
    (w : World.t) : nat * World.t :=
  _makeRequest this "PUT" path params 1 w.

Definition patch (this : HttpClient.t) (path : string) (params : HttpRequestOptions.t)
    (w : World.t) : nat * World.t :=
  _makeRequest this "PATCH" path params 1 w.

Definition delete (this : HttpClient.t) (path : string) (params : HttpRequestOptions.t)
    (w : World.t) : nat * World.t :=
  _makeRequest this "DELETE" path params 1 w.

Definition booleanToString (b : bool) : string := if b then "true" else "false".

Definition toString (this : HttpClient.t) : string :=
  "#<HttpClient host=" +:+ HttpClient.hostname this
    +:+ " port=" +:+ numberToString (HttpClient.port this)
    +:+ " ssl=" +:+ booleanToString (HttpClient.ssl this) +:+ ">".

End HttpClientMethods.

(* ================================================================== *)
(** * timer.ts: HttpTimer                                              *)
(* ================================================================== *)

(** Truthiness of a timestamp field: [undefined] and 0 are falsy. *)
Definition truthyField (f : option Q) : bool :=
  match f with
  | Some q => negb (Qeq_bool q 0)
  | None => false
  end.

(** [formatDuration] on a number that need not be finite.  For [NaN] and
    the infinities [rawMilliseconds | 0] is 0, so [wholeSeconds] is 0, the
    difference is the number itself, and [toPrecision] prints its name. *)
Definition formatDurationNumber (rawMilliseconds : JsNum.t) : string :=
  match rawMilliseconds with
  | JsNum.Num q => formatDuration q
  | JsNum.NaN => "NaNms"
  | JsNum.PosInfinity => "Infinityms"
  | JsNum.NegInfinity => "-Infinityms"
  end.

Module TimerResult.
Record t := mk {
  duration : option string;
  headersReceived : option string;
  contentDownload : option string;
  wasSlow : option bool
}.
End TimerResult.

Module HttpTimer.

(** The fields of the class; the three timestamps start out [undefined]. *)
Record t := mk {
  slowThreshold : Z;
  opened : option Q;
  headersReceived : option Q;
  done : option Q
}.

(** The constructor, without the listener it registers. *)
Definition new (slowThreshold : Z) : t := mk slowThreshold None None None.

(** The [readystatechange] listener of the constructor, for an event with the
    time stamp [timeStamp] on a transport in the ready state [readyState]. *)
Definition onReadyStateChange (readyState : ReadyState.t) (timeStamp : Q) (this : t) : t :=
  match readyState with
  | ReadyState.Unsent => this
  | ReadyState.Opened =>
      mk (slowThreshold this) (Some timeStamp) (headersReceived this) (done this)
  | ReadyState.HeadersReceived =>
      mk (slowThreshold this) (opened this) (Some timeStamp) (done this)
  | ReadyState.Loading => this
  | ReadyState.Done =>
      mk (slowThreshold this) (opened this) (headersReceived this) (Some timeStamp)
  end.

(** [durations()]. *)
Definition durations (this : t) : TimerResult.t :=
  let duration := JsNum.sub (JsNum.ofField (done this)) (JsNum.ofField (opened this)) in
  TimerResult.mk
    (Some (formatDurationNumber duration))
    (if truthyField (opened this) && truthyField (headersReceived this)
     then Some (formatDurationNumber
                  (JsNum.sub (JsNum.ofField (headersReceived this))
                             (JsNum.ofField (opened this))))
     else None)
    (if truthyField (headersReceived this) && truthyField (done this)
     then Some (formatDurationNumber
                  (JsNum.sub (JsNum.ofField (done this))
                             (JsNum.ofField (headersReceived this))))
     else None)
    (Some (JsNum.gt duration (JsNum.ofZ (slowThreshold this)))).

End HttpTimer.

(** [new HttpTimer(xhr, params.slowThreshold || this.slowThreshold)] in
    [_makeRequest]. *)
Definition timerOf (this : HttpClient.t) (params : HttpRequestOptions.t) : HttpTimer.t :=
  HttpTimer.new
    (orNumber (HttpRequestOptions.slowThreshold params) (HttpClient.slowThreshold this)).

(* ================================================================== *)
(** * Definitions used to state the properties                         *)
(* ================================================================== *)

(** The counter after [n] further calls of [_makeRequest], whoever makes
    them. *)
Definition counterAfter (n : N) (nextRequestId : Z) : Z :=
  N.iter n (fun c => (allocateRequestId c).2) nextRequestId.

(** The id that the call after those [n] calls hands out. *)
Definition idAfter (n : N) (nextRequestId : Z) : Z :=
  (allocateRequestId (counterAfter n nextRequestId)).1.


(** Last write wins: the value of the last pair whose lower-cased name is
    [key]. *)
Fixpoint lastValue (key : string) (raw : list (string * string)) : option string :=
  match raw with
  | [] => None
  | (name, value) :: rest =>
      match lastValue key rest with
      | Some v => Some v
      | None => if String.eqb (JsString.toLowerCase name) key then Some value else None
      end
  end.

(** The header blob of the example: two lines, each closed by CR LF. *)
Definition exampleHeaderBlob : string :=
  "Content-Type: application/json" +:+ JsString.CRLF +:+ "X-Foo: bar" +:+ JsString.CRLF.

(** The duration format in words: whole seconds by truncation of [d / 1000],
    the rest below a second to 6 significant digits with the suffix ms, and
    above a second the units by integer division and modulo over 3600 and
    60.  The three unit labels of the branch from one hour on are parameters;
    [formatDuration] is that branch as the specification prints it,
    [formatDurationHr] as the documentation of the source prints it
    (1hr 2min 3sec 4.56789ms). *)
Module Spec.

Definition wholeSeconds (d : Q) : Z := JsNumber.truncate (d / inject_Z 1000)%Q.

Definition milliseconds (d : Q) : string :=
  JsNumber.toPrecision 6 (d - inject_Z (wholeSeconds d * 1000))%Q +:+ "ms".

Definition formatDurationWith (hourUnit minuteUnit secondUnit : string) (d : Q) : string :=
  let sec := wholeSeconds d in
  let ms := milliseconds d in
  if sec <? 1 then ms
  else if sec <? 60 then numberToString sec +:+ "sec " +:+ ms
  else if sec <? 3600 then
    numberToString (sec / 60) +:+ "min " +:+ numberToString (sec mod 60) +:+ "sec " +:+ ms
  else
    numberToString (sec / 3600) +:+ hourUnit
      +:+ numberToString (sec mod 3600 / 60) +:+ minuteUnit
      +:+ numberToString (sec mod 3600 mod 60) +:+ secondUnit +:+ ms.

Definition formatDuration : Q -> string := formatDurationWith "min " "sec " "sec ".

Definition formatDurationHr : Q -> string := formatDurationWith "hr " "min " "sec ".

End Spec.

(** ** Scenarios *)

(** A client for http://localhost:8080 with the default policy and the given
    default retry budget. *)
Definition exampleClient (retries : Z) : HttpClient.t :=
  HttpClient.new
    (HttpClientParams.mk "localhost" 8080 false None None (Some retries) None None).

(** Options that carry a text body and nothing else. *)
Definition exampleOptions : HttpRequestOptions.t :=
  HttpRequestOptions.mk (Some (DString "{}")) None None None None None None.

(** Options without anything. *)
Definition noOptions : HttpRequestOptions.t :=
  HttpRequestOptions.mk None None None None None None None.

(** The transport as it shows itself when it reaches Done with [status]. *)
Definition doneView (status : Z) : XhrView.t :=
  XhrView.mk ReadyState.Done status None "ok" exampleHeaderBlob.

(** The transport as it shows itself when a network failure has brought it
    to Done: status 0, no payload, no headers. *)
Definition failedView : XhrView.t :=
  XhrView.mk ReadyState.Done 0 None EmptyString EmptyString.

(** A page on which [exampleClient retries] has just posted to /p. *)
Definition posted (retries : Z) : World.t :=
  (request (exampleClient retries) "POST" "/p" exampleOptions World.initial).2.

(** A page on which [exampleClient retries] has posted to /p through
    [_makeRequest] with the attempt number [attempt], as a subclass can. *)
Definition postedAs (retries attempt : Z) : World.t :=
  (_makeRequest (exampleClient retries) "POST" "/p" exampleOptions attempt World.initial).2.

Inductive SettlementKind := Resolved | Rejected_.

Definition kindOf (s : Settlement) : SettlementKind :=
  match s with
  | Resolve _ => Resolved
  | Reject _ => Rejected_
  end.

(** The calls of [resolve] and [reject] so far: whose, and which. *)
Definition settleCalls (w : World.t) : list (nat * SettlementKind) :=
  map (fun e => (e.1, kindOf e.2)) (World.settleLog w).

Definition promiseOf (k : nat) (w : World.t) : option PromiseState :=
  Attempt.promise <$> World.attempts w !! k.

Definition outcomeOf (k : nat) (w : World.t) : option Outcome.t :=
  Attempt.outcome <$> World.attempts w !! k.

(** The status code a promise was fulfilled with, if it was. *)
Definition fulfilledStatus (p : option PromiseState) : option Z :=
  match p with
  | Some (Fulfilled res) => Some (Response.statusCode res)
  | _ => None
  end.

Definition isResponse (v : JsValue) : bool :=
  match v with
  | VResponse _ => true
  | _ => false
  end.

(** Whether some field of a rejection value holds a [Response]. *)
Definition carriesResponse (reason : JsObject) : bool :=
  existsb (fun f => isResponse f.2) reason.

(** The cause a rejection value holds in its field [cause]. *)
Definition causeOf (reason : JsObject) : option XhrFailures.t :=
  match filter (fun f => bool_decide (f.1 = "cause")) reason with
  | (_, VCause c) :: _ => Some c
  | _ => None
  end.

(** The cause a promise was rejected with, if it was. *)
Definition rejectedCause (p : option PromiseState) : option XhrFailures.t :=
  match p with
  | Some (Rejected reason) => causeOf reason
  | _ => None
  end.

(** The object literal [{ xhr, cause }]. *)
Definition rejection (xhr : XMLHttpRequest.t) (cause : XhrFailures.t) : JsObject :=
  [("xhr", VXhr xhr); ("cause", VCause cause)].

Definition isDoRetry (t : Timer.t) : bool :=
  match Timer.task t with
  | DoRetry _ _ => true
  | OnDone _ => false
  end.

(** The attempt in whose closure a timer callback runs. *)
Definition taskAttempt (task : TimerTask) : nat :=
  match task with
  | OnDone k => k
  | DoRetry k _ => k
  end.

(** Nothing on the page refers to an attempt that has not been made: timers
    run in the closure of an existing attempt, promises forward to existing
    attempts. *)
Definition wellFormed (w : World.t) : Prop :=
  Forall (fun t => (taskAttempt (Timer.task t) < length (World.attempts w))%nat)
         (World.timers w)
  /\ Forall (fun a => Forall (fun j => (j < length (World.attempts w))%nat)
                             (Attempt.forwardTo a))
            (World.attempts w).

(** Nothing yet concerns attempt [k]: its promise is pending, no timer runs
    in its closure, no promise forwards to it. *)
Definition untouched (k : nat) (w : World.t) : Prop :=
  promiseOf k w = Some Pending
  /\ Forall (fun t => taskAttempt (Timer.task t) <> k) (World.timers w)
  /\ Forall (fun a => k ∉ Attempt.forwardTo a) (World.attempts w).

Definition isDone (s : ReadyState.t) : bool :=
  match s with
  | ReadyState.Done => true
  | _ => false
  end.

(** The transport of attempt [k] dispatches [error], [abort] or [timeout]. *)
Definition failureOf (k : nat) (e : Event) : bool :=
  match e with
  | ErrorEvent j | AbortEvent j | TimeoutEvent j => bool_decide (j = k)
  | _ => false
  end.

(** The transport of attempt [k] announces the ready state Done. *)
Definition doneOf (k : nat) (e : Event) : bool :=
  match e with
  | ReadyStateChange j v => bool_decide (j = k) && isDone (XhrView.readyState v)
  | _ => false
  end.

Definition terminalOf (k : nat) (e : Event) : bool := failureOf k e || doneOf k e.

Definition isSend (c : XhrCall) : bool :=
  match c with
  | Send _ => true
  | _ => false
  end.

(** The transport calls made for attempt [k]. *)
Definition callsOf (k : nat) (w : World.t) : option (list XhrCall) :=
  (fun a => XMLHttpRequest.calls (Attempt.xhr a)) <$> World.attempts w !! k.

(** The failure that an event reports, and the attempt it reports it for:
    [error], [abort] and [timeout] name their cause; the timer of [onDone]
    reports [Status] when it finds a status of 400 or more. *)
Definition failureReported (w : World.t) (e : Event) : option (nat * XhrFailures.t) :=
  match e with
  | ReadyStateChange _ _ => None
  | ErrorEvent i => Some (i, XhrFailures.Error)
  | AbortEvent i => Some (i, XhrFailures.Abort)
  | TimeoutEvent i => Some (i, XhrFailures.Timeout)
  | TimerFired t =>
      match Timer.task <$> World.timers w !! t with
      | Some (OnDone i) =>
          match World.attempts w !! i with
          | Some a =>
              if 400 <=? XhrView.status (XMLHttpRequest.view (Attempt.xhr a))
              then Some (i, XhrFailures.Status)
              else None
          | None => None
          end
      | _ => None
      end
  end.

(** The response that the handler of a failure passes to the retry policy:
    the one [onDone] has built, for [Status], and none for the others. *)
Definition responseOffered (rt : Runtime.t) (cause : XhrFailures.t) (xhr : XMLHttpRequest.t)
    : option Response.t :=
  match cause with
  | XhrFailures.Status => Some (buildResponse rt xhr)
  | _ => None
  end.

(** ** A request that fails on every attempt *)

(** The events by which attempt [k] fails once with [cause]: for [Status]
    the transport announces Done with the view [v] and the timer [t] that
    this sets comes due; otherwise the transport dispatches the one event. *)
Definition failureEvents (cause : XhrFailures.t) (v : XhrView.t) (k t : nat) : list Event :=
  match cause with
  | XhrFailures.Status => [ReadyStateChange k v; TimerFired t]
  | XhrFailures.Error => [ErrorEvent k]
  | XhrFailures.Abort => [AbortEvent k]
  | XhrFailures.Timeout => [TimeoutEvent k]
  end.

(** The timers one such failure sets before [retryIfPossible] runs. *)
Definition timersOf (cause : XhrFailures.t) : nat :=
  match cause with
  | XhrFailures.Status => 1
  | _ => 0
  end.

(** Attempt [k] fails, and while the count [R] of further attempts lasts the
    next timer comes due and attempt [k + 1] fails in the same way; [t] is
    the index of the next timer to be set. *)
Fixpoint failingScript (cause : XhrFailures.t) (v : XhrView.t) (R : nat) (k t : nat)
    : list Event :=
  failureEvents cause v k t
  ++ match R with
     | O => []
     | S R' =>
         TimerFired (t + timersOf cause)
           :: failingScript cause v R' (S k) (S (t + timersOf cause))
     end.

(** The delays of the retry timers among [timers]. *)
Definition retryDelays (timers : list Timer.t) : list JsNum.t :=
  map Timer.delay (filter (fun t => isDoRetry t = true) timers).

(** A projection of an attempt that the handlers never change. *)
Definition closureConstant {B} (g : Attempt.t -> B) : Prop :=
  (forall v a, g (Attempt.setXhr (XMLHttpRequest.setView v (Attempt.xhr a)) a) = g a)
  /\ (forall o a, g (Attempt.setOutcome o a) = g a)
  /\ (forall p a, g (Attempt.setPromise p a) = g a)
  /\ (forall ks a, g (Attempt.setForwardTo ks a) = g a).

(** The last attempt [k] of the page has the budget [R], a policy that
    retries [cause], and a pending promise that forwards along [chain] to
    pending promises. *)
Definition ready (R : nat) (cause : XhrFailures.t) (w : World.t) (k : nat)
    (chain : list nat) : Prop :=
  exists a,
    World.attempts w !! k = Some a
    /\ length (World.attempts w) = S k
    /\ retriesOf a = Z.of_nat R
    /\ (forall x res, isRetryableOf a x cause res = true)
    /\ Attempt.forwardTo a = chain
    /\ Forall (fun j => promiseOf j w = Some Pending) (k :: chain)
    /\ NoDup (k :: chain).

(** The world in which [retryIfPossible] runs once attempt [k] has failed
    with status [>= 400]: the view is [v], the latch is set, the timer of
    [onDone] has fired. *)
Definition statusFailed (v : XhrView.t) (k : nat) (w : World.t) : World.t :=
  World.mk (World.nextRequestId w)
    (alter (fun a => Attempt.setOutcome Outcome.Done
                       (Attempt.setXhr (XMLHttpRequest.setView v (Attempt.xhr a)) a))
           k (World.attempts w))
    (World.timers w ++ [Timer.mk (OnDone k) 10 true])
    (World.settleLog w).

(** ** The set-up of a transport *)

(** The listeners that [_makeRequest] has registered when it calls [open]:
    the one of the [HttpTimer], then the four of the executor. *)
Definition listeners : list XhrCall :=
  [AddEventListener "readystatechange"; AddEventListener "readystatechange";
   AddEventListener "error"; AddEventListener "abort"; AddEventListener "timeout"].

(** The URL that [_makeRequest] opens. *)
Definition urlOf (this : HttpClient.t) (path : string) : string :=
  (if HttpClient.ssl this then "https://" else "http://")
    +:+ HttpClient.hostname this +:+ ":" +:+ numberToString (HttpClient.port this) +:+ path.

(** The header of the call-site if it has one of that name, else the one of
    the client. *)
Definition headerOf (this : HttpClient.t) (params : HttpRequestOptions.t) (name : string)
    : option string :=
  match orNull (HttpRequestOptions.headers params) ∅ !! name with
  | Some v => Some v
  | None => HttpClient.headers this !! name
  end.

Definition isSetRequestHeader (c : XhrCall) : bool :=
  match c with
  | SetRequestHeader _ _ => true
  | _ => false
  end.

(** The names of the request headers set by a list of calls, in call order. *)
Definition headerNames (calls : list XhrCall) : list string :=
  omap (fun c => match c with SetRequestHeader n _ => Some n | _ => None end) calls.

(** ** Retries *)

(** A policy that retries whatever the failure is. *)
Definition retryAlways : IsRetryableCallback := fun _ _ _ => true.

(** Options that carry a text body and that policy. *)
Definition retryingOptions : HttpRequestOptions.t :=
  HttpRequestOptions.mk (Some (DString "{}")) None None None (Some retryAlways) None None.

(** The last attempt [k] of the page has the budget [r], of either sign, a
    policy that retries [cause], the handle [k], and a pending promise that
    forwards along [chain] to pending promises. *)
Definition standing (r : Z) (cause : XhrFailures.t) (w : World.t) (k : nat)
    (chain : list nat) : Prop :=
  exists a,
    World.attempts w !! k = Some a
    /\ length (World.attempts w) = S k
    /\ retriesOf a = r
    /\ (forall x res, isRetryableOf a x cause res = true)
    /\ XMLHttpRequest.handle (Attempt.xhr a) = k
    /\ Attempt.forwardTo a = chain
    /\ Forall (fun j => promiseOf j w = Some Pending) (k :: chain)
    /\ NoDup (k :: chain).

(** [n] rounds in which the attempt at hand fails with [cause] and the timer
    of its retry comes due; [k] is the attempt of the first round and [t] the
    index of the next timer to be set. *)
Fixpoint retryingScript (cause : XhrFailures.t) (v : XhrView.t) (n : nat) (k t : nat)
    : list Event :=
  match n with
  | O => []
  | S n' =>
      failureEvents cause v k t
      ++ TimerFired (t + timersOf cause)
           :: retryingScript cause v n' (S k) (S (t + timersOf cause))
  end.

(** The timers that [n] such rounds set. *)
Definition timersOfRounds (cause : XhrFailures.t) (n : nat) : nat := n * S (timersOf cause).

(** The attempt [k] answers: its transport announces Done with the view [v]
    and the timer [t] that this sets comes due. *)
Definition answerEvents (v : XhrView.t) (k t : nat) : list Event :=
  [ReadyStateChange k v; TimerFired t].

(** The attempt that [doRetry] makes for the attempt [a] with index [k] on a
    page with [n] attempts and the counter at [requestId]. *)
Definition retryOf (a : Attempt.t) (k n : nat) (requestId : Z) : Attempt.t :=
  let newParams := HttpRequestOptions.withRetries (retriesOf a - 1) (Attempt.params a) in
  Attempt.mk (Attempt.this a) requestId 1 (Attempt.method a) (Attempt.path a) newParams
    (newTransport (Attempt.this a) (Attempt.method a) (Attempt.path a) newParams n)
    Outcome.None Pending (k :: Attempt.forwardTo a).

(** ** Request ids and attempt numbers on a page *)

(** The request ids of the attempts, in the order the attempts were made. *)
Definition requestIds (w : World.t) : list Z := map Attempt.requestId (World.attempts w).

(** ** What every attempt of a request has in common *)

(** The options up to the retry budget, which a retry changes. *)
Definition optionsOf (params : HttpRequestOptions.t) : HttpRequestOptions.t :=
  HttpRequestOptions.withRetries 0 params.

(** The attempt is one for the request [method path params] of the client
    [this]: same client, method, path and options up to the budget, and a
    transport set up by the calls that set up a transport for that request. *)
Definition sameRequest (this : HttpClient.t) (method path : string)
    (params : HttpRequestOptions.t) (a : Attempt.t) : Prop :=
  Attempt.this a = this
  /\ Attempt.method a = method
  /\ Attempt.path a = path
  /\ optionsOf (Attempt.params a) = optionsOf params
  /\ XMLHttpRequest.calls (Attempt.xhr a)
     = XMLHttpRequest.calls (newTransport this method path params 0).

(** The retry that a timer holds, if it holds one, is one with the options
    [params] up to the budget. *)
Definition retriesWith (params : HttpRequestOptions.t) (t : Timer.t) : Prop :=
  match Timer.task t with
  | DoRetry _ newParams => optionsOf newParams = optionsOf params
  | OnDone _ => True
  end.
(* ================================================================== *)
(** * The retry policy                                                 *)
(* ================================================================== *)

(** C5. The default predicate [retryNetworkErrors] answers true exactly for
    the causes [Error] and [Timeout], and false for [Abort] and [Status],
    whatever the transport handle and the optional response are. *)
Theorem retryNetworkErrors_spec {X R : Type} (xhr : X) (res : option R) :
  (forall cause,
      retryNetworkErrors xhr cause res = true
      <-> cause = XhrFailures.Error \/ cause = XhrFailures.Timeout)
  /\ retryNetworkErrors xhr XhrFailures.Abort res = false
  /\ retryNetworkErrors xhr XhrFailures.Status res = false.
Proof.
  split; [| split; reflexivity].
  intros cause; split.
  - destruct cause; cbn; intros H; try discriminate H; auto.
  - intros [-> | ->]; reflexivity.
Qed.

(** Case analysis on the condition of the first conditional of the goal. *)
Ltac case_if :=
  match goal with
  | |- context [if ?b then _ else _] => destruct b eqn:?
  end.

(** ** What settling a promise leaves alone *)

Lemma settleChain_timers ks s w :
  World.timers (settleChain ks s w) = World.timers w.
Proof.
  revert w. induction ks as [| k ks IH]; intros w; cbn; [reflexivity |].
  destruct (Attempt.promise <$> World.attempts w !! k) as [[| |] |]; try reflexivity.
  rewrite IH. reflexivity.
Qed.

Lemma settleChain_nextRequestId ks s w :
  World.nextRequestId (settleChain ks s w) = World.nextRequestId w.
Proof.
  revert w. induction ks as [| k ks IH]; intros w; cbn; [reflexivity |].
  destruct (Attempt.promise <$> World.attempts w !! k) as [[| |] |]; try reflexivity.
  rewrite IH. reflexivity.
Qed.

Lemma settle_timers k s w : World.timers (settle k s w) = World.timers w.
Proof. unfold settle. destruct (_ !! _); [apply settleChain_timers | reflexivity]. Qed.

Lemma settle_nextRequestId k s w :
  World.nextRequestId (settle k s w) = World.nextRequestId w.
Proof. unfold settle. destruct (_ !! _); [apply settleChain_nextRequestId | reflexivity]. Qed.

(* ================================================================== *)
(** * Doubles                                                          *)
(* ================================================================== *)

Lemma twoTo_pos k : (0 < JsNum.twoTo k)%Q.
Proof. apply Qpower_0_lt. reflexivity. Qed.

Lemma twoTo_plus a b : (JsNum.twoTo (a + b) == JsNum.twoTo a * JsNum.twoTo b)%Q.
Proof. apply Qpower_plus. discriminate. Qed.

Lemma twoTo_le a b : a <= b -> (JsNum.twoTo a <= JsNum.twoTo b)%Q.
Proof. intros H. apply Qpower_le_compat_l; [exact H | discriminate]. Qed.

Lemma twoTo_lt a b : a < b -> (JsNum.twoTo a < JsNum.twoTo b)%Q.
Proof. intros H. apply Qpower_lt_compat_l; [exact H | reflexivity]. Qed.

Lemma twoTo_lt_inv a b : (JsNum.twoTo a < JsNum.twoTo b)%Q -> a < b.
Proof. intros H. eapply Qpower_lt_compat_l_inv; [exact H | reflexivity]. Qed.

Lemma twoTo_inject n : 0 <= n -> (inject_Z (2 ^ n) == JsNum.twoTo n)%Q.
Proof. intros H. unfold JsNum.twoTo. by rewrite Zpower_Qpower. Qed.

Lemma twoTo_minus a b : (JsNum.twoTo (a - b) * JsNum.twoTo b == JsNum.twoTo a)%Q.
Proof. rewrite <- twoTo_plus. by replace (a - b + b) with a by lia. Qed.

Lemma inject_Z_lt a b : a < b -> (inject_Z a < inject_Z b)%Q.
Proof. by rewrite <- Zlt_Qlt. Qed.

Lemma inject_Z_le a b : a <= b -> (inject_Z a <= inject_Z b)%Q.
Proof. by rewrite <- Zle_Qle. Qed.

(** [exponent2] is the binary exponent. *)
Lemma exponent2_spec (a : Q) :
  (0 < a)%Q ->
  (JsNum.twoTo (JsNum.exponent2 a) <= a)%Q /\ (a < JsNum.twoTo (JsNum.exponent2 a + 1))%Q.
Proof.
  intros Ha. destruct a as [n d]. 
  assert (0 < n) as Hn by (unfold Qlt in Ha; cbn in Ha; lia).
  unfold JsNum.exponent2. cbn [Qnum Qden].
  set (ln := Z.log2 n). set (ld := Z.log2 (Z.pos d)).
  destruct (Z.log2_spec n Hn) as [Hn1 Hn2]. fold ln in Hn1, Hn2.
  destruct (Z.log2_spec (Z.pos d) (Pos2Z.is_pos d)) as [Hd1 Hd2]. fold ld in Hd1, Hd2.
  assert (0 <= ln) as Hln by apply Z.log2_nonneg.
  assert (0 <= ld) as Hld by apply Z.log2_nonneg.
  assert (n # d == inject_Z n / inject_Z (Z.pos d))%Q as Hq by apply Qmake_Qdiv.
  assert (0 < inject_Z (Z.pos d))%Q as Hdpos by (apply (inject_Z_lt 0); lia).
  (* bounds on the quotient *)
  assert (JsNum.twoTo (ln - ld - 1) <= n # d)%Q as Hlow.
  { rewrite Hq. apply Qle_shift_div_l; [exact Hdpos |].
    apply Qle_trans with (JsNum.twoTo (ln - ld - 1) * JsNum.twoTo (ld + 1))%Q.
    - apply Qmult_le_l; [apply twoTo_pos |].
      rewrite <- twoTo_inject by lia. apply inject_Z_le. rewrite Z.add_1_r. lia.
    - rewrite <- twoTo_plus. replace (ln - ld - 1 + (ld + 1)) with ln by lia.
      rewrite <- twoTo_inject by lia. by apply inject_Z_le. }
  assert (n # d < JsNum.twoTo (ln - ld + 1))%Q as Hhigh.
  { rewrite Hq. apply Qlt_shift_div_r; [exact Hdpos |].
    apply Qlt_le_trans with (JsNum.twoTo (ln - ld + 1) * JsNum.twoTo ld)%Q.
    - rewrite <- twoTo_plus. replace (ln - ld + 1 + ld) with (ln + 1) by lia.
      rewrite <- twoTo_inject by lia. apply inject_Z_lt. rewrite Z.add_1_r. lia.
    - apply Qmult_le_l; [apply twoTo_pos |].
      rewrite <- twoTo_inject by lia. by apply inject_Z_le. }
  destruct (Qle_bool (JsNum.twoTo (ln - ld)) (n # d)) eqn:E.
  - apply Qle_bool_iff in E. split; [exact E | exact Hhigh].
  - split; [exact Hlow |].
    replace (ln - ld - 1 + 1) with (ln - ld) by lia.
    apply Qnot_le_lt. intros H. apply Qle_bool_iff in H. congruence.
Qed.

Lemma roundHalfEven_Z (x : Q) (z : Z) : (x == inject_Z z)%Q -> JsNum.roundHalfEven x = z.
Proof.
  intros Hx. unfold JsNum.roundHalfEven.
  assert (Qfloor x = z) as -> by (rewrite Hx; apply Qfloor_Z).
  destruct (Qcompare_spec (x - inject_Z z) (1 # 2)) as [H | H | H]; [lra | reflexivity | lra].
Qed.

Lemma roundHalfEven_floor (x : Q) : Qfloor x <= JsNum.roundHalfEven x.
Proof.
  unfold JsNum.roundHalfEven. destruct (_ ?= _)%Q; [destruct (Z.even _) |..]; lia.
Qed.

Lemma Qred_inject_Z z : Qred (inject_Z z) = inject_Z z.
Proof.
  unfold Qred, inject_Z.
  pose proof (Z.ggcd_gcd z 1) as Hg.
  pose proof (Z.ggcd_correct_divisors z 1) as Hd.
  destruct (Z.ggcd z 1) as [g [a b]]. cbn in Hg, Hd.
  rewrite Z.gcd_1_r in Hg. subst g. destruct Hd as [Ha Hb].
  assert (b = 1) as -> by lia. assert (a = z) as -> by lia. reflexivity.
Qed.

Lemma Qabs_pos_lt (x : Q) : ~ (x == 0)%Q -> (0 < Qabs x)%Q.
Proof.
  intros Hx. destruct (Qlt_le_dec 0 (Qabs x)) as [H | H]; [exact H |].
  exfalso. apply Hx. apply Qabs_Qle_condition in H. lra.
Qed.

(** A number with at most 53 significant bits, at or above the smallest
    subnormal and below [2^1024], is a double: rounding leaves it as it
    is. *)
Lemma round_exact (x : Q) (m k : Z) :
  (x == inject_Z m * JsNum.twoTo k)%Q ->
  Z.abs m < 2 ^ 53 ->
  -1074 <= k ->
  (Qabs x < JsNum.twoTo 1024)%Q ->
  JsNum.round x = JsNum.Num (Qred x).
Proof.
  intros Hx Hm Hk Hbig. unfold JsNum.round.
  destruct (Qeq_bool x 0) eqn:E0.
  { apply Qeq_bool_iff in E0. f_equal. by rewrite (Qred_complete _ _ E0). }
  assert (~ x == 0)%Q as Hx0 by (intros H; apply Qeq_bool_iff in H; congruence).
  set (a := Qabs x) in *.
  assert (a == inject_Z (Z.abs m) * JsNum.twoTo k)%Q as Ha.
  { unfold a. rewrite Hx, Qabs_Qmult, (Qabs_pos (JsNum.twoTo k))
      by apply Qlt_le_weak, twoTo_pos.
    reflexivity. }
  assert (0 < a)%Q as Hapos by (by apply Qabs_pos_lt).
  destruct (exponent2_spec a Hapos) as [He1 He2].
  set (e := JsNum.exponent2 a) in *.
  assert (e <= 52 + k) as He.
  { assert (JsNum.twoTo e < JsNum.twoTo (53 + k))%Q as H.
    { eapply Qle_lt_trans; [exact He1 |]. rewrite Ha, twoTo_plus.
      apply Qmult_lt_r; [apply twoTo_pos |].
      rewrite <- twoTo_inject by lia. by apply inject_Z_lt. }
    apply twoTo_lt_inv in H. lia. }
  set (E := Z.max e (-1022) - 52).
  assert (E <= k) as HE by (unfold E; lia).
  pose proof (twoTo_pos E) as HEpos.
  assert (a / JsNum.twoTo E == inject_Z (Z.abs m * 2 ^ (k - E)))%Q as Hdiv.
  { rewrite Ha, inject_Z_mult, twoTo_inject by lia. rewrite <- (twoTo_minus k E).
    field. lra. }
  rewrite (roundHalfEven_Z _ _ Hdiv).
  assert (inject_Z (Z.abs m * 2 ^ (k - E)) * JsNum.twoTo E == a)%Q as Hv.
  { rewrite Ha, inject_Z_mult, twoTo_inject by lia. rewrite <- (twoTo_minus k E). ring. }
  destruct (Qle_bool (JsNum.twoTo 1024) _) eqn:Eo.
  { exfalso. apply Qle_bool_iff in Eo. rewrite Hv in Eo. lra. }
  f_equal. apply Qred_complete.
  destruct (Qle_bool 0 x) eqn:Es.
  - apply Qle_bool_iff in Es. rewrite Hv. by apply Qabs_pos.
  - assert (x <= 0)%Q as Hneg.
    { apply Qlt_le_weak, Qnot_le_lt. intros H. apply Qle_bool_iff in H. congruence. }
    rewrite Hv. unfold a. rewrite (Qabs_neg _ Hneg). ring.
Qed.

(** A number of [2^1024] or more rounds to [Infinity]. *)
Lemma round_overflow (x : Q) : (JsNum.twoTo 1024 <= x)%Q -> JsNum.round x = JsNum.PosInfinity.
Proof.
  intros Hx. unfold JsNum.round.
  pose proof (twoTo_pos 1024) as Hp.
  destruct (Qeq_bool x 0) eqn:E0; [apply Qeq_bool_iff in E0; lra |].
  assert (Qabs x == x)%Q as Ha by (apply Qabs_pos; lra).
  set (a := Qabs x) in *.
  assert (0 < a)%Q as Hapos by lra.
  destruct (exponent2_spec a Hapos) as [He1 He2].
  set (e := JsNum.exponent2 a) in *.
  assert (1024 <= e) as He.
  { assert (JsNum.twoTo 1024 < JsNum.twoTo (e + 1))%Q as H by lra.
    apply twoTo_lt_inv in H. lia. }
  replace (Z.max e (-1022)) with e by lia.
  pose proof (twoTo_pos (e - 52)) as Hu.
  assert (2 ^ 52 <= JsNum.roundHalfEven (a / JsNum.twoTo (e - 52))) as Hm.
  { etrans; [| apply roundHalfEven_floor].
    rewrite <- (Qfloor_Z (2 ^ 52)). apply Qfloor_resp_le.
    apply Qle_shift_div_l; [exact Hu |].
    rewrite twoTo_inject by lia. rewrite <- twoTo_plus.
    replace (52 + (e - 52)) with e by lia. exact He1. }
  assert (Qle_bool (JsNum.twoTo 1024)
            (inject_Z (JsNum.roundHalfEven (a / JsNum.twoTo (e - 52))) * JsNum.twoTo (e - 52))
          = true) as ->.
  { apply Qle_bool_iff.
    apply Qle_trans with (inject_Z (2 ^ 52) * JsNum.twoTo (e - 52))%Q.
    - rewrite twoTo_inject by lia. rewrite <- twoTo_plus.
      replace (52 + (e - 52)) with e by lia. by apply twoTo_le.
    - apply Qmult_le_compat_r; [by apply inject_Z_le | lra]. }
  assert (Qle_bool 0 x = true) as -> by (apply Qle_bool_iff; lra).
  reflexivity.
Qed.

(** [2 ** n] is exact from the smallest subnormal up to [2^1023]. *)
Lemma pow2_exact (n : Z) :
  -1074 <= n -> n <= 1023 -> JsNum.pow2 n = JsNum.Num (Qred (JsNum.twoTo n)).
Proof.
  intros Hlo Hhi. unfold JsNum.pow2.
  apply (round_exact _ 1 n); [ring | reflexivity | exact Hlo |].
  rewrite Qabs_pos by apply Qlt_le_weak, twoTo_pos.
  apply twoTo_lt. lia.
Qed.

Lemma twoTo_le_1 n : 0 <= n -> (1 <= JsNum.twoTo n)%Q.
Proof. intros H. change 1%Q with (JsNum.twoTo 0). by apply twoTo_le. Qed.

(** The product is exact as long as it stays below [2^1024]. *)
Lemma backoff_finite (n : Z) :
  -1074 <= n -> n <= 1016 ->
  backoff n = JsNum.Num (Qred (250 * JsNum.twoTo n)).
Proof.
  intros Hlo Hhi. unfold backoff. rewrite pow2_exact by lia.
  cbn [JsNum.mul JsNum.ofZ].
  assert (Qred (JsNum.twoTo n) * inject_Z 250 == inject_Z 250 * JsNum.twoTo n)%Q as Hx
    by (rewrite Qred_correct; ring).
  rewrite (round_exact _ 250 n Hx); [| reflexivity | exact Hlo |].
  - f_equal. apply Qred_complete. rewrite Hx. reflexivity.
  - rewrite Hx, Qabs_pos.
    + apply Qlt_le_trans with (inject_Z 256 * JsNum.twoTo n)%Q.
      * apply Qmult_lt_r; [apply twoTo_pos | reflexivity].
      * change (inject_Z 256) with (JsNum.twoTo 8). rewrite <- twoTo_plus.
        apply twoTo_le. lia.
    + apply Qmult_le_0_compat; [discriminate | apply Qlt_le_weak, twoTo_pos].
Qed.

Lemma backoff_eq (n : Z) : 0 <= n -> n <= 1016 -> backoff n = JsNum.ofZ (250 * 2 ^ n).
Proof.
  intros Hlo Hhi. rewrite backoff_finite by lia. unfold JsNum.ofZ. f_equal.
  rewrite <- Qred_inject_Z. apply Qred_complete.
  rewrite inject_Z_mult, twoTo_inject by lia. reflexivity.
Qed.

(** From 1017 on the product is [2^1024] or more. *)
Lemma backoff_overflow (n : Z) : 1017 <= n -> backoff n = JsNum.PosInfinity.
Proof.
  intros Hn. unfold backoff.
  destruct (Z.le_gt_cases n 1023) as [Hle | Hgt].
  - rewrite pow2_exact by lia. cbn [JsNum.mul JsNum.ofZ].
    apply round_overflow. rewrite Qred_correct.
    apply Qle_trans with (JsNum.twoTo n * inject_Z 128)%Q.
    + change (inject_Z 128) with (JsNum.twoTo 7). rewrite <- twoTo_plus.
      apply twoTo_le. lia.
    + apply Qmult_le_l; [apply twoTo_pos | discriminate].
  - unfold JsNum.pow2. rewrite round_overflow by (apply twoTo_le; lia). reflexivity.
Qed.

Lemma backoff_lt (m n : Z) :
  0 <= m -> m < n -> n <= 1016 -> JsNum.lt (backoff m) (backoff n) = true.
Proof.
  intros Hm Hmn Hn. rewrite !backoff_eq by lia. cbn [JsNum.lt JsNum.ofZ].
  apply negb_true_iff. destruct (Qle_bool _ _) eqn:E; [| reflexivity].
  apply Qle_bool_iff in E. rewrite <- Zle_Qle in E.
  assert (2 ^ m < 2 ^ n) by (apply Z.pow_lt_mono_r; lia). lia.
Qed.

(** C4, on the range where the product is a finite double.  For an attempt
    number [n] from 1 to 1016 the delay is [250 * 2^n] milliseconds, 500
    after attempt 1; it grows strictly with the attempt number on that
    range; and when [retryIfPossible] retries an attempt numbered [n] it
    sets exactly one timer, for the retry with the budget reduced by one,
    with that delay. *)
Theorem backoff_exponential (n : Z) (Hlo : 1 <= n) (Hhi : n <= 1016) :
  backoff n = JsNum.ofZ (250 * 2 ^ n)
  /\ backoff 1 = JsNum.ofZ 500
  /\ (forall m, 1 <= m -> m < n -> JsNum.lt (backoff m) (backoff n) = true)
  /\ (forall w k a cause res,
         World.attempts w !! k = Some a ->
         Attempt.attempt a = n ->
         retriesOf a <> 0 ->
         isRetryableOf a (Attempt.xhr a) cause res = true ->
         World.timers (retryIfPossible k cause res w)
         = World.timers w
           ++ [Timer.mk
                 (DoRetry k (HttpRequestOptions.withRetries (retriesOf a - 1) (Attempt.params a)))
                 (JsNum.ofZ (250 * 2 ^ n)) false]).
Proof.
  split; [apply backoff_eq; lia |].
  split; [apply (backoff_eq 1); lia |].
  split; [intros m Hm Hmn; apply backoff_lt; lia |].
  intros w k a cause res Ha Hatt Hr Hpol.
  unfold retryIfPossible. rewrite Ha. cbn zeta.
  rewrite Hpol. apply Z.eqb_neq in Hr. rewrite Hr. cbn [negb].
  cbn [setTimeout World.setTimers World.timers]. rewrite Hatt, backoff_eq by lia.
  reflexivity.
Qed.

(** An attempt numbered 3 that fails with a transport error and has a retry
    left: the retry is due after two seconds. *)
Lemma backoff_exponential_witness :
  backoff 3 = JsNum.ofZ 2000
  /\ map Timer.delay (World.timers (retryIfPossible 0 XhrFailures.Error None (postedAs 1 3)))
     = [JsNum.ofZ 2000].
Proof.
  destruct (backoff_exponential 3) as (Hb & _ & _ & Ht); [lia | lia |].
  split; [exact Hb |].
  destruct (World.attempts (postedAs 1 3) !! 0%nat) as [a |] eqn:Ha;
    [| vm_compute in Ha; discriminate].
  rewrite (Ht (postedAs 1 3) 0%nat a XhrFailures.Error None Ha).
  - reflexivity.
  - vm_compute in Ha. injection Ha as <-. reflexivity.
  - vm_compute in Ha. injection Ha as <-. discriminate.
  - vm_compute in Ha. injection Ha as <-. reflexivity.
Defined.

(** C4, as the specification states it for every [n >= 1], fails on doubles:
    [2 ** 1017 * 250] is more than the largest double, so from attempt 1017
    on the delay is [Infinity] and no longer grows. *)
Lemma backoff_overflows :
  backoff 1017 = JsNum.PosInfinity
  /\ backoff 1017 <> JsNum.ofZ (250 * 2 ^ 1017)
  /\ backoff 1018 = JsNum.PosInfinity
  /\ JsNum.lt (backoff 1017) (backoff 1018) = false.
Proof.
  rewrite !backoff_overflow by lia. repeat split. discriminate.
Qed.

(* ================================================================== *)
(** * The request-id counter                                           *)
(* ================================================================== *)

Lemma allocateRequestId_id c : (allocateRequestId c).1 = c.
Proof. reflexivity. Qed.

Lemma allocateRequestId_next c :
  (allocateRequestId c).2 = if MAX_SAFE_INTEGER <=? c then 1 else c + 1.
Proof. reflexivity. Qed.

(** Below the ceiling the counter just counts. *)
Lemma counterAfter_below (n : N) (c : Z) :
  c + Z.of_N n <= MAX_SAFE_INTEGER -> counterAfter n c = c + Z.of_N n.
Proof.
  unfold counterAfter. induction n as [| n IH] using N.peano_ind; intros Hc.
  - cbn. lia.
  - rewrite N.iter_succ, IH by lia.
    rewrite allocateRequestId_next.
    destruct (Z.leb_spec MAX_SAFE_INTEGER (c + Z.of_N n)); lia.
Qed.

(** The [_makeRequest] bookkeeping: where the new attempt is, which id it
    got, and what became of the counter. *)
Lemma _makeRequest_index this method path params attempt w :
  (_makeRequest this method path params attempt w).1 = length (World.attempts w).
Proof. reflexivity. Qed.

Lemma _makeRequest_nextRequestId this method path params attempt w :
  World.nextRequestId (_makeRequest this method path params attempt w).2
  = (allocateRequestId (World.nextRequestId w)).2.
Proof. reflexivity. Qed.

Lemma _makeRequest_timers this method path params attempt w :
  World.timers (_makeRequest this method path params attempt w).2 = World.timers w.
Proof. reflexivity. Qed.

Lemma _makeRequest_settleLog this method path params attempt w :
  World.settleLog (_makeRequest this method path params attempt w).2 = World.settleLog w.
Proof. reflexivity. Qed.

Lemma _makeRequest_attempts this method path params attempt w :
  exists a,
    World.attempts (_makeRequest this method path params attempt w).2
    = World.attempts w ++ [a]
    /\ Attempt.this a = this
    /\ Attempt.requestId a = World.nextRequestId w
    /\ Attempt.attempt a = attempt
    /\ Attempt.method a = method
    /\ Attempt.path a = path
    /\ Attempt.params a = params
    /\ Attempt.xhr a = newTransport this method path params (length (World.attempts w))
    /\ Attempt.outcome a = Outcome.None
    /\ Attempt.promise a = Pending
    /\ Attempt.forwardTo a = [].
Proof. eexists. split; [reflexivity |]. repeat split. Qed.

(** C9, as the code has it.  A call of [_makeRequest] hands the new attempt
    the current value of the counter; below [Number.MAX_SAFE_INTEGER] the
    counter then grows by one, so consecutive ids increase strictly; when the
    id handed out is the ceiling itself the counter goes back to 1.  The
    counter and the ids stay between 1 and the ceiling. *)
Theorem requestId_allocation this method path params attempt w
    (Hc : 1 <= World.nextRequestId w <= MAX_SAFE_INTEGER) :
  let r := _makeRequest this method path params attempt w in
  Attempt.requestId <$> World.attempts r.2 !! r.1 = Some (World.nextRequestId w)
  /\ (World.nextRequestId w < MAX_SAFE_INTEGER ->
      World.nextRequestId r.2 = World.nextRequestId w + 1)
  /\ (World.nextRequestId w = MAX_SAFE_INTEGER -> World.nextRequestId r.2 = 1)
  /\ 1 <= World.nextRequestId r.2 <= MAX_SAFE_INTEGER.
Proof.
  intros r. subst r.
  destruct (_makeRequest_attempts this method path params attempt w)
    as (a & Hatts & _ & Hid & _).
  rewrite _makeRequest_index, _makeRequest_nextRequestId, allocateRequestId_next, Hatts.
  split.
  - rewrite lookup_app_r by lia. rewrite Nat.sub_diag. cbn. by rewrite Hid.
  - destruct (Z.leb_spec MAX_SAFE_INTEGER (World.nextRequestId w)); lia.
Qed.

Lemma requestId_allocation_witness :
  let r := _makeRequest
             (HttpClient.new (HttpClientParams.mk "localhost" 8080 false None None None None None))
             "GET" "/"
             (HttpRequestOptions.mk None None None None None None None) 1 World.initial in
  Attempt.requestId <$> World.attempts r.2 !! r.1 = Some 1
  /\ World.nextRequestId r.2 = 2.
Proof.
  pose proof (requestId_allocation
    (HttpClient.new (HttpClientParams.mk "localhost" 8080 false None None None None None))
    "GET" "/" (HttpRequestOptions.mk None None None None None None None) 1 World.initial)
    as H.
  cbn zeta in H.
  destruct H as (H1 & H2 & _); [cbn; unfold MAX_SAFE_INTEGER; lia |].
  split; [exact H1 | apply H2; cbn; unfold MAX_SAFE_INTEGER; lia].
Defined.

Lemma MAX_SAFE_INTEGER_gt_1 : 1 < MAX_SAFE_INTEGER.
Proof. reflexivity. Qed.

Lemma idAfter_below (n : N) (c : Z) :
  c + Z.of_N n <= MAX_SAFE_INTEGER -> idAfter n c = c + Z.of_N n.
Proof.
  intros H. unfold idAfter. rewrite allocateRequestId_id. by apply counterAfter_below.
Qed.

(** C9, as the specification states it, fails: the call number [MAX_SAFE_INTEGER] of a
    page is handed the ceiling itself as its id, the wrap comes after. *)
Lemma requestId_reaches_ceiling :
  ~ (forall n, idAfter n 1 < MAX_SAFE_INTEGER).
Proof.
  pose proof MAX_SAFE_INTEGER_gt_1 as Hmax.
  intros H.
  pose proof (H (Z.to_N (MAX_SAFE_INTEGER - 1))) as Hn.
  pose proof (idAfter_below (Z.to_N (MAX_SAFE_INTEGER - 1)) 1) as Heq.
  pose proof (Z2N.id (MAX_SAFE_INTEGER - 1)) as Hid.
  generalize dependent (idAfter (Z.to_N (MAX_SAFE_INTEGER - 1)) 1).
  generalize dependent (Z.of_N (Z.to_N (MAX_SAFE_INTEGER - 1))).
  generalize dependent MAX_SAFE_INTEGER.
  intros. lia.
Qed.

(* ================================================================== *)
(** * Response headers                                                 *)
(* ================================================================== *)

Lemma lowerChar_idempotent c : JsString.lowerChar (JsString.lowerChar c) = JsString.lowerChar c.
Proof. destruct c as [[] [] [] [] [] [] [] []]; reflexivity. Qed.

Lemma toLowerCase_idempotent s :
  JsString.toLowerCase (JsString.toLowerCase s) = JsString.toLowerCase s.
Proof.
  induction s as [| c s IH]; cbn; [reflexivity |].
  by rewrite lowerChar_idempotent, IH.
Qed.

Lemma addHeader_headers res header :
  Response.headers (addHeader res header)
  = setProperty (JsString.toLowerCase (headerPair header).1) (headerPair header).2
      (Response.headers res).
Proof. unfold addHeader. destruct (headerPair header). reflexivity. Qed.

Lemma addHeader_rawHeaders res header :
  Response.rawHeaders (addHeader res header) = Response.rawHeaders res ++ [headerPair header].
Proof. unfold addHeader. destruct (headerPair header). reflexivity. Qed.

(** The raw list grows by one pair per line, in the order of the lines. *)
Lemma foldl_addHeader_rawHeaders lines res :
  Response.rawHeaders (foldl addHeader res lines)
  = Response.rawHeaders res ++ map headerPair lines.
Proof.
  revert res. induction lines as [| h lines IH]; intros res; cbn [foldl map].
  - by rewrite app_nil_r.
  - rewrite IH, addHeader_rawHeaders, <- app_assoc. reflexivity.
Qed.

(** The map holds, for each key but [__proto__], the last value written
    under it. *)
Lemma foldl_addHeader_headers lines res key :
  key <> "__proto__" ->
  Response.headers (foldl addHeader res lines) !! key
  = match lastValue key (map headerPair lines) with
    | Some v => Some v
    | None => Response.headers res !! key
    end.
Proof.
  intros Hkey.
  revert res. induction lines as [| h lines IH]; intros res; cbn [foldl map lastValue];
    [reflexivity |].
  rewrite IH, addHeader_headers.
  destruct (headerPair h) as [name value]; cbn [fst snd].
  destruct (lastValue key (map headerPair lines)); [reflexivity |].
  unfold setProperty.
  destruct (String.eqb_spec (JsString.toLowerCase name) key) as [-> | Hne].
  - destruct (String.eqb_spec key "__proto__") as [-> | _]; [done |].
    by rewrite lookup_insert_eq.
  - destruct (String.eqb_spec (JsString.toLowerCase name) "__proto__") as [_ | _];
      [reflexivity | by rewrite lookup_insert_ne].
Qed.

(** Nothing is ever stored under [__proto__]. *)
Lemma foldl_addHeader_proto lines res :
  Response.headers (foldl addHeader res lines) !! "__proto__"
  = Response.headers res !! "__proto__".
Proof.
  revert res. induction lines as [| h lines IH]; intros res; cbn [foldl]; [reflexivity |].
  rewrite IH, addHeader_headers. unfold setProperty.
  destruct (String.eqb_spec (JsString.toLowerCase (headerPair h).1) "__proto__") as [_ | Hne];
    [reflexivity | by rewrite lookup_insert_ne].
Qed.

Lemma lastValue_lower key raw value :
  lastValue key raw = Some value -> JsString.toLowerCase key = key.
Proof.
  revert value. induction raw as [| [n v] raw IH]; intros value; cbn; [discriminate |].
  destruct (lastValue key raw) eqn:E; [intros _; by eapply IH |].
  destruct (String.eqb_spec (JsString.toLowerCase n) key) as [<- | _]; [| discriminate].
  intros _. apply toLowerCase_idempotent.
Qed.

Lemma buildResponse_headers rt xhr :
  Response.headers (buildResponse rt xhr)
  = Response.headers
      (foldl addHeader
         (Response.mk xhr (XhrView.status (XMLHttpRequest.view xhr)) ∅ []
            (if truthyData (XhrView.response (XMLHttpRequest.view xhr))
             then default (DString (XhrView.responseText (XMLHttpRequest.view xhr)))
                    (XhrView.response (XMLHttpRequest.view xhr))
             else DString (XhrView.responseText (XMLHttpRequest.view xhr))) None)
         (JsString.splitCRLF
            (JsString.trim (XhrView.allResponseHeaders (XMLHttpRequest.view xhr))))).
Proof.
  unfold buildResponse, parseHeaders. cbn zeta.
  case_if; [| reflexivity]. destruct (Runtime.JSON_parse _ _); reflexivity.
Qed.

Lemma buildResponse_rawHeaders rt xhr :
  Response.rawHeaders (buildResponse rt xhr)
  = map headerPair
      (JsString.splitCRLF
         (JsString.trim (XhrView.allResponseHeaders (XMLHttpRequest.view xhr)))).
Proof.
  unfold buildResponse, parseHeaders. cbn zeta.
  case_if; [destruct (Runtime.JSON_parse _ _) |];
    cbn; by rewrite foldl_addHeader_rawHeaders.
Qed.

Lemma buildResponse_statusCode rt xhr :
  Response.statusCode (buildResponse rt xhr) = XhrView.status (XMLHttpRequest.view xhr).
Proof.
  unfold buildResponse, parseHeaders. cbn zeta.
  assert (forall lines res,
             Response.statusCode (foldl addHeader res lines) = Response.statusCode res) as H.
  { induction lines as [| h lines IH]; intros res; cbn [foldl]; [reflexivity |].
    rewrite IH. unfold addHeader. by destruct (headerPair h). }
  case_if; [destruct (Runtime.JSON_parse _ _) |]; cbn; by rewrite H.
Qed.

(** C7, for every header name but [__proto__].  For the blob of the example
    the response built by [onDone] has the header map content-type ->
    application/json, x-foo -> bar and the raw list (Content-Type,
    application/json), (X-Foo, bar).  For every blob the raw list holds one
    (name, value) pair per CR LF separated line, in the order of the lines,
    names as written and duplicates kept; the map holds under each key other
    than [__proto__] the value of the last line whose lower-cased name is
    that key; and every key of the map is lower-case. *)
Theorem response_headers_parsed rt handle responseType timeout calls :
  (forall readyState status response responseText,
      let xhr := XMLHttpRequest.mk handle responseType timeout calls
                   (XhrView.mk readyState status response responseText exampleHeaderBlob) in
      Response.headers (buildResponse rt xhr)
      = <["content-type" := "application/json"]> (<["x-foo" := "bar"]> ∅)
      /\ Response.rawHeaders (buildResponse rt xhr)
         = [("Content-Type", "application/json"); ("X-Foo", "bar")])
  /\ (forall view,
         let xhr := XMLHttpRequest.mk handle responseType timeout calls view in
         let res := buildResponse rt xhr in
         Response.rawHeaders res
         = map headerPair
             (JsString.splitCRLF (JsString.trim (XhrView.allResponseHeaders view)))
         /\ (forall key,
                key <> "__proto__" ->
                Response.headers res !! key = lastValue key (Response.rawHeaders res))
         /\ (forall key value,
                Response.headers res !! key = Some value -> JsString.toLowerCase key = key)).
Proof.
  split.
  - intros readyState status response responseText xhr. split.
    + rewrite buildResponse_headers. reflexivity.
    + rewrite buildResponse_rawHeaders. reflexivity.
  - intros view xhr res.
    assert (forall key,
               key <> "__proto__" ->
               Response.headers res !! key = lastValue key (Response.rawHeaders res))
      as Hlast.
    { intros key Hkey. subst res. rewrite buildResponse_headers, buildResponse_rawHeaders.
      rewrite foldl_addHeader_headers by exact Hkey. cbn.
      by destruct (lastValue key _). }
    split; [apply buildResponse_rawHeaders |].
    split; [exact Hlast |].
    intros key value Hv.
    destruct (String.eqb_spec key "__proto__") as [-> | Hkey]; [reflexivity |].
    rewrite Hlast in Hv by exact Hkey. by eapply lastValue_lower.
Qed.

(** C7, as the specification states it for every blob, fails for a header
    named [__proto__]: the line is kept in the raw list, but the assignment
    to [res.headers] stores nothing, so the map has no entry for it. *)
Lemma proto_header_not_stored :
  let rt := Runtime.mk (fun _ => None) in
  let xhr :=
    XMLHttpRequest.setView
      (XhrView.mk ReadyState.Done 200 None "ok"
         ("X-Foo: bar" +:+ JsString.CRLF +:+ "__proto__: polluted" +:+ JsString.CRLF))
      (XMLHttpRequest.new 0) in
  let res := buildResponse rt xhr in
  Response.rawHeaders res = [("X-Foo", "bar"); ("__proto__", "polluted")]
  /\ lastValue "__proto__" (Response.rawHeaders res) = Some "polluted"
  /\ Response.headers res !! "__proto__" = None
  /\ Response.headers res = <["x-foo" := "bar"]> ∅.
Proof. vm_compute. repeat split. Qed.

(* ================================================================== *)
(** * formatDuration                                                   *)
(* ================================================================== *)

Lemma ToInt32_small z : - 2 ^ 31 <= z < 2 ^ 31 -> JsNumber.ToInt32 z = z.
Proof.
  intros H. unfold JsNumber.ToInt32.
  rewrite Z.mod_small; lia.
Qed.

Lemma truncate_nonneg (x : Q) : (0 <= x)%Q -> JsNumber.truncate x = Qfloor x.
Proof.
  destruct x as [a b]. unfold Qle, JsNumber.truncate, Qfloor. cbn. intros H.
  apply Z.quot_div_nonneg; lia.
Qed.

Lemma truncate_inject_div (x y : Z) :
  0 <= x -> 0 < y -> JsNumber.truncate (inject_Z x / inject_Z y)%Q = x / y.
Proof.
  intros Hx Hy. destruct y as [| p | p]; try lia.
  unfold JsNumber.truncate, Qdiv, Qmult, Qinv, inject_Z. cbn.
  rewrite Z.mul_1_r. apply Z.quot_div_nonneg; lia.
Qed.

Lemma bitOr0_inject_div (x y : Z) :
  0 <= x < 2 ^ 31 -> 0 < y -> JsNumber.bitOr0 (inject_Z x / inject_Z y)%Q = x / y.
Proof.
  intros Hx Hy. unfold JsNumber.bitOr0.
  rewrite truncate_inject_div by lia.
  apply ToInt32_small.
  assert (0 <= x / y) by (apply Z.div_pos; lia).
  assert (x / y <= x) by (apply Z.div_le_upper_bound; nia).
  lia.
Qed.

Lemma bitOr0_inject (x : Z) : - 2 ^ 31 <= x < 2 ^ 31 -> JsNumber.bitOr0 (inject_Z x) = x.
Proof.
  intros Hx. unfold JsNumber.bitOr0, JsNumber.truncate, inject_Z. cbn.
  rewrite Z.quot_1_r. by apply ToInt32_small.
Qed.

(** Below 2^31 milliseconds [d | 0] is the integral part of [d]. *)
Lemma bitOr0_small (d : Q) :
  (0 <= d)%Q -> (d < inject_Z (2 ^ 31))%Q ->
  JsNumber.bitOr0 d = Qfloor d /\ 0 <= Qfloor d < 2 ^ 31.
Proof.
  intros H0 H1.
  assert (0 <= Qfloor d < 2 ^ 31) as Hr.
  { split.
    - change 0 with (Qfloor (inject_Z 0)). by apply Qfloor_resp_le.
    - apply Z.le_lt_trans with (m := Qfloor d); [lia |].
      rewrite Zlt_Qlt. eapply Qle_lt_trans; [apply Qfloor_le | exact H1]. }
  split; [| exact Hr].
  unfold JsNumber.bitOr0. rewrite truncate_nonneg by exact H0.
  apply ToInt32_small. lia.
Qed.

(** Dividing by 1000 and truncating commute with taking the integral part. *)
Lemma wholeSeconds_floor (d : Q) :
  (0 <= d)%Q -> Spec.wholeSeconds d = Qfloor d / 1000.
Proof.
  intros H0. unfold Spec.wholeSeconds.
  destruct d as [a b]. unfold Qle in H0. cbn in H0.
  unfold JsNumber.truncate, Qdiv, Qmult, Qinv, inject_Z, Qfloor. cbn.
  rewrite Z.mul_1_r, Z.quot_div_nonneg by lia.
  rewrite Pos2Z.inj_mul, Z.div_div by lia. reflexivity.
Qed.

(** What the source computes for the whole seconds, below 2^31 ms. *)
Lemma wholeSeconds_model (d : Q) :
  (0 <= d)%Q -> (d < inject_Z (2 ^ 31))%Q ->
  JsNumber.bitOr0 (inject_Z (JsNumber.bitOr0 d) / inject_Z 1000)%Q = Spec.wholeSeconds d
  /\ 0 <= Spec.wholeSeconds d < 2147484.
Proof.
  intros H0 H1. destruct (bitOr0_small d H0 H1) as [-> Hr].
  rewrite bitOr0_inject_div, wholeSeconds_floor by (try exact H0; lia).
  split; [reflexivity |].
  split; [apply Z.div_pos; lia |].
  apply Z.div_lt_upper_bound; lia.
Qed.

(** What is left below the whole seconds is less than a second. *)
Lemma remainder_below_second (d : Q) :
  (0 <= d)%Q ->
  (0 <= d - inject_Z (Spec.wholeSeconds d * 1000))%Q
  /\ (d - inject_Z (Spec.wholeSeconds d * 1000) < 1000)%Q.
Proof.
  intros H0. rewrite wholeSeconds_floor by exact H0.
  pose proof (Qfloor_le d) as Hle. pose proof (Qlt_floor d) as Hlt.
  assert (0 <= Qfloor d) as Hf.
  { change 0 with (Qfloor (inject_Z 0)). by apply Qfloor_resp_le. }
  pose proof (Z.mod_pos_bound (Qfloor d) 1000 ltac:(lia)) as Hm.
  pose proof (Z.div_mod (Qfloor d) 1000 ltac:(lia)) as Hdm.
  assert (inject_Z (Qfloor d / 1000 * 1000) = inject_Z (Qfloor d - Qfloor d mod 1000)) as ->
      by (f_equal; lia).
  rewrite inject_Z_plus in Hlt. change (inject_Z 1) with 1%Q in Hlt.
  unfold Zminus. rewrite inject_Z_plus, inject_Z_opp.
  assert (0 <= inject_Z (Qfloor d mod 1000))%Q as Hm0
      by (change 0%Q with (inject_Z 0); rewrite <- Zle_Qle; lia).
  assert (inject_Z (Qfloor d mod 1000) <= 999)%Q as Hm1
      by (change 999%Q with (inject_Z 999); rewrite <- Zle_Qle; lia).
  split; lra.
Qed.

(** C10, as the code has it.  For a duration of at least 0 and less than
    2^31 milliseconds [formatDuration] takes the whole seconds by truncation
    of [d / 1000], which leaves a rest of at least 0 and less than 1000,
    prints the rest to 6 significant digits followed by ms, and prints that
    alone below one second, sec ms below one minute,
    min sec ms below one hour, and from one hour on hr min sec ms, the units
    obtained by integer division and modulo over 3600 and 60. *)
Theorem formatDuration_spec (d : Q)
    (H0 : (0 <= d)%Q) (H1 : (d < inject_Z (2 ^ 31))%Q) :
  formatDuration d = Spec.formatDurationHr d
  /\ Spec.wholeSeconds d = Qfloor d / 1000
  /\ (0 <= d - inject_Z (Spec.wholeSeconds d * 1000))%Q
  /\ (d - inject_Z (Spec.wholeSeconds d * 1000) < 1000)%Q.
Proof.
  split; [| split; [by apply wholeSeconds_floor | by apply remainder_below_second]].
  destruct (wholeSeconds_model d H0 H1) as [Hws Hr].
  unfold formatDuration, Spec.formatDurationHr, Spec.formatDurationWith, Spec.milliseconds.
  cbn zeta. rewrite Hws.
  set (sec := Spec.wholeSeconds d) in *.
  unfold oneMinute, oneHour, JsNumber.remainder.
  change (60 * 60) with 3600.
  assert (0 <= sec mod 3600 < 3600) by (apply Z.mod_pos_bound; lia).
  assert (0 <= sec mod 3600 mod 60 < 60) by (apply Z.mod_pos_bound; lia).
  rewrite !Z.rem_mod_nonneg by lia.
  rewrite !bitOr0_inject_div by lia.
  rewrite bitOr0_inject by lia.
  reflexivity.
Qed.

(** One hour, two minutes, three seconds and four milliseconds. *)
Lemma formatDuration_spec_witness :
  formatDuration (inject_Z 3723004) = "1hr 2min 3sec 4.00000ms".
Proof.
  destruct (formatDuration_spec (inject_Z 3723004)) as [-> _].
  - unfold Qle. cbn. lia.
  - unfold Qlt. cbn. lia.
  - vm_compute. reflexivity.
Defined.

(** C10, as the specification states it, fails from one hour on: the source prints the
    units hr, min and sec there, the specification min, sec and sec. *)
Lemma formatDuration_hour_units :
  (0 <= inject_Z 3723004)%Q
  /\ formatDuration (inject_Z 3723004) = "1hr 2min 3sec 4.00000ms"
  /\ Spec.formatDuration (inject_Z 3723004) = "1min 2sec 3sec 4.00000ms"
  /\ formatDuration (inject_Z 3723004) <> Spec.formatDuration (inject_Z 3723004).
Proof.
  split; [unfold Qle; cbn; lia |].
  split; [vm_compute; reflexivity |].
  split; [vm_compute; reflexivity |].
  vm_compute. discriminate.
Qed.

(* ================================================================== *)
(** * Six significant digits                                           *)
(* ================================================================== *)

Lemma pow10_pos k : (0 < JsNumber.pow10 k)%Q.
Proof. apply Qpower_0_lt. reflexivity. Qed.

Lemma pow10_succ k : (JsNumber.pow10 (k + 1) == 10 * JsNumber.pow10 k)%Q.
Proof.
  unfold JsNumber.pow10. rewrite Qpower_plus by discriminate.
  rewrite Qpower_1_r. change (inject_Z 10) with 10%Q. ring.
Qed.

Lemma pow10_le k m : k <= m -> (JsNumber.pow10 k <= JsNumber.pow10 m)%Q.
Proof. intros H. apply Qpower_le_compat_l; [exact H | discriminate]. Qed.

Lemma pow10_inject n : 0 <= n -> (JsNumber.pow10 n == inject_Z (10 ^ n))%Q.
Proof. intros H. unfold JsNumber.pow10. by rewrite Zpower_Qpower. Qed.

Lemma pow_2_le_10 n : 0 <= n -> 2 ^ n <= 10 ^ n.
Proof. intros H. apply Z.pow_le_mono_l. lia. Qed.

(** The search stops at the decimal exponent when it starts below it and
    has fuel to reach it. *)
Lemma searchExponent_spec (x : Q) (fuel : nat) (e : Z) :
  (JsNumber.pow10 e <= x)%Q ->
  (x < JsNumber.pow10 (e + Z.of_nat fuel))%Q ->
  (JsNumber.pow10 (JsNumber.searchExponent fuel x e) <= x)%Q
  /\ (x < JsNumber.pow10 (JsNumber.searchExponent fuel x e + 1))%Q.
Proof.
  revert e. induction fuel as [| fuel IH]; intros e Hlo Hhi.
  - rewrite Z.add_0_r in Hhi. exfalso. eapply Qlt_irrefl, Qle_lt_trans; eassumption.
  - cbn [JsNumber.searchExponent].
    destruct (Qle_bool (JsNumber.pow10 (e + 1)) x) eqn:E.
    + apply IH; [by apply Qle_bool_iff |].
      replace (e + 1 + Z.of_nat fuel) with (e + Z.of_nat (S fuel)) by lia. exact Hhi.
    + split; [exact Hlo |]. apply Qnot_le_lt. intros H.
      apply Qle_bool_iff in H. congruence.
Qed.

Lemma exponent10_spec (x : Q) :
  (0 < x)%Q ->
  (JsNumber.pow10 (JsNumber.exponent10 x) <= x)%Q
  /\ (x < JsNumber.pow10 (JsNumber.exponent10 x + 1))%Q.
Proof.
  intros Hx. unfold JsNumber.exponent10.
  destruct x as [a b]. cbn [Qnum Qden].
  assert (0 < a) as Ha by (unfold Qlt in Hx; cbn in Hx; lia).
  set (n := Z.log2 (Z.pos b) + 1).
  set (h := Z.log2 a + 1).
  assert (0 <= Z.log2 (Z.pos b)) as Hlb by apply Z.log2_nonneg.
  assert (0 <= Z.log2 a) as Hla by apply Z.log2_nonneg.
  assert (Z.pos b < 10 ^ n) as Hb.
  { pose proof (Z.log2_spec (Z.pos b) ltac:(lia)) as [_ H].
    pose proof (pow_2_le_10 n ltac:(lia)). unfold n in *. rewrite <- Z.add_1_r in H. lia. }
  assert (a < 10 ^ h) as Hah.
  { pose proof (Z.log2_spec a Ha) as [_ H].
    pose proof (pow_2_le_10 h ltac:(lia)). unfold h in *. rewrite <- Z.add_1_r in H. lia. }
  apply searchExponent_spec.
  - unfold JsNumber.pow10. rewrite Qpower_opp. fold (JsNumber.pow10 n).
    apply Qle_shift_inv_r; [apply pow10_pos |].
    rewrite pow10_inject by lia.
    unfold Qle, Qmult, inject_Z. cbn. nia.
  - replace (- n + Z.of_nat (Z.to_nat (h - - n))) with h by lia.
    rewrite pow10_inject by lia.
    unfold Qlt, inject_Z. cbn. nia.
Qed.

Lemma roundHalfUp_spec (x : Q) :
  (inject_Z (JsNumber.roundHalfUp x) - (1 # 2) <= x)%Q
  /\ (x < inject_Z (JsNumber.roundHalfUp x) + (1 # 2))%Q.
Proof.
  unfold JsNumber.roundHalfUp.
  pose proof (Qfloor_le (x + (1 # 2))) as H1.
  pose proof (Qlt_floor (x + (1 # 2))) as H2.
  rewrite inject_Z_plus in H2. change (inject_Z 1) with 1%Q in H2.
  split; lra.
Qed.

(** [toPrecision(p)] keeps [p] significant digits: the digits [n] it prints
    for [x > 0] have exactly [p] places, and [n * 10^(e-p+1)] is [x] up to
    half a unit of the last place. *)
Lemma significand_spec (p : Z) (x : Q) :
  1 <= p -> (0 < x)%Q ->
  let n := (JsNumber.significand p x).1 in
  let e := (JsNumber.significand p x).2 in
  10 ^ (p - 1) <= n < 10 ^ p
  /\ (Qabs (x - inject_Z n * JsNumber.pow10 (e - p + 1))
      <= (1 # 2) * JsNumber.pow10 (e - p + 1))%Q.
Proof.
  intros Hp Hx.
  destruct (exponent10_spec x Hx) as [Hlo Hhi].
  unfold JsNumber.significand.
  set (e0 := JsNumber.exponent10 x) in *.
  set (u := JsNumber.pow10 (e0 - p + 1)).
  assert (0 < u)%Q as Hu by apply pow10_pos.
  assert (JsNumber.pow10 e0 == inject_Z (10 ^ (p - 1)) * u)%Q as He0.
  { unfold u, JsNumber.pow10. rewrite Zpower_Qpower by lia.
    rewrite <- Qpower_plus by discriminate. by replace (p - 1 + (e0 - p + 1)) with e0 by lia. }
  assert (JsNumber.pow10 (e0 + 1) == inject_Z (10 ^ p) * u)%Q as He1.
  { unfold u, JsNumber.pow10. rewrite Zpower_Qpower by lia.
    rewrite <- Qpower_plus by discriminate. by replace (p + (e0 - p + 1)) with (e0 + 1) by lia. }
  set (s := (x / u)%Q).
  assert (x == s * u)%Q as Hxs by (unfold s; field; lra).
  assert (inject_Z (10 ^ (p - 1)) <= s)%Q as Hs1.
  { apply Qle_shift_div_l; [exact Hu |]. by rewrite <- He0. }
  assert (s < inject_Z (10 ^ p))%Q as Hs2.
  { apply Qlt_shift_div_r; [exact Hu |]. by rewrite <- He1. }
  destruct (roundHalfUp_spec s) as [Hr1 Hr2].
  set (n0 := JsNumber.roundHalfUp s) in *.
  assert (10 ^ (p - 1) <= n0 <= 10 ^ p) as Hn0.
  { split.
    - apply Z.lt_succ_r. rewrite Zlt_Qlt, <- Z.add_1_r, inject_Z_plus.
      change (inject_Z 1) with 1%Q. lra.
    - apply Z.lt_succ_r. rewrite Zlt_Qlt, <- Z.add_1_r, inject_Z_plus.
      change (inject_Z 1) with 1%Q. lra. }
  assert (Qabs (x - inject_Z n0 * u) <= (1 # 2) * u)%Q as Hclose.
  { apply Qabs_Qle_condition. rewrite Hxs. split; nra. }
  destruct (Z.eqb_spec n0 (10 ^ p)) as [Heq | Hne]; cbn [fst snd].
  - assert (0 < 10 ^ (p - 1)) by (apply Z.pow_pos_nonneg; lia).
    assert (10 ^ p = 10 * 10 ^ (p - 1)) as H10.
    { replace p with (p - 1 + 1) at 1 by lia. rewrite Z.pow_add_r by lia. lia. }
    split; [lia |].
    replace (e0 + 1 - p + 1) with (e0 - p + 1 + 1) by lia.
    rewrite pow10_succ. fold u.
    rewrite Heq, H10, inject_Z_mult in Hclose. change (inject_Z 10) with 10%Q in Hclose.
    apply Qabs_Qle_condition in Hclose. apply Qabs_Qle_condition. split; nra.
  - split; [lia | exact Hclose].
Qed.

(* ================================================================== *)
(** * The latch and the attempt number on concrete runs                *)
(* ================================================================== *)

(** C1, on the code.  The transport of a posted request reaches Done with
    status 200 and then dispatches [error]; the 10 ms timer then runs
    [onDone].  The error handler rejects and leaves the latch at None, so
    [onDone] is not a no-op: it resolves as well.  With a retry budget of 1
    and the status 0 of a network failure, the error handler schedules the
    retry, [onDone] fulfils the caller's promise with the status 0 response,
    and the retry is still made afterwards. *)
Theorem error_leaves_latch_open rt :
  let w1 := run rt (posted 0) [ReadyStateChange 0 (doneView 200); ErrorEvent 0] in
  let w2 := step rt w1 (TimerFired 0) in
  let v1 := run rt (posted 1) [ReadyStateChange 0 (doneView 0); ErrorEvent 0] in
  let v2 := step rt v1 (TimerFired 0) in
  let v3 := step rt v2 (TimerFired 1) in
  (settleCalls w1 = [(0%nat, Rejected_)]
   /\ outcomeOf 0 w1 = Some Outcome.None
   /\ settleCalls w2 = [(0%nat, Rejected_); (0%nat, Resolved)])
  /\ (map Timer.delay (World.timers v1) = [JsNum.ofZ 10; JsNum.ofZ 500]
      /\ outcomeOf 0 v1 = Some Outcome.None
      /\ fulfilledStatus (promiseOf 0 v2) = Some 0
      /\ length (World.attempts v3) = 2%nat).
Proof. vm_compute. repeat split. Qed.

(** C2, on the code.  With a budget of 2 and a transport error on every
    attempt, the three attempts carry the budgets 2, 1 and 0 but all carry
    the attempt number 1, and both retries wait 500 ms. *)
Theorem retry_keeps_attempt_number rt :
  let w := run rt (posted 2) [ErrorEvent 0; TimerFired 0; ErrorEvent 1; TimerFired 1] in
  map Attempt.attempt (World.attempts w) = [1; 1; 1]
  /\ map retriesOf (World.attempts w) = [2; 1; 0]
  /\ map Attempt.requestId (World.attempts w) = [1; 2; 3]
  /\ map Timer.delay (World.timers w) = [JsNum.ofZ 500; JsNum.ofZ 500].
Proof. vm_compute. repeat split. Qed.

(** C6, as the specification states it, fails twice.  A request answered
    with status 500 and no retry budget is rejected with the cause [Status],
    and no field of the rejection value holds the response.  And a cause can
    fail to reach the caller: when a network failure is reported as a
    browser does (Done with status 0, then [error]) and the budget is 1, the
    retry gives up with the cause [Error], but the caller's promise has been
    fulfilled with the status 0 response by then and stays so. *)
Lemma status_rejection_without_response :
  let rt := Runtime.mk (fun _ => None) in
  let w := run rt (posted 0) [ReadyStateChange 0 (doneView 500); TimerFired 0] in
  let v := run rt (posted 1)
             [ReadyStateChange 0 failedView; ErrorEvent 0; TimerFired 0; TimerFired 1;
              ReadyStateChange 1 failedView; ErrorEvent 1; TimerFired 2] in
  (exists reason,
      promiseOf 0 w = Some (Rejected reason)
      /\ causeOf reason = Some XhrFailures.Status
      /\ carriesResponse reason = false)
  /\ (rejectedCause (promiseOf 1 v) = Some XhrFailures.Error
      /\ rejectedCause (promiseOf 0 v) = None
      /\ fulfilledStatus (promiseOf 0 v) = Some 0).
Proof. split; [eexists |]; vm_compute; repeat split. Qed.

(* ================================================================== *)
(** * Frame lemmas of the executor                                     *)
(* ================================================================== *)

Lemma map_alter_same {A B} (g : A -> B) (f : A -> A) (j : nat) (l : list A) :
  (forall a, g (f a) = g a) -> map g (alter f j l) = map g l.
Proof.
  intros Hg. revert j. induction l as [| x l IH]; intros [| j]; cbn; try reflexivity.
  - by rewrite Hg.
  - by rewrite IH.
Qed.

Lemma lookup_alter_same {A B} (g : A -> B) (f : A -> A) (j k : nat) (l : list A) :
  (forall a, g (f a) = g a) -> g <$> alter f j l !! k = g <$> l !! k.
Proof.
  intros Hg. rewrite list_lookup_alter. destruct (decide (j = k)) as [-> |]; [| reflexivity].
  destruct (l !! k); cbn; [by rewrite Hg | reflexivity].
Qed.


Lemma settleChain_length ks s w :
  length (World.attempts (settleChain ks s w)) = length (World.attempts w).
Proof.
  revert w. induction ks as [| k ks IH]; intros w; cbn; [reflexivity |].
  destruct (Attempt.promise <$> World.attempts w !! k) as [[| |] |]; try reflexivity.
  rewrite IH. cbn. apply length_alter.
Qed.

Lemma settleChain_proj {B} (g : Attempt.t -> B) ks s w j :
  (forall p a, g (Attempt.setPromise p a) = g a) ->
  g <$> World.attempts (settleChain ks s w) !! j = g <$> World.attempts w !! j.
Proof.
  intros Hg. revert w. induction ks as [| k ks IH]; intros w; cbn; [reflexivity |].
  destruct (Attempt.promise <$> World.attempts w !! k) as [[| |] |]; try reflexivity.
  rewrite IH. cbn. apply lookup_alter_same. intros a. apply Hg.
Qed.

Lemma settleChain_other ks s w j :
  j ∉ ks -> World.attempts (settleChain ks s w) !! j = World.attempts w !! j.
Proof.
  revert w. induction ks as [| k ks IH]; intros w Hj; cbn; [reflexivity |].
  apply not_elem_of_cons in Hj as [Hne Hj].
  destruct (Attempt.promise <$> World.attempts w !! k) as [[| |] |]; try reflexivity.
  rewrite IH by exact Hj. cbn. apply list_lookup_alter_ne. congruence.
Qed.

Lemma settleChain_forwardTo ks s w :
  map Attempt.forwardTo (World.attempts (settleChain ks s w))
  = map Attempt.forwardTo (World.attempts w).
Proof.
  revert w. induction ks as [| k ks IH]; intros w; cbn; [reflexivity |].
  destruct (Attempt.promise <$> World.attempts w !! k) as [[| |] |]; try reflexivity.
  rewrite IH. cbn. by apply map_alter_same.
Qed.

(** A settled promise stays as it is. *)
Lemma settleChain_settled ks s w j p :
  promiseOf j w = Some p -> p <> Pending -> promiseOf j (settleChain ks s w) = Some p.
Proof.
  revert w. induction ks as [| k ks IH]; intros w Hp Hne; cbn; [exact Hp |].
  destruct (Attempt.promise <$> World.attempts w !! k) as [[| |] |] eqn:Hk; try exact Hp.
  apply IH; [| exact Hne].
  unfold promiseOf in *. cbn.
  rewrite list_lookup_alter. destruct (decide (k = j)) as [-> |]; [| exact Hp].
  rewrite Hp in Hk. congruence.
Qed.

(** The log only grows, and by calls that carry the settlement at hand. *)
Lemma settleChain_log ks s w :
  exists js, World.settleLog (settleChain ks s w)
             = World.settleLog w ++ map (fun j => (j, s)) js.
Proof.
  revert w. induction ks as [| k ks IH]; intros w; cbn.
  - exists []. by rewrite app_nil_r.
  - destruct (Attempt.promise <$> World.attempts w !! k) as [[| |] |];
      try (by exists [k]).
    destruct (IH (World.alterAttempt (Attempt.setPromise (settledAs s)) k
                    (World.log (k, s) w))) as [js Hjs].
    exists (k :: js). rewrite Hjs. cbn. by rewrite <- app_assoc.
Qed.

(** Every promise of a chain of pending promises takes the settlement, and
    each is called once, in the order of the chain. *)
Lemma settleChain_pending ks s w :
  NoDup ks ->
  Forall (fun j => promiseOf j w = Some Pending) ks ->
  World.settleLog (settleChain ks s w) = World.settleLog w ++ map (fun j => (j, s)) ks
  /\ Forall (fun j => promiseOf j (settleChain ks s w) = Some (settledAs s)) ks.
Proof.
  revert w. induction ks as [| k ks IH]; intros w Hnd Hp; cbn.
  - split; [by rewrite app_nil_r | constructor].
  - apply NoDup_cons in Hnd as [Hk Hnd].
    apply Forall_cons in Hp as [Hpk Hp].
    unfold promiseOf in Hpk. rewrite Hpk.
    set (w1 := World.alterAttempt _ k _).
    assert (promiseOf k w1 = Some (settledAs s)) as Hk1.
    { unfold promiseOf, w1. cbn. rewrite list_lookup_alter_eq.
      destruct (World.attempts w !! k); [reflexivity | discriminate]. }
    destruct (IH w1 Hnd) as [Hlog Hall].
    { rewrite Forall_forall in Hp. apply Forall_forall. intros j Hj.
      unfold promiseOf, w1. cbn. rewrite list_lookup_alter_ne; [by apply Hp |].
      intros ->. contradiction. }
    split.
    + rewrite Hlog. unfold w1. cbn. by rewrite <- app_assoc.
    + constructor; [| exact Hall].
      apply settleChain_settled; [exact Hk1 | by destruct s].
Qed.

(** ** What the handlers never change in the closure of an attempt *)

Lemma settle_proj {B} (g : Attempt.t -> B) j s w k :
  closureConstant g ->
  g <$> World.attempts (settle j s w) !! k = g <$> World.attempts w !! k.
Proof.
  intros (_ & _ & Hp & _). unfold settle.
  destruct (World.attempts w !! j); [by apply settleChain_proj | reflexivity].
Qed.

Lemma retryIfPossible_proj {B} (g : Attempt.t -> B) j cause res w k :
  closureConstant g ->
  g <$> World.attempts (retryIfPossible j cause res w) !! k = g <$> World.attempts w !! k.
Proof.
  intros Hg. unfold retryIfPossible.
  destruct (World.attempts w !! j) as [a |]; [| reflexivity]. cbn zeta.
  repeat case_if; try reflexivity; by apply settle_proj.
Qed.

Lemma alterAttempt_proj {B} (g : Attempt.t -> B) f j w k :
  (forall a, g (f a) = g a) ->
  g <$> World.attempts (World.alterAttempt f j w) !! k = g <$> World.attempts w !! k.
Proof. intros Hg. cbn. by apply lookup_alter_same. Qed.

Lemma onDone_proj {B} (g : Attempt.t -> B) rt j w k :
  closureConstant g ->
  g <$> World.attempts (onDone rt j w) !! k = g <$> World.attempts w !! k.
Proof.
  intros Hg. unfold onDone.
  destruct (World.attempts w !! j) as [a |]; [| reflexivity].
  case_if; [reflexivity |]. cbn zeta.
  case_if.
  - rewrite retryIfPossible_proj by exact Hg. apply alterAttempt_proj. apply Hg.
  - unfold resolve. rewrite settle_proj by exact Hg. apply alterAttempt_proj. apply Hg.
Qed.

Lemma onReadyStateChange_attempts j w :
  World.attempts (onReadyStateChange j w) = World.attempts w.
Proof.
  unfold onReadyStateChange. destruct (World.attempts w !! j) as [a |]; [| reflexivity].
  by destruct (XhrView.readyState _).
Qed.

(** ** Objects used as dictionaries *)

Lemma lastDefinition_app d1 d2 name :
  Headers.lastDefinition (d1 ++ d2) name
  = match Headers.lastDefinition d2 name with
    | Some v => Some v
    | None => Headers.lastDefinition d1 name
    end.
Proof.
  induction d1 as [| [k v] d1 IH]; cbn.
  - by destruct (Headers.lastDefinition d2 name).
  - rewrite IH. by destruct (Headers.lastDefinition d2 name).
Qed.

Lemma lookup_spread a b name :
  Headers.spread a b !! name
  = match b !! name with
    | Some v => Some v
    | None => a !! name
    end.
Proof. apply lastDefinition_app. Qed.

Lemma lastDefinition_is_Some defs name :
  is_Some (Headers.lastDefinition defs name) <-> name ∈ defs.*1.
Proof.
  induction defs as [| [k v] defs IH]; cbn.
  - split; [by intros [? ?] | by intros ?%elem_of_nil].
  - rewrite elem_of_cons, <- IH.
    destruct (Headers.lastDefinition defs name) as [v' |].
    + split; [right | ]; eauto.
    + destruct (String.eqb_spec k name) as [-> | Hne].
      * split; [by left | eauto].
      * split; [by intros [? ?] | intros [-> | [? ?]]; done].
Qed.

Lemma createdKeys_spec_aux defs ks :
  NoDup ks ->
  NoDup (foldl (fun ks d => if bool_decide (d.1 ∈ ks) then ks else ks ++ [d.1]) ks defs)
  /\ forall k,
      k ∈ foldl (fun ks (d : string * string) =>
                   if bool_decide (d.1 ∈ ks) then ks else ks ++ [d.1]) ks defs
      <-> k ∈ ks \/ k ∈ defs.*1.
Proof.
  revert ks. induction defs as [| d defs IH]; intros ks Hks; cbn [foldl fmap list_fmap].
  - split; [exact Hks |]. intros k. rewrite elem_of_nil. tauto.
  - destruct (bool_decide_reflect (d.1 ∈ ks)) as [Hin | Hnin].
    + destruct (IH ks Hks) as [Hnd Hel]. split; [exact Hnd |].
      intros k. rewrite Hel, elem_of_cons. split; [tauto |].
      intros [? | [-> | ?]]; auto.
    + assert (NoDup (ks ++ [d.1])) as Hks'.
      { apply NoDup_app. split; [exact Hks |]. split; [| apply NoDup_singleton].
        intros x Hx ->%list_elem_of_singleton. contradiction. }
      destruct (IH _ Hks') as [Hnd Hel]. split; [exact Hnd |].
      intros k. rewrite Hel, elem_of_app, list_elem_of_singleton, elem_of_cons. tauto.
Qed.

Lemma NoDup_createdKeys o : NoDup (Headers.createdKeys o).
Proof. apply createdKeys_spec_aux. constructor. Qed.

Lemma elem_of_createdKeys o k : k ∈ Headers.createdKeys o <-> is_Some (o !! k).
Proof.
  unfold Headers.createdKeys.
  destruct (createdKeys_spec_aux (Headers.definitions o) [] (NoDup_nil_2)) as [_ H].
  rewrite H, elem_of_nil. unfold lookup, Headers_lookup, Headers.get.
  rewrite lastDefinition_is_Some. tauto.
Qed.

Lemma keys_Permutation o : Headers.keys o ≡ₚ Headers.createdKeys o.
Proof.
  unfold Headers.keys. rewrite merge_sort_Permutation. apply filter_app_complement.
Qed.

Lemma NoDup_keys o : NoDup (Headers.keys o).
Proof. rewrite keys_Permutation. apply NoDup_createdKeys. Qed.

Lemma elem_of_keys o k : k ∈ Headers.keys o <-> is_Some (o !! k).
Proof. rewrite keys_Permutation. apply elem_of_createdKeys. Qed.

Lemma elem_of_entries o k v : (k, v) ∈ Headers.entries o <-> o !! k = Some v.
Proof.
  unfold Headers.entries. rewrite list_elem_of_omap. split.
  - intros (k' & _ & Hk). destruct (Headers.get o k') as [v' |] eqn:E; [| discriminate].
    cbn in Hk. injection Hk as -> ->. exact E.
  - intros Hk. exists k. split; [apply elem_of_keys; eauto |].
    change (Headers.get o k) with (o !! k). by rewrite Hk.
Qed.

Lemma entries_keys o : (Headers.entries o).*1 = Headers.keys o.
Proof.
  unfold Headers.entries.
  assert (Forall (fun k => is_Some (Headers.get o k)) (Headers.keys o)) as H.
  { apply Forall_forall. intros k Hk. by apply elem_of_keys in Hk. }
  induction H as [| k ks [v Hv] _ IH]; cbn; [reflexivity |].
  rewrite Hv. cbn. by rewrite IH.
Qed.

(** ** The transport *)

Lemma foldl_call_view (f : string * string -> XhrCall) l x :
  XMLHttpRequest.view (foldl (fun x h => XMLHttpRequest.call (f h) x) x l)
  = XMLHttpRequest.view x.
Proof.
  revert x. induction l as [| h l IH]; intros x; cbn [foldl]; [reflexivity |].
  by rewrite IH.
Qed.

Lemma foldl_call_calls (f : string * string -> XhrCall) l x :
  XMLHttpRequest.calls (foldl (fun x h => XMLHttpRequest.call (f h) x) x l)
  = XMLHttpRequest.calls x ++ map f l.
Proof.
  revert x. induction l as [| h l IH]; intros x; cbn [foldl map].
  - by rewrite app_nil_r.
  - rewrite IH. cbn. by rewrite <- app_assoc.
Qed.

(** A fresh transport shows the initial view. *)
Lemma newTransport_view this method path params handle :
  XMLHttpRequest.view (newTransport this method path params handle) = XhrView.initial.
Proof.
  unfold newTransport. cbn zeta.
  destruct (HttpRequestOptions.body params) as [body |];
    [case_if |]; cbn [XMLHttpRequest.call XMLHttpRequest.view];
    rewrite foldl_call_view; cbn;
    repeat case_if; try reflexivity;
    destruct (HttpRequestOptions.responseType params) as [r |];
    try case_if; reflexivity.
Qed.

Lemma doRetry_attempts j newParams w a :
  World.attempts w !! j = Some a ->
  exists a',
    World.attempts (doRetry j newParams w) = World.attempts w ++ [a']
    /\ Attempt.this a' = Attempt.this a
    /\ Attempt.attempt a' = 1
    /\ Attempt.method a' = Attempt.method a
    /\ Attempt.path a' = Attempt.path a
    /\ Attempt.params a' = newParams
    /\ Attempt.outcome a' = Outcome.None
    /\ Attempt.promise a' = Pending
    /\ Attempt.forwardTo a' = j :: Attempt.forwardTo a
    /\ Attempt.requestId a' = World.nextRequestId w
    /\ XMLHttpRequest.view (Attempt.xhr a') = XhrView.initial.
Proof.
  intros Ha. unfold doRetry. rewrite Ha.
  destruct (_makeRequest_attempts (Attempt.this a) (Attempt.method a) (Attempt.path a)
              newParams 1 w) as (a0 & Hatts & H1 & H2 & H3 & H4 & H5 & H6 & Hx & H7 & H8 & H9).
  pose proof (_makeRequest_index (Attempt.this a) (Attempt.method a) (Attempt.path a)
                newParams 1 w) as Hidx.
  destruct (_makeRequest _ _ _ _ _ w) as [k' w'] eqn:E. cbn [fst snd] in *.
  subst k'. exists (Attempt.setForwardTo (j :: Attempt.forwardTo a) a0).
  cbn. rewrite Hatts.
  replace (length (World.attempts w)) with (length (World.attempts w) + 0)%nat by lia.
  rewrite alter_app_r. cbn.
  repeat split; try assumption.
  rewrite Hx. apply newTransport_view.
Qed.

Lemma doRetry_proj {B} (g : Attempt.t -> B) j newParams w k :
  is_Some (World.attempts w !! k) ->
  g <$> World.attempts (doRetry j newParams w) !! k = g <$> World.attempts w !! k.
Proof.
  intros Hk. destruct (World.attempts w !! j) as [a |] eqn:Ha.
  - destruct (doRetry_attempts j newParams w a Ha) as (a' & -> & _).
    rewrite lookup_app_l; [reflexivity |]. by apply lookup_lt_is_Some.
  - unfold doRetry. by rewrite Ha.
Qed.

Lemma runTimer_proj {B} (g : Attempt.t -> B) rt t w k :
  closureConstant g ->
  is_Some (World.attempts w !! k) ->
  g <$> World.attempts (runTimer rt t w) !! k = g <$> World.attempts w !! k.
Proof.
  intros Hg Hk. unfold runTimer.
  destruct (World.timers w !! t) as [tm |]; [| reflexivity].
  case_if; [reflexivity |].
  destruct (Timer.task tm) as [j | j newParams].
  - by rewrite onDone_proj.
  - by rewrite doRetry_proj.
Qed.

(** No event changes what the closure of an existing attempt captured. *)
Lemma step_proj {B} (g : Attempt.t -> B) rt w e k :
  closureConstant g ->
  is_Some (World.attempts w !! k) ->
  g <$> World.attempts (step rt w e) !! k = g <$> World.attempts w !! k.
Proof.
  intros Hg Hk. destruct e as [j v | j | j | j | t]; cbn [step].
  - rewrite onReadyStateChange_attempts. apply alterAttempt_proj. intros a. apply Hg.
  - by apply retryIfPossible_proj.
  - by apply retryIfPossible_proj.
  - by apply retryIfPossible_proj.
  - by apply runTimer_proj.
Qed.

Lemma run_proj {B} (g : Attempt.t -> B) rt evs w k :
  closureConstant g ->
  is_Some (World.attempts w !! k) ->
  g <$> World.attempts (run rt w evs) !! k = g <$> World.attempts w !! k.
Proof.
  intros Hg. unfold run. revert w.
  induction evs as [| e evs IH]; intros w Hk; cbn [foldl]; [reflexivity |].
  rewrite IH.
  - by apply step_proj.
  - rewrite <- (fmap_is_Some g), step_proj, fmap_is_Some; done.
Qed.

Lemma closureConstant_calls :
  closureConstant (fun a => XMLHttpRequest.calls (Attempt.xhr a)).
Proof. repeat split. Qed.

Lemma closureConstant_attempt : closureConstant Attempt.attempt.
Proof. repeat split. Qed.

Lemma closureConstant_requestId : closureConstant Attempt.requestId.
Proof. repeat split. Qed.

Lemma closureConstant_retriesOf : closureConstant retriesOf.
Proof. repeat split. Qed.

(** ** An attempt that nothing concerns yet *)

Lemma untouched_is_Some k w : untouched k w -> is_Some (World.attempts w !! k).
Proof.
  intros (Hp & _). unfold promiseOf in Hp.
  destruct (World.attempts w !! k); [eauto | discriminate].
Qed.

Lemma untouched_alterAttempt k f j w :
  (forall a, Attempt.promise (f a) = Attempt.promise a) ->
  (forall a, Attempt.forwardTo (f a) = Attempt.forwardTo a) ->
  untouched k w -> untouched k (World.alterAttempt f j w).
Proof.
  intros Hfp Hff (Hp & Ht & Hf). split; [| split].
  - unfold promiseOf. rewrite alterAttempt_proj; done.
  - exact Ht.
  - cbn. apply Forall_alter; [exact Hf |]. intros a _. by rewrite Hff.
Qed.

Lemma untouched_settleChain k ks s w :
  k ∉ ks -> untouched k w -> untouched k (settleChain ks s w).
Proof.
  intros Hk (Hp & Ht & Hf). split; [| split].
  - unfold promiseOf. by rewrite settleChain_other.
  - by rewrite settleChain_timers.
  - apply (Forall_map Attempt.forwardTo (fun ks => k ∉ ks)).
    rewrite settleChain_forwardTo. by apply Forall_map.
Qed.

Lemma untouched_settle k j s w :
  j <> k -> untouched k w -> untouched k (settle j s w).
Proof.
  intros Hne Hu. unfold settle.
  destruct (World.attempts w !! j) as [a |] eqn:Ha; [| exact Hu].
  apply untouched_settleChain; [| exact Hu].
  destruct Hu as (_ & _ & Hf).
  rewrite Forall_lookup in Hf. specialize (Hf _ _ Ha).
  apply not_elem_of_cons. split; [congruence | exact Hf].
Qed.

Lemma untouched_setTimeout k task delay w :
  taskAttempt task <> k -> untouched k w -> untouched k (setTimeout task delay w).
Proof.
  intros Hne (Hp & Ht & Hf). split; [exact Hp | split; [| exact Hf]].
  cbn. apply Forall_app. split; [exact Ht |]. by constructor.
Qed.

Lemma untouched_retryIfPossible k j cause res w :
  j <> k -> untouched k w -> untouched k (retryIfPossible j cause res w).
Proof.
  intros Hne Hu. unfold retryIfPossible.
  destruct (World.attempts w !! j) as [a |]; [| exact Hu]. cbn zeta.
  repeat case_if; try (by apply untouched_settle).
  by apply untouched_setTimeout.
Qed.

Lemma untouched_onDone rt k j w :
  j <> k -> untouched k w -> untouched k (onDone rt j w).
Proof.
  intros Hne Hu. unfold onDone.
  destruct (World.attempts w !! j) as [a |]; [| exact Hu].
  case_if; [exact Hu |]. cbn zeta.
  assert (untouched k (World.alterAttempt (Attempt.setOutcome Outcome.Done) j w)) as Hu'
      by (by apply untouched_alterAttempt).
  case_if; [by apply untouched_retryIfPossible | by apply untouched_settle].
Qed.

Lemma untouched_doRetry k j newParams w :
  j <> k -> untouched k w -> untouched k (doRetry j newParams w).
Proof.
  intros Hne Hu.
  destruct (World.attempts w !! j) as [a |] eqn:Ha;
    [| unfold doRetry; by rewrite Ha].
  pose proof (untouched_is_Some k w Hu) as Hk.
  destruct Hu as (Hp & Ht & Hf).
  assert (World.timers (doRetry j newParams w) = World.timers w) as Htm.
  { unfold doRetry. rewrite Ha.
    pose proof (_makeRequest_timers (Attempt.this a) (Attempt.method a) (Attempt.path a)
                  newParams 1 w) as H.
    destruct (_makeRequest _ _ _ _ _ w) as [k' w']. exact H. }
  destruct (doRetry_attempts j newParams w a Ha)
    as (a' & Hatts & _ & _ & _ & _ & _ & _ & _ & Hfw & _).
  split; [| split].
  - unfold promiseOf. rewrite doRetry_proj; done.
  - by rewrite Htm.
  - rewrite Hatts. apply Forall_app. split; [exact Hf |].
    constructor; [| constructor]. rewrite Hfw.
    rewrite Forall_lookup in Hf. specialize (Hf _ _ Ha).
    apply not_elem_of_cons. split; [congruence | exact Hf].
Qed.

Lemma untouched_runTimer rt k t w :
  untouched k w -> untouched k (runTimer rt t w).
Proof.
  intros Hu. unfold runTimer.
  destruct (World.timers w !! t) as [tm |] eqn:Htm; [| exact Hu].
  case_if; [exact Hu |].
  assert (taskAttempt (Timer.task tm) <> k) as Hne.
  { destruct Hu as (_ & Ht & _). rewrite Forall_lookup in Ht. by apply (Ht _ _ Htm). }
  assert (untouched k
            (World.setTimers
               (<[t := Timer.mk (Timer.task tm) (Timer.delay tm) true]> (World.timers w)) w))
    as Hu'.
  { destruct Hu as (Hp & Ht & Hf). split; [exact Hp | split; [| exact Hf]].
    cbn. apply Forall_insert; [exact Ht | exact Hne]. }
  destruct (Timer.task tm) as [j | j newParams]; cbn in Hne.
  - by apply untouched_onDone.
  - by apply untouched_doRetry.
Qed.

(** As long as its transport announces neither Done nor a failure, nothing
    concerns the attempt. *)
Lemma untouched_step rt k w e :
  terminalOf k e = false -> untouched k w -> untouched k (step rt w e).
Proof.
  unfold terminalOf. intros He Hu.
  apply orb_false_iff in He as [Hfail Hdone].
  destruct e as [j v | j | j | j | t]; cbn [step]; cbn in Hfail, Hdone.
  - set (w1 := World.alterAttempt _ j w).
    assert (untouched k w1) as Hu1 by (by apply untouched_alterAttempt).
    unfold onReadyStateChange.
    destruct (World.attempts w1 !! j) as [a |] eqn:Ha; [| exact Hu1].
    assert (XMLHttpRequest.view (Attempt.xhr a) = v) as Hv.
    { unfold w1 in Ha. cbn in Ha. rewrite list_lookup_alter_eq in Ha.
      destruct (World.attempts w !! j); [| discriminate].
      cbn in Ha. injection Ha as <-. reflexivity. }
    rewrite Hv.
    destruct (XhrView.readyState v); try exact Hu1.
    apply untouched_setTimeout; [| exact Hu1]. cbn.
    case_bool_decide; [discriminate | assumption].
  - apply untouched_retryIfPossible; [| exact Hu]. by case_bool_decide.
  - apply untouched_retryIfPossible; [| exact Hu]. by case_bool_decide.
  - apply untouched_retryIfPossible; [| exact Hu]. by case_bool_decide.
  - by apply untouched_runTimer.
Qed.

Lemma untouched_run rt k evs w :
  existsb (terminalOf k) evs = false -> untouched k w -> untouched k (run rt w evs).
Proof.
  unfold run. revert w. induction evs as [| e evs IH]; intros w He Hu; cbn [foldl];
    [exact Hu |].
  cbn in He. apply orb_false_iff in He as [He Hevs].
  apply IH; [exact Hevs |]. by apply untouched_step.
Qed.

(* ================================================================== *)
(** * Requests that are never sent                                     *)
(* ================================================================== *)

Lemma existsb_isSend_headers (l : list (string * string)) :
  existsb isSend (map (fun h => SetRequestHeader h.1 h.2) l) = false.
Proof. induction l as [| h l IH]; cbn; [reflexivity | exact IH]. Qed.

(** Without a body, or with GET or HEAD, [send] is not among the calls that
    set the transport up. *)
Lemma newTransport_no_send this method path params handle :
  HttpRequestOptions.body params = None \/ method = "GET" \/ method = "HEAD" ->
  existsb isSend (XMLHttpRequest.calls (newTransport this method path params handle)) = false.
Proof.
  intros Hb. unfold newTransport. cbn zeta.
  set (headers := Headers.entries _).
  set (x := XMLHttpRequest.call (Open _ _) _).
  assert (existsb isSend (XMLHttpRequest.calls x) = false) as Hx.
  { unfold x. destruct (HttpRequestOptions.responseType params) as [r |];
      repeat case_if; reflexivity. }
  assert (existsb isSend
            (XMLHttpRequest.calls
               (foldl (fun x h => XMLHttpRequest.call (SetRequestHeader h.1 h.2) x) x headers))
          = false) as Hfold.
  { rewrite (foldl_call_calls (fun h => SetRequestHeader h.1 h.2)).
    rewrite existsb_app, Hx. apply existsb_isSend_headers. }
  destruct (HttpRequestOptions.body params) as [body |]; [| exact Hfold].
  destruct Hb as [Hb | [-> | ->]]; [discriminate | |].
  - replace (methodIs "GET" "GET") with true by reflexivity.
    cbn [negb]. rewrite andb_false_r. cbn [andb]. exact Hfold.
  - replace (methodIs "HEAD" "HEAD") with true by reflexivity.
    cbn [negb]. rewrite andb_false_r. exact Hfold.
Qed.

Lemma wellFormed_initial : wellFormed World.initial.
Proof. split; constructor. Qed.

Lemma untouched_makeRequest this method path params attempt w0 :
  wellFormed w0 ->
  untouched (length (World.attempts w0))
            (_makeRequest this method path params attempt w0).2.
Proof.
  intros [Ht Hf].
  destruct (_makeRequest_attempts this method path params attempt w0)
    as (a & Hatts & _ & _ & _ & _ & _ & _ & _ & _ & Hp & Hfw).
  split; [| split].
  - unfold promiseOf. rewrite Hatts, lookup_app_r by lia.
    rewrite Nat.sub_diag. cbn. by rewrite Hp.
  - rewrite _makeRequest_timers. eapply Forall_impl; [exact Ht |]. cbn. lia.
  - rewrite Hatts. apply Forall_app. split.
    + eapply Forall_impl; [exact Hf |]. cbn. intros a0 Ha0 Hin.
      rewrite Forall_forall in Ha0. specialize (Ha0 _ Hin). lia.
    + constructor; [| constructor]. rewrite Hfw. apply not_elem_of_nil.
Qed.

Lemma existsb_terminalOf k evs :
  existsb (terminalOf k) evs = existsb (failureOf k) evs || existsb (doneOf k) evs.
Proof.
  induction evs as [| e evs IH]; cbn; [reflexivity |].
  rewrite IH. unfold terminalOf.
  destruct (failureOf k e), (doneOf k e), (existsb (failureOf k) evs); reflexivity.
Qed.

(** C8. When the options hold no body, or the method is GET or HEAD, the
    executor does not call [send] when it sets the attempt up, and no event
    makes it call [send] later; the promise of the attempt is settled only
    after its transport has announced Done or dispatched [error], [abort] or
    [timeout], and, as a transport that was never sent does not reach Done,
    only after one of the three failure events. *)
Theorem bodyless_request_never_sent this method path params attempt w0
    (Hwf : wellFormed w0)
    (Hbody : HttpRequestOptions.body params = None \/ method = "GET" \/ method = "HEAD") :
  let k := length (World.attempts w0) in
  let w := (_makeRequest this method path params attempt w0).2 in
  forall rt evs,
    (exists calls, callsOf k (run rt w evs) = Some calls /\ existsb isSend calls = false)
    /\ (promiseOf k (run rt w evs) <> Some Pending -> existsb (terminalOf k) evs = true)
    /\ (existsb (doneOf k) evs = false ->
        promiseOf k (run rt w evs) <> Some Pending ->
        existsb (failureOf k) evs = true).
Proof.
  intros k w rt evs.
  pose proof (untouched_makeRequest this method path params attempt w0 Hwf) as Hu.
  fold k w in Hu.
  assert (promiseOf k (run rt w evs) <> Some Pending -> existsb (terminalOf k) evs = true)
    as Hsettled.
  { intros Hp. destruct (existsb (terminalOf k) evs) eqn:He; [reflexivity |].
    destruct (untouched_run rt k evs w He Hu) as (Hp' & _). contradiction. }
  split; [| split; [exact Hsettled |]].
  - unfold callsOf.
    rewrite (run_proj (fun a => XMLHttpRequest.calls (Attempt.xhr a)));
      [| exact closureConstant_calls | by apply untouched_is_Some].
    destruct (_makeRequest_attempts this method path params attempt w0)
      as (a & Hatts & _ & _ & _ & _ & _ & _ & Hx & _).
    unfold w, k. rewrite Hatts, lookup_app_r by lia.
    rewrite Nat.sub_diag. cbn. eexists. split; [reflexivity |].
    rewrite Hx. by apply newTransport_no_send.
  - intros Hd Hp. specialize (Hsettled Hp).
    rewrite existsb_terminalOf, Hd, orb_false_r in Hsettled. exact Hsettled.
Qed.

(** A GET on a fresh page: nothing is sent, and after the transport has been
    opened and nothing else happened the promise is still pending. *)
Lemma bodyless_request_never_sent_witness :
  let w := (_makeRequest (exampleClient 0) "GET" "/p" exampleOptions 1 World.initial).2 in
  let rt := Runtime.mk (fun _ => None) in
  (exists calls, callsOf 0 (run rt w []) = Some calls /\ existsb isSend calls = false)
  /\ promiseOf 0 (run rt w []) = Some Pending.
Proof.
  pose proof (bodyless_request_never_sent (exampleClient 0) "GET" "/p" exampleOptions 1
                World.initial) as H.
  cbn zeta in H.
  destruct (H wellFormed_initial (or_intror (or_introl eq_refl))
              (Runtime.mk (fun _ => None)) []) as (Hcalls & _).
  split; [exact Hcalls | reflexivity].
Defined.

(* ================================================================== *)
(** * What a rejection carries                                         *)
(* ================================================================== *)

Lemma settle_pending k s w a :
  World.attempts w !! k = Some a ->
  Attempt.promise a = Pending ->
  promiseOf k (settle k s w) = Some (settledAs s).
Proof.
  intros Ha Hp. unfold settle. rewrite Ha. cbn [settleChain].
  rewrite Ha. cbn [fmap option_fmap option_map]. rewrite Hp.
  apply settleChain_settled; [| by destruct s].
  unfold promiseOf. cbn. rewrite list_lookup_alter_eq, Ha. reflexivity.
Qed.

Lemma doRetry_settleLog k newParams w :
  World.settleLog (doRetry k newParams w) = World.settleLog w.
Proof.
  unfold doRetry. destruct (World.attempts w !! k) as [a |]; [| reflexivity].
  pose proof (_makeRequest_settleLog (Attempt.this a) (Attempt.method a) (Attempt.path a)
                newParams 1 w) as H.
  destruct (_makeRequest _ _ _ _ _ w) as [k' w']. exact H.
Qed.

(** Giving up rejects the promise of the attempt with the handle and the
    cause at hand. *)
Lemma retryIfPossible_gives_up w k a cause res :
  World.attempts w !! k = Some a ->
  Attempt.promise a = Pending ->
  retriesOf a = 0 \/ isRetryableOf a (Attempt.xhr a) cause res = false ->
  promiseOf k (retryIfPossible k cause res w)
  = Some (Rejected (rejection (Attempt.xhr a) cause)).
Proof.
  intros Ha Hp Hgive. unfold retryIfPossible. rewrite Ha. cbn zeta.
  pose proof (settle_pending k (Reject (rejection (Attempt.xhr a) cause)) w a Ha Hp) as Hrej.
  destruct Hgive as [-> | ->]; [exact Hrej |].
  case_if; exact Hrej.
Qed.

(** ** A settled promise stays settled *)

Lemma settle_settled j s w k p :
  promiseOf k w = Some p -> p <> Pending -> promiseOf k (settle j s w) = Some p.
Proof.
  intros Hp Hne. unfold settle.
  destruct (World.attempts w !! j); [by apply settleChain_settled | exact Hp].
Qed.

Lemma retryIfPossible_settled j cause res w k p :
  promiseOf k w = Some p -> p <> Pending ->
  promiseOf k (retryIfPossible j cause res w) = Some p.
Proof.
  intros Hp Hne. unfold retryIfPossible.
  destruct (World.attempts w !! j) as [a |]; [| exact Hp]. cbn zeta.
  repeat case_if; try (by apply settle_settled). exact Hp.
Qed.

Lemma onDone_settled rt j w k p :
  promiseOf k w = Some p -> p <> Pending -> promiseOf k (onDone rt j w) = Some p.
Proof.
  intros Hp Hne. unfold onDone.
  destruct (World.attempts w !! j) as [a |]; [| exact Hp].
  case_if; [exact Hp |]. cbn zeta.
  assert (promiseOf k (World.alterAttempt (Attempt.setOutcome Outcome.Done) j w) = Some p)
    as Hp'.
  { unfold promiseOf. by rewrite alterAttempt_proj. }
  case_if; [by apply retryIfPossible_settled | by apply settle_settled].
Qed.

Lemma step_settled rt w e k p :
  promiseOf k w = Some p -> p <> Pending -> promiseOf k (step rt w e) = Some p.
Proof.
  intros Hp Hne. destruct e as [j v | j | j | j | t]; cbn [step].
  - unfold promiseOf. rewrite onReadyStateChange_attempts.
    by rewrite alterAttempt_proj.
  - by apply retryIfPossible_settled.
  - by apply retryIfPossible_settled.
  - by apply retryIfPossible_settled.
  - unfold runTimer. destruct (World.timers w !! t) as [tm |]; [| exact Hp].
    case_if; [exact Hp |].
    destruct (Timer.task tm) as [j | j newParams].
    + by apply onDone_settled.
    + unfold promiseOf. rewrite doRetry_proj; [exact Hp |].
      unfold promiseOf in Hp. cbn.
      destruct (World.attempts w !! k); [eauto | discriminate].
Qed.

Lemma run_settled rt w evs k p :
  promiseOf k w = Some p -> p <> Pending -> promiseOf k (run rt w evs) = Some p.
Proof.
  intros Hp Hne. unfold run. revert w Hp.
  induction evs as [| e evs IH]; intros w Hp; cbn [foldl]; [exact Hp |].
  apply IH. by apply step_settled.
Qed.

(** ** Where a rejection comes from *)

(** Settling along a chain changes a pending promise only if it is on the
    chain, and then to the settlement at hand. *)
Lemma settleChain_changes ks s w j p :
  promiseOf j w = Some Pending ->
  promiseOf j (settleChain ks s w) = Some p ->
  p = Pending \/ (j ∈ ks /\ p = settledAs s).
Proof.
  revert w. induction ks as [| k ks IH]; intros w Hj Hp; cbn [settleChain] in Hp.
  - left. congruence.
  - destruct (Attempt.promise <$> World.attempts w !! k) as [[| |] |] eqn:Hk;
      try (left; unfold promiseOf in *; cbn in Hp; congruence).
    destruct (decide (k = j)) as [-> | Hne].
    + right. split; [apply elem_of_cons; by left |].
      assert (Some p = Some (settledAs s)) as H; [| congruence].
      rewrite <- Hp. apply settleChain_settled; [| by destruct s].
      unfold promiseOf. cbn. rewrite list_lookup_alter_eq.
      unfold promiseOf in Hj. destruct (World.attempts w !! j); [reflexivity | discriminate].
    + assert (promiseOf j (World.alterAttempt (Attempt.setPromise (settledAs s)) k
                             (World.log (k, s) w)) = Some Pending) as Hj'.
      { unfold promiseOf in *. cbn. by rewrite list_lookup_alter_ne by exact Hne. }
      destruct (IH _ Hj' Hp) as [-> | [Hin ->]]; [by left |].
      right. split; [apply elem_of_cons; by right | reflexivity].
Qed.

Lemma settle_changes i s w j p :
  promiseOf j w = Some Pending ->
  promiseOf j (settle i s w) = Some p ->
  p = Pending
  \/ exists a, World.attempts w !! i = Some a
               /\ (i = j \/ j ∈ Attempt.forwardTo a)
               /\ p = settledAs s.
Proof.
  intros Hj Hp. unfold settle in Hp.
  destruct (World.attempts w !! i) as [a |] eqn:Ha; [| left; congruence].
  destruct (settleChain_changes _ _ _ _ _ Hj Hp) as [-> | [Hin ->]]; [by left |].
  right. exists a. split; [reflexivity |]. split; [| reflexivity].
  apply elem_of_cons in Hin as [-> | Hin]; auto.
Qed.

(** A promise that [retryIfPossible] rejects is the one of the attempt or
    one that it forwards to, the attempt was not retried, and the value is
    made of its transport and of the cause at hand. *)
Lemma retryIfPossible_rejects i cause res w j reason :
  promiseOf j w = Some Pending ->
  promiseOf j (retryIfPossible i cause res w) = Some (Rejected reason) ->
  exists a,
    World.attempts w !! i = Some a
    /\ (i = j \/ j ∈ Attempt.forwardTo a)
    /\ (retriesOf a = 0 \/ isRetryableOf a (Attempt.xhr a) cause res = false)
    /\ reason = rejection (Attempt.xhr a) cause.
Proof.
  intros Hj Hp. unfold retryIfPossible in Hp.
  destruct (World.attempts w !! i) as [a |] eqn:Ha; [| congruence]. cbn zeta in Hp.
  assert (forall gaveUp : retriesOf a = 0
                          \/ isRetryableOf a (Attempt.xhr a) cause res = false,
             promiseOf j (reject i [("xhr", VXhr (Attempt.xhr a)); ("cause", VCause cause)] w)
             = Some (Rejected reason) ->
             exists a0,
               Some a = Some a0
               /\ (i = j \/ j ∈ Attempt.forwardTo a0)
               /\ (retriesOf a0 = 0 \/ isRetryableOf a0 (Attempt.xhr a0) cause res = false)
               /\ reason = rejection (Attempt.xhr a0) cause) as Hgive.
  { intros gaveUp Hrej. unfold reject in Hrej.
    destruct (settle_changes _ _ _ _ _ Hj Hrej) as [? | (a0 & Ha0 & Hin & Hs)];
      [discriminate |].
    rewrite Ha in Ha0. injection Ha0 as <-. exists a. repeat split; try assumption.
    cbn in Hs. by injection Hs as ->. }
  destruct (retriesOf a =? 0) eqn:Hr; cbn [negb] in Hp.
  - apply Hgive; [left; by apply Z.eqb_eq | exact Hp].
  - destruct (isRetryableOf a (Attempt.xhr a) cause res) eqn:Hpol.
    + unfold setTimeout, promiseOf in *. cbn in Hp. congruence.
    + apply Hgive; [by right | exact Hp].
Qed.

(** A promise that one event rejects is rejected for the failure that the
    event reports. *)
Lemma step_rejects rt w e j reason :
  promiseOf j w = Some Pending ->
  promiseOf j (step rt w e) = Some (Rejected reason) ->
  exists i a cause,
    failureReported w e = Some (i, cause)
    /\ World.attempts w !! i = Some a
    /\ (i = j \/ j ∈ Attempt.forwardTo a)
    /\ (retriesOf a = 0
        \/ isRetryableOf a (Attempt.xhr a) cause (responseOffered rt cause (Attempt.xhr a))
           = false)
    /\ reason = rejection (Attempt.xhr a) cause.
Proof.
  intros Hj Hp. destruct e as [i v | i | i | i | t]; cbn [step] in Hp.
  - exfalso. unfold promiseOf in Hp, Hj.
    rewrite onReadyStateChange_attempts in Hp.
    rewrite alterAttempt_proj in Hp by reflexivity. congruence.
  - destruct (retryIfPossible_rejects _ _ _ _ _ _ Hj Hp) as (a & Ha & Hin & Hg & Hr).
    by exists i, a, XhrFailures.Error.
  - destruct (retryIfPossible_rejects _ _ _ _ _ _ Hj Hp) as (a & Ha & Hin & Hg & Hr).
    by exists i, a, XhrFailures.Abort.
  - destruct (retryIfPossible_rejects _ _ _ _ _ _ Hj Hp) as (a & Ha & Hin & Hg & Hr).
    by exists i, a, XhrFailures.Timeout.
  - unfold runTimer in Hp. cbn [failureReported].
    destruct (World.timers w !! t) as [tm |] eqn:Htm; [| congruence].
    destruct (Timer.fired tm); [congruence |].
    set (w1 := World.setTimers _ w) in Hp.
    assert (promiseOf j w1 = Some Pending) as Hj1 by exact Hj.
    destruct (Timer.task tm) as [i | i newParams] eqn:Htask; cbn [fmap option_fmap option_map].
    + unfold onDone in Hp.
      change (World.attempts w1) with (World.attempts w) in Hp.
      destruct (World.attempts w !! i) as [a |] eqn:Ha; [| congruence].
      destruct (negb (Outcome.eqb (Attempt.outcome a) Outcome.None)); [congruence |].
      cbn zeta in Hp. rewrite buildResponse_statusCode in Hp.
      set (w2 := World.alterAttempt (Attempt.setOutcome Outcome.Done) i w1) in Hp.
      assert (promiseOf j w2 = Some Pending) as Hj2.
      { unfold promiseOf, w2. by rewrite alterAttempt_proj. }
      destruct (400 <=? XhrView.status (XMLHttpRequest.view (Attempt.xhr a))) eqn:Hst.
      * destruct (retryIfPossible_rejects _ _ _ _ _ _ Hj2 Hp) as (a2 & Ha2 & Hin & Hg & Hr).
        assert (a2 = Attempt.setOutcome Outcome.Done a) as ->.
        { unfold w2 in Ha2. cbn in Ha2. rewrite list_lookup_alter_eq in Ha2.
          change (World.attempts w1) with (World.attempts w) in Ha2.
          rewrite Ha in Ha2. cbn in Ha2. congruence. }
        exists i, a, XhrFailures.Status. rewrite Htask, Ha, Hst. repeat split; assumption.
      * exfalso. unfold resolve in Hp.
        destruct (settle_changes _ _ _ _ _ Hj2 Hp) as [? | (? & _ & _ & ?)]; discriminate.
    + exfalso. unfold promiseOf in Hp, Hj1.
      rewrite doRetry_proj in Hp; [congruence |].
      destruct (World.attempts w1 !! j); [eauto | discriminate].
Qed.

(** C6, as the code has it.  When the promise of a request (of any attempt
    [j]) is rejected in the course of a run, it is rejected by one event,
    which reports a failure of [j] itself or of a retry chained to [j]: an
    [error], [abort] or [timeout] of that attempt, or its [onDone] finding a
    status of 400 or more.  That attempt was not retried, because its budget
    was 0 or because the policy, offered the response for a [Status] failure
    and nothing otherwise, declined.  The rejection value is the object of
    the two fields xhr and cause: the transport of that attempt and the
    cause reported; it holds no response. *)
Theorem rejection_is_xhr_and_cause rt w evs j reason
    (Hpending : promiseOf j w = Some Pending)
    (Hrejected : promiseOf j (run rt w evs) = Some (Rejected reason)) :
  exists before e after i a cause,
    evs = before ++ e :: after
    /\ promiseOf j (run rt w before) = Some Pending
    /\ failureReported (run rt w before) e = Some (i, cause)
    /\ World.attempts (run rt w before) !! i = Some a
    /\ (i = j \/ j ∈ Attempt.forwardTo a)
    /\ (retriesOf a = 0
        \/ isRetryableOf a (Attempt.xhr a) cause (responseOffered rt cause (Attempt.xhr a))
           = false)
    /\ reason = rejection (Attempt.xhr a) cause
    /\ causeOf reason = Some cause
    /\ carriesResponse reason = false.
Proof.
  revert w Hpending Hrejected. induction evs as [| e evs IH]; intros w Hj Hr.
  - cbn in Hr. congruence.
  - change (run rt w (e :: evs)) with (run rt (step rt w e) evs) in Hr.
    assert (is_Some (World.attempts w !! j)) as Hsome.
    { unfold promiseOf in Hj. destruct (World.attempts w !! j); [eauto | discriminate]. }
    assert (is_Some (promiseOf j (step rt w e))) as [p Hp].
    { unfold promiseOf. rewrite fmap_is_Some, <- (fmap_is_Some (fun _ => ())).
      rewrite (step_proj (fun _ => ()) rt w e j); [| by repeat split | exact Hsome].
      by rewrite fmap_is_Some. }
    destruct p as [| res | reason'].
    + destruct (IH _ Hp Hr) as (before & e' & after & i & a & cause & -> & H).
      exists (e :: before), e', after, i, a, cause. split; [reflexivity | exact H].
    + exfalso. rewrite (run_settled rt _ evs j _ Hp) in Hr by discriminate. discriminate.
    + rewrite (run_settled rt _ evs j _ Hp) in Hr by discriminate.
      injection Hr as <-.
      destruct (step_rejects rt w e j reason' Hj Hp) as (i & a & cause & Hf & Ha & Hin & Hg & ->).
      exists [], e, evs, i, a, cause. cbn [run foldl app]. repeat split; assumption.
Qed.

(** The retry of a request with a budget of 1 fails like the request, with
    a transport error: the promise of the request is rejected by the retry,
    with the transport of the retry and the cause [Error]. *)
Lemma rejection_is_xhr_and_cause_witness :
  let rt := Runtime.mk (fun _ => None) in
  let evs := [ErrorEvent 0; TimerFired 0; ErrorEvent 1] in
  exists before e after i a cause,
    evs = before ++ e :: after
    /\ promiseOf 0 (run rt (posted 1) before) = Some Pending
    /\ failureReported (run rt (posted 1) before) e = Some (i, cause)
    /\ World.attempts (run rt (posted 1) before) !! i = Some a
    /\ (i = 0%nat \/ 0%nat ∈ Attempt.forwardTo a)
    /\ (retriesOf a = 0
        \/ isRetryableOf a (Attempt.xhr a) cause (responseOffered rt cause (Attempt.xhr a))
           = false)
    /\ rejection (newTransport (exampleClient 1) "POST" "/p"
                    (HttpRequestOptions.withRetries 0 exampleOptions) 1) XhrFailures.Error
       = rejection (Attempt.xhr a) cause
    /\ causeOf (rejection (Attempt.xhr a) cause) = Some cause
    /\ carriesResponse (rejection (Attempt.xhr a) cause) = false.
Proof.
  cbn zeta.
  destruct (rejection_is_xhr_and_cause (Runtime.mk (fun _ => None)) (posted 1)
              [ErrorEvent 0; TimerFired 0; ErrorEvent 1] 0%nat
              (rejection (newTransport (exampleClient 1) "POST" "/p"
                            (HttpRequestOptions.withRetries 0 exampleOptions) 1)
                 XhrFailures.Error))
    as (before & e & after & i & a & cause & H1 & H2 & H3 & H4 & H5 & H6 & H7 & H8 & H9).
  - reflexivity.
  - vm_compute. reflexivity.
  - exists before, e, after, i, a, cause. rewrite <- H7. repeat split; assumption.
Defined.

(* ================================================================== *)
(** * A request that fails on every attempt                            *)
(* ================================================================== *)


Lemma run_app rt w evs1 evs2 : run rt w (evs1 ++ evs2) = run rt (run rt w evs1) evs2.
Proof. unfold run. apply foldl_app. Qed.

Lemma doRetry_timers k newParams w :
  World.timers (doRetry k newParams w) = World.timers w.
Proof.
  unfold doRetry. destruct (World.attempts w !! k) as [a |]; [| reflexivity].
  pose proof (_makeRequest_timers (Attempt.this a) (Attempt.method a) (Attempt.path a)
                newParams 1 w) as H.
  destruct (_makeRequest _ _ _ _ _ w) as [k' w']. exact H.
Qed.


Lemma run_status_failure rt v k w a :
  XhrView.readyState v = ReadyState.Done ->
  400 <= XhrView.status v ->
  World.attempts w !! k = Some a ->
  Attempt.outcome a = Outcome.None ->
  run rt w (failureEvents XhrFailures.Status v k (length (World.timers w)))
  = retryIfPossible k XhrFailures.Status
      (Some (buildResponse rt (XMLHttpRequest.setView v (Attempt.xhr a))))
      (statusFailed v k w).
Proof.
  intros Hdone Hst Ha Ho. destruct w as [next atts tms log].
  cbn [World.attempts World.timers] in *.
  cbn [failureEvents run foldl step].
  unfold onReadyStateChange, World.alterAttempt, World.setAttempts.
  cbn [World.attempts World.timers World.nextRequestId World.settleLog].
  rewrite list_lookup_alter_eq, Ha. cbn [fmap option_fmap option_map].
  cbn [Attempt.setXhr Attempt.xhr XMLHttpRequest.setView XMLHttpRequest.view].
  rewrite Hdone.
  unfold runTimer, setTimeout, World.setTimers.
  cbn [World.attempts World.timers World.nextRequestId World.settleLog].
  rewrite lookup_app_r by lia. rewrite Nat.sub_diag.
  cbn [lookup list_lookup Timer.fired Timer.task Timer.delay].
  unfold onDone.
  cbn [World.attempts World.timers World.nextRequestId World.settleLog].
  rewrite list_lookup_alter_eq, Ha. cbn [fmap option_fmap option_map].
  cbn [Attempt.setXhr Attempt.outcome]. rewrite Ho.
  cbn [Outcome.eqb Outcome.value Z.eqb negb].
  cbn zeta. rewrite buildResponse_statusCode.
  match goal with
  | |- context [400 <=? ?s] =>
      replace (400 <=? s) with true by (symmetry; apply Z.leb_le; exact Hst)
  end.
  unfold statusFailed, World.alterAttempt, World.setAttempts.
  cbn [World.attempts World.timers World.nextRequestId World.settleLog].
  rewrite list_alter_alter_eq.
  replace (length tms) with (length tms + 0)%nat by lia.
  rewrite insert_app_r. reflexivity.
Qed.

Lemma ready_statusFailed R cause v w k chain :
  ready R cause w k chain -> ready R cause (statusFailed v k w) k chain.
Proof.
  intros (a & Ha & Hlen & HR & Hpol & Hfw & Hpend & Hnd).
  exists (Attempt.setOutcome Outcome.Done
            (Attempt.setXhr (XMLHttpRequest.setView v (Attempt.xhr a)) a)).
  cbn [statusFailed World.attempts].
  split; [by rewrite list_lookup_alter_eq, Ha |].
  split; [by rewrite length_alter |].
  repeat (split; [assumption |]).
  split; [| assumption].
  eapply Forall_impl; [exact Hpend |]. cbn. intros j Hj.
  unfold promiseOf in *. cbn [statusFailed World.attempts].
  by rewrite lookup_alter_same.
Qed.

Lemma retryDelays_snoc_onDone tms k delay fired :
  retryDelays (tms ++ [Timer.mk (OnDone k) delay fired]) = retryDelays tms.
Proof.
  unfold retryDelays. rewrite filter_app.
  rewrite filter_cons_False by (cbn; discriminate).
  rewrite filter_nil. by rewrite app_nil_r.
Qed.

Lemma retryDelays_snoc_doRetry tms k p delay fired :
  retryDelays (tms ++ [Timer.mk (DoRetry k p) delay fired]) = retryDelays tms ++ [delay].
Proof.
  unfold retryDelays. rewrite filter_app.
  rewrite filter_cons_True by reflexivity.
  rewrite filter_nil. by rewrite map_app.
Qed.

(** One failure: the events lead to a call of [retryIfPossible] in a world
    that differs from the one before in the view and the latch of the
    attempt and in the timer of [onDone]. *)
Lemma fail_once rt cause v R w k chain :
  XhrView.readyState v = ReadyState.Done ->
  400 <= XhrView.status v ->
  ready R cause w k chain ->
  outcomeOf k w = Some Outcome.None ->
  exists w1 res,
    run rt w (failureEvents cause v k (length (World.timers w)))
    = retryIfPossible k cause res w1
    /\ ready R cause w1 k chain
    /\ World.settleLog w1 = World.settleLog w
    /\ length (World.timers w1) = (length (World.timers w) + timersOf cause)%nat
    /\ retryDelays (World.timers w1) = retryDelays (World.timers w).
Proof.
  intros Hdone Hst Hready Ho.
  destruct cause.
  - destruct Hready as (a & Ha & Hrest).
    exists (statusFailed v k w).
    exists (Some (buildResponse rt (XMLHttpRequest.setView v (Attempt.xhr a)))).
    split.
    { apply run_status_failure; try assumption.
      unfold outcomeOf in Ho. rewrite Ha in Ho. by injection Ho. }
    split; [apply ready_statusFailed; by exists a |].
    split; [reflexivity |].
    cbn [statusFailed World.timers timersOf].
    split; [by rewrite length_app | apply retryDelays_snoc_onDone].
  - exists w, None. cbn. repeat split; try done; lia.
  - exists w, None. cbn. repeat split; try done; lia.
  - exists w, None. cbn. repeat split; try done; lia.
Qed.

(** The budget is spent: the attempt rejects, and the rejection runs down the
    chain, one call per promise. *)
Lemma budget_spent cause w k chain res :
  ready 0 cause w k chain ->
  exists x,
    length (World.attempts (retryIfPossible k cause res w)) = S k
    /\ World.settleLog (retryIfPossible k cause res w)
       = World.settleLog w ++ map (fun j => (j, Reject (rejection x cause))) (k :: chain)
    /\ Forall (fun j => promiseOf j (retryIfPossible k cause res w)
                        = Some (Rejected (rejection x cause))) (k :: chain)
    /\ World.timers (retryIfPossible k cause res w) = World.timers w.
Proof.
  intros (a & Ha & Hlen & HR & Hpol & Hfw & Hpend & Hnd).
  exists (Attempt.xhr a).
  unfold retryIfPossible. rewrite Ha. cbn zeta. rewrite HR.
  change (negb (Z.of_nat 0 =? 0)) with false. cbv iota.
  unfold reject, settle. rewrite Ha, Hfw.
  change [("xhr", VXhr (Attempt.xhr a)); ("cause", VCause cause)]
    with (rejection (Attempt.xhr a) cause).
  destruct (settleChain_pending (k :: chain) (Reject (rejection (Attempt.xhr a) cause)) w
              Hnd Hpend) as [Hlog Hall].
  split; [by rewrite settleChain_length |].
  split; [exact Hlog |].
  split; [exact Hall | apply settleChain_timers].
Qed.

(** The budget is not spent: the retry is scheduled, and when its timer
    comes due the next attempt stands ready with one retry less. *)
Lemma retry_once rt R cause w k chain res :
  ready (S R) cause w k chain ->
  let w3 := step rt (retryIfPossible k cause res w) (TimerFired (length (World.timers w))) in
  ready R cause w3 (S k) (k :: chain)
  /\ outcomeOf (S k) w3 = Some Outcome.None
  /\ World.settleLog w3 = World.settleLog w
  /\ length (World.timers w3) = S (length (World.timers w))
  /\ exists d, retryDelays (World.timers w3) = retryDelays (World.timers w) ++ [d].
Proof.
  intros (a & Ha & Hlen & HR & Hpol & Hfw & Hpend & Hnd) w3.
  set (newParams := HttpRequestOptions.withRetries (retriesOf a - 1) (Attempt.params a)).
  set (w2 := World.setTimers
               (World.timers w ++ [Timer.mk (DoRetry k newParams) (backoff (Attempt.attempt a)) true])
               w).
  assert (w3 = doRetry k newParams w2) as Hw3.
  { unfold w3, retryIfPossible. rewrite Ha. cbn zeta. rewrite Hpol.
    replace (negb (retriesOf a =? 0)) with true
      by (symmetry; apply negb_true_iff, Z.eqb_neq; lia).
    cbn [step]. unfold runTimer, setTimeout.
    destruct w as [next atts tms log].
    cbn [World.setTimers World.attempts World.timers World.nextRequestId World.settleLog].
    rewrite lookup_app_r by lia. rewrite Nat.sub_diag.
    cbn [lookup list_lookup Timer.fired Timer.task Timer.delay].
    unfold w2. cbn [World.setTimers World.attempts World.timers World.nextRequestId
                      World.settleLog].
    replace (length tms) with (length tms + 0)%nat at 1 by lia.
    rewrite insert_app_r. reflexivity. }
  assert (World.attempts w2 !! k = Some a) as Ha2 by exact Ha.
  destruct (doRetry_attempts k newParams w2 a Ha2)
    as (a' & Hatts & Hthis & Hatt & _ & _ & Hparams & Hout & Hprom & Hfw' & _).
  assert (forall j, is_Some (World.attempts w !! j) -> promiseOf j w3 = promiseOf j w) as Hsame.
  { intros j Hj. rewrite Hw3. unfold promiseOf. by rewrite doRetry_proj. }
  assert (World.attempts w3 !! S k = Some a') as Ha3.
  { rewrite Hw3, Hatts. change (World.attempts w2) with (World.attempts w).
    rewrite lookup_app_r by lia. rewrite Hlen, Nat.sub_diag. reflexivity. }
  split; [| split; [| split; [| split]]].
  - exists a'. split; [exact Ha3 |].
    split; [rewrite Hw3, Hatts, length_app; cbn; change (World.attempts w2) with (World.attempts w); lia |].
    split; [unfold retriesOf; rewrite Hparams; cbn; lia |].
    split; [intros x res'; unfold isRetryableOf; rewrite Hparams, Hthis; apply Hpol |].
    split; [by rewrite Hfw', Hfw |].
    split.
    + constructor.
      * unfold promiseOf. rewrite Ha3. cbn. by rewrite Hprom.
      * eapply Forall_impl; [exact Hpend |]. cbn. intros j Hj.
        rewrite Hsame; [exact Hj |].
        unfold promiseOf in Hj. destruct (World.attempts w !! j); [eauto | discriminate].
    + apply NoDup_cons. split; [| exact Hnd].
      intros Hin. rewrite Forall_forall in Hpend. specialize (Hpend _ Hin).
      unfold promiseOf in Hpend.
      destruct (World.attempts w !! S k) eqn:E; [| discriminate].
      apply lookup_lt_Some in E. lia.
  - unfold outcomeOf. rewrite Ha3. cbn. by rewrite Hout.
  - rewrite Hw3, doRetry_settleLog. reflexivity.
  - rewrite Hw3, doRetry_timers. unfold w2. cbn. rewrite length_app. cbn. lia.
  - rewrite Hw3, doRetry_timers. unfold w2. cbn [World.setTimers World.timers].
    rewrite retryDelays_snoc_doRetry. eauto.
Qed.

(** A ready attempt with budget [R] that fails on every attempt: [R] retries
    are made, then the last attempt rejects and the rejection reaches every
    promise of the chain once. *)
Lemma failing_chain rt cause v :
  XhrView.readyState v = ReadyState.Done ->
  400 <= XhrView.status v ->
  forall R w k chain,
    ready R cause w k chain ->
    outcomeOf k w = Some Outcome.None ->
    let w' := run rt w (failingScript cause v R k (length (World.timers w))) in
    exists x,
      length (World.attempts w') = (S k + R)%nat
      /\ World.settleLog w'
         = World.settleLog w
           ++ map (fun j => (j, Reject (rejection x cause))) (rev (seq k (S R)) ++ chain)
      /\ Forall (fun j => promiseOf j w' = Some (Rejected (rejection x cause)))
                (rev (seq k (S R)) ++ chain)
      /\ exists ds,
          retryDelays (World.timers w') = retryDelays (World.timers w) ++ ds
          /\ length ds = R.
Proof.
  intros Hdone Hst. induction R as [| R IH]; intros w k chain Hready Ho w'.
  - subst w'. cbn [failingScript]. rewrite app_nil_r.
    destruct (fail_once rt cause v 0 w k chain Hdone Hst Hready Ho)
      as (w1 & res & -> & Hready1 & Hlog1 & Hlen1 & Hdel1).
    destruct (budget_spent cause w1 k chain res Hready1) as (x & Hatts & Hlog & Hall & Htm).
    exists x. cbn [seq rev app].
    split; [lia |].
    split; [by rewrite Hlog, Hlog1 |].
    split; [exact Hall |].
    exists []. rewrite Htm, Hdel1, app_nil_r. done.
  - subst w'. cbn [failingScript].
    rewrite run_app.
    destruct (fail_once rt cause v (S R) w k chain Hdone Hst Hready Ho)
      as (w1 & res & -> & Hready1 & Hlog1 & Hlen1 & Hdel1).
    rewrite <- Hlen1.
    change (run rt ?w0 (?e :: ?evs)) with (run rt (step rt w0 e) evs).
    destruct (retry_once rt R cause w1 k chain res Hready1)
      as (Hready3 & Ho3 & Hlog3 & Hlen3 & d & Hdel3).
    set (w3 := step rt (retryIfPossible k cause res w1) (TimerFired (length (World.timers w1))))
      in *.
    rewrite <- Hlen3.
    destruct (IH w3 (S k) (k :: chain) Hready3 Ho3)
      as (x & Hatts & Hlog & Hall & ds & Hdel & Hds).
    exists x.
    assert (rev (seq k (S (S R))) ++ chain = rev (seq (S k) (S R)) ++ k :: chain) as Hseq.
    { change (seq k (S (S R))) with (k :: seq (S k) (S R)).
      cbn [rev]. by rewrite <- app_assoc. }
    rewrite Hseq.
    split; [lia |].
    split; [by rewrite Hlog, Hlog3, Hlog1 |].
    split; [exact Hall |].
    exists (d :: ds). rewrite Hdel, Hdel3, Hdel1, <- app_assoc. cbn. split; [done | lia].
Qed.

Lemma elem_of_rev_seq (j k n : nat) : j ∈ rev (seq k n) <-> (k <= j < k + n)%nat.
Proof. rewrite list_elem_of_In, <- in_rev, <- list_elem_of_In. apply elem_of_seq. Qed.

Lemma filter_log_other (k : nat) (s : Settlement) (l : list nat) :
  Forall (fun j => j <> k) l ->
  filter (fun e : nat * Settlement => e.1 = k) (map (fun j => (j, s)) l) = [].
Proof.
  induction 1 as [| j l Hj _ IH]; cbn [map]; [reflexivity |].
  rewrite filter_cons_False by exact Hj. exact IH.
Qed.

(** A request just made stands ready. *)
Lemma ready_request this method path params cause (R : nat) w0 :
  orNull (HttpRequestOptions.retries params) (HttpClient.retries this) = Z.of_nat R ->
  (forall x res,
      orNull (HttpRequestOptions.isRetryable params) (HttpClient.isRetryable this)
        x cause res = true) ->
  let w := (request this method path params w0).2 in
  ready R cause w (length (World.attempts w0)) []
  /\ outcomeOf (length (World.attempts w0)) w = Some Outcome.None
  /\ World.timers w = World.timers w0
  /\ World.settleLog w = World.settleLog w0.
Proof.
  intros HR Hpol w. unfold w, request.
  destruct (_makeRequest_attempts this method path params 1 w0)
    as (a & Hatts & Hthis & _ & _ & _ & _ & Hparams & _ & Hout & Hprom & Hfw).
  assert (World.attempts (_makeRequest this method path params 1 w0).2
          !! length (World.attempts w0) = Some a) as Ha.
  { rewrite Hatts, lookup_app_r by lia. by rewrite Nat.sub_diag. }
  split; [| split; [| split; [apply _makeRequest_timers | apply _makeRequest_settleLog]]].
  - exists a. split; [exact Ha |].
    split; [rewrite Hatts, length_app; cbn; lia |].
    split; [unfold retriesOf; by rewrite Hparams, Hthis |].
    split; [intros x res; unfold isRetryableOf; rewrite Hparams, Hthis; apply Hpol |].
    split; [exact Hfw |].
    split.
    + constructor; [| constructor]. unfold promiseOf. rewrite Ha. cbn. by rewrite Hprom.
    + apply NoDup_singleton.
  - unfold outcomeOf. rewrite Ha. cbn. by rewrite Hout.
Qed.

(** When every attempt handles exactly one failure.  With a retry budget of
    [R >= 0] and a cause that the policy always retries, a request whose
    every attempt fails once with that cause, and receives no other event,
    makes exactly [R + 1] attempts, schedules exactly [R] retries, and then
    rejects: the promise of the first attempt, which the caller holds, is
    rejected with that cause, and its [reject] is called once. *)
Lemma failing_request_rejects rt this method path params cause v (R : nat) w0
    (HR : orNull (HttpRequestOptions.retries params) (HttpClient.retries this) = Z.of_nat R)
    (Hpol : forall x res,
        orNull (HttpRequestOptions.isRetryable params) (HttpClient.isRetryable this)
          x cause res = true)
    (Hdone : XhrView.readyState v = ReadyState.Done)
    (Hst : 400 <= XhrView.status v) :
  let k := length (World.attempts w0) in
  let w := run rt (request this method path params w0).2
               (failingScript cause v R k (length (World.timers w0))) in
  length (World.attempts w) = (k + (R + 1))%nat
  /\ length (retryDelays (World.timers w)) = (length (retryDelays (World.timers w0)) + R)%nat
  /\ (R = 0%nat -> retryDelays (World.timers w) = retryDelays (World.timers w0))
  /\ exists x,
      promiseOf k w = Some (Rejected (rejection x cause))
      /\ World.settleLog w
         = World.settleLog w0
           ++ map (fun j => (j, Reject (rejection x cause))) (rev (seq k (S R)))
      /\ filter (fun e => e.1 = k) (drop (length (World.settleLog w0)) (World.settleLog w))
         = [(k, Reject (rejection x cause))].
Proof.
  intros k w.
  destruct (ready_request this method path params cause R w0 HR Hpol)
    as (Hready & Ho & Htm & Hlog0).
  fold k in Hready, Ho.
  pose proof (failing_chain rt cause v Hdone Hst R _ k [] Hready Ho) as H.
  cbn zeta in H. rewrite Htm in H. fold w in H.
  destruct H as (x & Hatts & Hlog & Hall & ds & Hdel & Hds).
  rewrite app_nil_r in Hlog, Hall. rewrite Hlog0 in Hlog.
  split; [lia |].
  split; [rewrite Hdel, length_app; lia |].
  split.
  { intros ->. destruct ds; [| discriminate]. by rewrite Hdel, app_nil_r. }
  exists x. split; [| split; [exact Hlog |]].
  - rewrite Forall_forall in Hall. apply Hall.
    apply elem_of_rev_seq. lia.
  - rewrite Hlog, drop_app_length.
    change (seq k (S R)) with (k :: seq (S k) R). cbn [rev].
    rewrite map_app, filter_app, filter_log_other.
    + cbn [map app]. rewrite filter_cons_True by reflexivity. by rewrite filter_nil.
    + apply Forall_forall. intros j Hj. apply elem_of_rev_seq in Hj. lia.
Qed.

(** C3, on the code.  A request of the example client with a budget of 1
    and the default policy, whose transport fails on both attempts the way a
    browser reports a network failure: the ready state Done with status 0,
    then [error], and 10 ms later the timer of [onDone].  The two attempts
    of the budget are made and the second gives up with the cause [Error],
    but the caller's promise is not rejected: the [error] handler has left
    the latch of the first attempt open, so its [onDone] has fulfilled the
    promise with the status 0 response before the retry was even made, and
    the [reject] that reaches the promise afterwards finds it settled. *)
Theorem network_failure_fulfils_caller rt :
  let first := [ReadyStateChange 0 failedView; ErrorEvent 0; TimerFired 0] in
  let second := [TimerFired 1; ReadyStateChange 1 failedView; ErrorEvent 1; TimerFired 2] in
  let w1 := run rt (posted 1) first in
  let w := run rt w1 second in
  (fulfilledStatus (promiseOf 0 w1) = Some 0
   /\ length (World.attempts w1) = 1%nat
   /\ settleCalls w1 = [(0%nat, Resolved)])
  /\ map retriesOf (World.attempts w) = [1; 0]
  /\ rejectedCause (promiseOf 1 w) = Some XhrFailures.Error
  /\ rejectedCause (promiseOf 0 w) = None
  /\ fulfilledStatus (promiseOf 0 w) = Some 0
  /\ settleCalls w
     = [(0%nat, Resolved); (1%nat, Rejected_); (0%nat, Rejected_); (1%nat, Resolved)].
Proof. vm_compute. repeat split. Qed.

(* ================================================================== *)
(** * Every page is well formed                                        *)
(* ================================================================== *)

Lemma wellFormed_mono n m (ts : list Timer.t) (atts : list Attempt.t) :
  (n <= m)%nat ->
  Forall (fun t => (taskAttempt (Timer.task t) < n)%nat) ts
  /\ Forall (fun a => Forall (fun j => (j < n)%nat) (Attempt.forwardTo a)) atts ->
  Forall (fun t => (taskAttempt (Timer.task t) < m)%nat) ts
  /\ Forall (fun a => Forall (fun j => (j < m)%nat) (Attempt.forwardTo a)) atts.
Proof.
  intros Hnm [Ht Hf]. split.
  - eapply Forall_impl; [exact Ht |]. cbn. lia.
  - eapply Forall_impl; [exact Hf |]. cbn. intros a Ha.
    eapply Forall_impl; [exact Ha |]. cbn. lia.
Qed.

Lemma wellFormed_alterAttempt f j w :
  (forall a, Attempt.forwardTo (f a) = Attempt.forwardTo a) ->
  wellFormed w -> wellFormed (World.alterAttempt f j w).
Proof.
  intros Hf [Ht Hfw]. split; cbn; rewrite length_alter; [exact Ht |].
  apply Forall_alter; [exact Hfw |]. intros a _. by rewrite Hf.
Qed.

Lemma wellFormed_settleChain ks s w :
  wellFormed w -> wellFormed (settleChain ks s w).
Proof.
  intros [Ht Hfw]. split; rewrite settleChain_length.
  - by rewrite settleChain_timers.
  - apply (Forall_map Attempt.forwardTo
             (Forall (fun j => (j < length (World.attempts w))%nat))).
    rewrite settleChain_forwardTo. by apply Forall_map.
Qed.

Lemma wellFormed_settle k s w : wellFormed w -> wellFormed (settle k s w).
Proof.
  intros Hw. unfold settle.
  destruct (World.attempts w !! k); [by apply wellFormed_settleChain | exact Hw].
Qed.

Lemma wellFormed_setTimeout task delay w :
  (taskAttempt task < length (World.attempts w))%nat ->
  wellFormed w -> wellFormed (setTimeout task delay w).
Proof.
  intros Hk [Ht Hfw]. split; [| exact Hfw].
  cbn. apply Forall_app. split; [exact Ht |]. by constructor.
Qed.

Lemma wellFormed_retryIfPossible k cause res w :
  wellFormed w -> wellFormed (retryIfPossible k cause res w).
Proof.
  intros Hw. unfold retryIfPossible.
  destruct (World.attempts w !! k) as [a |] eqn:Ha; [| exact Hw]. cbn zeta.
  repeat case_if; try (by apply wellFormed_settle).
  apply wellFormed_setTimeout; [| exact Hw]. cbn. by eapply lookup_lt_Some.
Qed.

Lemma wellFormed_onDone rt k w : wellFormed w -> wellFormed (onDone rt k w).
Proof.
  intros Hw. unfold onDone.
  destruct (World.attempts w !! k) as [a |]; [| exact Hw].
  case_if; [exact Hw |]. cbn zeta.
  assert (wellFormed (World.alterAttempt (Attempt.setOutcome Outcome.Done) k w)) as Hw'
      by (by apply wellFormed_alterAttempt).
  case_if; [by apply wellFormed_retryIfPossible | by apply wellFormed_settle].
Qed.

Lemma wellFormed_makeRequest this method path params attempt w :
  wellFormed w -> wellFormed (_makeRequest this method path params attempt w).2.
Proof.
  intros Hw.
  destruct (_makeRequest_attempts this method path params attempt w)
    as (a & Hatts & _ & _ & _ & _ & _ & _ & _ & _ & _ & Hfw).
  unfold wellFormed. rewrite _makeRequest_timers, Hatts, length_app. cbn [length].
  destruct (wellFormed_mono (length (World.attempts w)) (length (World.attempts w) + 1)
              (World.timers w) (World.attempts w)) as [Ht Hf]; [lia | exact Hw |].
  split; [exact Ht |].
  apply Forall_app. split; [exact Hf |].
  constructor; [| constructor]. rewrite Hfw. constructor.
Qed.

Lemma wellFormed_doRetry k newParams w : wellFormed w -> wellFormed (doRetry k newParams w).
Proof.
  intros Hw.
  destruct (World.attempts w !! k) as [a |] eqn:Ha; [| unfold doRetry; by rewrite Ha].
  destruct (doRetry_attempts k newParams w a Ha)
    as (a' & Hatts & _ & _ & _ & _ & _ & _ & _ & Hfw & _).
  unfold wellFormed. rewrite doRetry_timers, Hatts, length_app. cbn [length].
  pose proof (lookup_lt_Some _ _ _ Ha) as Hk.
  destruct (wellFormed_mono (length (World.attempts w)) (length (World.attempts w) + 1)
              (World.timers w) (World.attempts w)) as [Ht Hf]; [lia | exact Hw |].
  split; [exact Ht |].
  apply Forall_app. split; [exact Hf |].
  constructor; [| constructor]. rewrite Hfw.
  constructor; [lia |].
  rewrite Forall_lookup in Hf. exact (Hf _ _ Ha).
Qed.

Lemma wellFormed_step rt w e : wellFormed w -> wellFormed (step rt w e).
Proof.
  intros Hw. destruct e as [j v | j | j | j | t]; cbn [step].
  - set (w1 := World.alterAttempt _ j w).
    assert (wellFormed w1) as Hw1 by (by apply wellFormed_alterAttempt).
    unfold onReadyStateChange.
    destruct (World.attempts w1 !! j) as [a |] eqn:Ha; [| exact Hw1].
    destruct (XhrView.readyState _); try exact Hw1.
    apply wellFormed_setTimeout; [| exact Hw1]. cbn [taskAttempt].
    by eapply lookup_lt_Some.
  - by apply wellFormed_retryIfPossible.
  - by apply wellFormed_retryIfPossible.
  - by apply wellFormed_retryIfPossible.
  - unfold runTimer. destruct (World.timers w !! t) as [tm |] eqn:Htm; [| exact Hw].
    case_if; [exact Hw |].
    assert (wellFormed
              (World.setTimers
                 (<[t := Timer.mk (Timer.task tm) (Timer.delay tm) true]> (World.timers w)) w))
      as Hw'.
    { destruct Hw as [Ht Hf]. split; [| exact Hf]. cbn.
      apply Forall_insert; [exact Ht |]. cbn.
      rewrite Forall_lookup in Ht. exact (Ht _ _ Htm). }
    destruct (Timer.task tm) as [k | k newParams].
    + by apply wellFormed_onDone.
    + by apply wellFormed_doRetry.
Qed.

(** Whatever is requested and whatever happens on a well-formed page, in
    particular on one that started empty, the page stays well formed. *)
Lemma wellFormed_run rt evs w : wellFormed w -> wellFormed (run rt w evs).
Proof.
  unfold run. revert w. induction evs as [| e evs IH]; intros w Hw; cbn [foldl];
    [exact Hw |].
  apply IH. by apply wellFormed_step.
Qed.

(* ================================================================== *)
(** * A settled promise stays settled                                  *)
(* ================================================================== *)

(** X1. Once the promise of an attempt is fulfilled or rejected, no event
    changes it any more: whatever [resolve] and [reject] are called with
    later, the first settlement is the one the caller sees. *)
Theorem settlement_is_final rt w evs k p
    (Hp : promiseOf k w = Some p) (Hsettled : p <> Pending) :
  promiseOf k (run rt w evs) = Some p.
Proof.
  unfold run. revert w Hp. induction evs as [| e evs IH]; intros w Hp; cbn [foldl];
    [exact Hp |].
  apply IH. by apply step_settled.
Qed.

(** The request rejected by an error stays rejected when [onDone] runs. *)
Lemma settlement_is_final_witness :
  let rt := Runtime.mk (fun _ => None) in
  let w := run rt (posted 0) [ReadyStateChange 0 (doneView 200); ErrorEvent 0] in
  promiseOf 0 w <> Some Pending
  /\ promiseOf 0 (run rt w [TimerFired 0]) = promiseOf 0 w.
Proof.
  cbn zeta.
  set (rt := Runtime.mk (fun _ => None)).
  set (w := run rt (posted 0) [ReadyStateChange 0 (doneView 200); ErrorEvent 0]).
  destruct (promiseOf 0 w) as [p |] eqn:Hp; [| vm_compute in Hp; discriminate].
  assert (p <> Pending) as Hne.
  { intros ->. vm_compute in Hp. discriminate. }
  split; [congruence |].
  exact (settlement_is_final rt w [TimerFired 0] 0%nat p Hp Hne).
Defined.

(* ================================================================== *)
(** * The latch of onDone                                              *)
(* ================================================================== *)

Lemma settle_outcome j s w k :
  outcomeOf k (settle j s w) = outcomeOf k w.
Proof.
  unfold outcomeOf, settle.
  destruct (World.attempts w !! j); [by apply settleChain_proj | reflexivity].
Qed.

Lemma retryIfPossible_outcome j cause res w k :
  outcomeOf k (retryIfPossible j cause res w) = outcomeOf k w.
Proof.
  unfold retryIfPossible.
  destruct (World.attempts w !! j) as [a |]; [| reflexivity]. cbn zeta.
  repeat case_if; try apply settle_outcome. reflexivity.
Qed.

(** A latch that is set stays as it is. *)
Lemma onDone_latch_stable rt j w k o :
  outcomeOf k w = Some o -> o <> Outcome.None -> outcomeOf k (onDone rt j w) = Some o.
Proof.
  intros Ho Hne. unfold onDone.
  destruct (World.attempts w !! j) as [a |] eqn:Ha; [| exact Ho].
  case_if; [exact Ho |]. cbn zeta.
  assert (j <> k) as Hjk.
  { intros ->. unfold outcomeOf in Ho. rewrite Ha in Ho. cbn in Ho.
    injection Ho as <-. by destruct (Attempt.outcome a). }
  assert (outcomeOf k (World.alterAttempt (Attempt.setOutcome Outcome.Done) j w) = Some o)
    as Ho'.
  { unfold outcomeOf. cbn. by rewrite list_lookup_alter_ne. }
  case_if; [by rewrite retryIfPossible_outcome | unfold resolve; by rewrite settle_outcome].
Qed.

Lemma step_latch_stable rt w e k o :
  outcomeOf k w = Some o -> o <> Outcome.None -> outcomeOf k (step rt w e) = Some o.
Proof.
  intros Ho Hne. destruct e as [j v | j | j | j | t]; cbn [step].
  - unfold outcomeOf. rewrite onReadyStateChange_attempts.
    by rewrite alterAttempt_proj.
  - unfold onError. by rewrite retryIfPossible_outcome.
  - unfold onAbort. by rewrite retryIfPossible_outcome.
  - unfold onTimeout. by rewrite retryIfPossible_outcome.
  - unfold runTimer. destruct (World.timers w !! t) as [tm |]; [| exact Ho].
    case_if; [exact Ho |].
    destruct (Timer.task tm) as [j | j newParams].
    + by apply onDone_latch_stable.
    + unfold outcomeOf. rewrite doRetry_proj; [exact Ho |].
      unfold outcomeOf in Ho. cbn.
      destruct (World.attempts w !! k); [eauto | discriminate].
Qed.

Lemma run_latch_stable rt evs w k o :
  outcomeOf k w = Some o -> o <> Outcome.None -> outcomeOf k (run rt w evs) = Some o.
Proof.
  unfold run. revert w. induction evs as [| e evs IH]; intros w Ho Hne; cbn [foldl];
    [exact Ho |].
  apply IH; [by apply step_latch_stable | exact Hne].
Qed.

(** After [onDone] the latch of the attempt is set. *)
Lemma onDone_sets_latch rt k w a :
  World.attempts w !! k = Some a ->
  exists o, outcomeOf k (onDone rt k w) = Some o /\ o <> Outcome.None.
Proof.
  intros Ha. unfold onDone. rewrite Ha.
  destruct (Attempt.outcome a) eqn:Ho; cbn [Outcome.eqb Outcome.value Z.eqb negb];
    try (eexists; split; [unfold outcomeOf; rewrite Ha; cbn; by rewrite Ho | discriminate]).
  cbn zeta. exists Outcome.Done. split; [| discriminate].
  assert (outcomeOf k (World.alterAttempt (Attempt.setOutcome Outcome.Done) k w)
          = Some Outcome.Done) as Hd.
  { unfold outcomeOf. cbn. by rewrite list_lookup_alter_eq, Ha. }
  case_if; [by rewrite retryIfPossible_outcome | unfold resolve; by rewrite settle_outcome].
Qed.

(** X2. [onDone] handles an attempt once: after it has run for an attempt,
    whatever happens next, running it again for that attempt (a second Done
    notification sets a second timer) changes nothing. *)
Theorem onDone_runs_once rt k w evs
    (Hk : is_Some (World.attempts w !! k)) :
  let w' := run rt (onDone rt k w) evs in
  onDone rt k w' = w'.
Proof.
  intros w'. destruct Hk as [a Ha].
  destruct (onDone_sets_latch rt k w a Ha) as (o & Ho & Hne).
  pose proof (run_latch_stable rt evs _ k o Ho Hne) as Ho'. fold w' in Ho'.
  unfold onDone. unfold outcomeOf in Ho'.
  destruct (World.attempts w' !! k) as [a' |]; [| reflexivity].
  cbn in Ho'. injection Ho' as Ho'. rewrite Ho'.
  by destruct o.
Qed.

(** Two Done notifications for one response: when the second timer comes
    due the latch is set. *)
Lemma onDone_runs_once_witness :
  let rt := Runtime.mk (fun _ => None) in
  let w := run rt (posted 0)
               [ReadyStateChange 0 (doneView 200); ReadyStateChange 0 (doneView 200)] in
  is_Some (World.attempts w !! 0%nat)
  /\ onDone rt 0 (run rt (onDone rt 0 w) []) = run rt (onDone rt 0 w) [].
Proof.
  cbn zeta.
  assert (is_Some
            (World.attempts
               (run (Runtime.mk (fun _ => None)) (posted 0)
                  [ReadyStateChange 0 (doneView 200); ReadyStateChange 0 (doneView 200)])
             !! 0%nat)) as Hk by (vm_compute; eauto).
  split; [exact Hk |].
  exact (onDone_runs_once (Runtime.mk (fun _ => None)) 0%nat _ [] Hk).
Defined.

(* ================================================================== *)
(** * The set-up of a transport                                        *)
(* ================================================================== *)

Lemma foldl_call_timeout (f : string * string -> XhrCall) l x :
  XMLHttpRequest.timeout (foldl (fun x h => XMLHttpRequest.call (f h) x) x l)
  = XMLHttpRequest.timeout x.
Proof.
  revert x. induction l as [| h l IH]; intros x; cbn [foldl]; [reflexivity |].
  by rewrite IH.
Qed.

Lemma foldl_call_responseType (f : string * string -> XhrCall) l x :
  XMLHttpRequest.responseType (foldl (fun x h => XMLHttpRequest.call (f h) x) x l)
  = XMLHttpRequest.responseType x.
Proof.
  revert x. induction l as [| h l IH]; intros x; cbn [foldl]; [reflexivity |].
  by rewrite IH.
Qed.

(** The calls that set a transport up, in closed form. *)
Lemma newTransport_calls this method path params handle :
  XMLHttpRequest.calls (newTransport this method path params handle)
  = listeners ++ [Open method (urlOf this path)]
    ++ map (fun h => SetRequestHeader h.1 h.2)
         (Headers.entries
            (Headers.spread (HttpClient.headers this)
               (orNull (HttpRequestOptions.headers params) ∅)))
    ++ match HttpRequestOptions.body params with
       | Some body =>
           if truthyData (Some body) && negb (methodIs "GET" method)
              && negb (methodIs "HEAD" method)
           then [Send body] else []
       | None => []
       end.
Proof.
  unfold newTransport. cbn zeta.
  set (headers := Headers.entries _).
  set (x := XMLHttpRequest.call (Open _ _) _).
  assert (XMLHttpRequest.calls x = listeners ++ [Open method (urlOf this path)]) as Hx.
  { unfold x, urlOf. destruct (HttpRequestOptions.responseType params) as [r |];
      repeat case_if; reflexivity. }
  assert (XMLHttpRequest.calls
            (foldl (fun x h => XMLHttpRequest.call (SetRequestHeader h.1 h.2) x) x headers)
          = listeners ++ [Open method (urlOf this path)]
            ++ map (fun h => SetRequestHeader h.1 h.2) headers) as Hfold.
  { rewrite (foldl_call_calls (fun h => SetRequestHeader h.1 h.2)), Hx.
    by rewrite <- app_assoc. }
  destruct (HttpRequestOptions.body params) as [body |].
  - case_if.
    + cbn [XMLHttpRequest.call XMLHttpRequest.calls]. rewrite Hfold.
      by rewrite <- !app_assoc.
    + rewrite Hfold. by rewrite app_nil_r.
  - rewrite Hfold. by rewrite app_nil_r.
Qed.

(** X3. [_makeRequest] attaches every listener before it opens the
    transport, opens it with the method and the URL built from the scheme,
    host, port and path of the client, then sets headers and nothing else,
    and calls [send], if at all, last and with the body of the options. *)
Theorem transport_setup_order this method path params handle :
  exists headerCalls sendCalls,
    XMLHttpRequest.calls (newTransport this method path params handle)
    = listeners ++ [Open method (urlOf this path)] ++ headerCalls ++ sendCalls
    /\ forallb isSetRequestHeader headerCalls = true
    /\ (sendCalls = []
        \/ exists body,
            HttpRequestOptions.body params = Some body /\ sendCalls = [Send body]).
Proof.
  rewrite newTransport_calls.
  eexists. eexists. split; [reflexivity |]. split.
  - induction (Headers.entries _) as [| h l IH]; [reflexivity | exact IH].
  - destruct (HttpRequestOptions.body params) as [body |]; [| by left].
    case_if; [right; eauto | by left].
Qed.

Lemma elem_of_newTransport_header this method path params handle name value :
  SetRequestHeader name value
    ∈ XMLHttpRequest.calls (newTransport this method path params handle)
  <-> Headers.spread (HttpClient.headers this) (orNull (HttpRequestOptions.headers params) ∅)
        !! name
      = Some value.
Proof.
  rewrite newTransport_calls, <- elem_of_entries.
  rewrite !elem_of_app. split.
  - intros [H | [H | [H | H]]].
    + unfold listeners in H. repeat (apply elem_of_cons in H as [H | H]; [discriminate |]).
      by apply elem_of_nil in H.
    + apply elem_of_cons in H as [H | H]; [discriminate | by apply elem_of_nil in H].
    + apply list_elem_of_fmap in H as ([n v] & Heq & Hin). cbn in Heq.
      by injection Heq as -> ->.
    + destruct (HttpRequestOptions.body params) as [body |];
        [| by apply elem_of_nil in H].
      match type of H with
      | context [if ?b then _ else _] => destruct b
      end; [| by apply elem_of_nil in H].
      apply elem_of_cons in H as [H | H]; [discriminate | by apply elem_of_nil in H].
  - intros H. right. right. left.
    apply list_elem_of_fmap. by exists (name, value).
Qed.

Lemma headerNames_app l1 l2 : headerNames (l1 ++ l2) = headerNames l1 ++ headerNames l2.
Proof. unfold headerNames. apply omap_app. Qed.

Lemma headerNames_headers (l : list (string * string)) :
  headerNames (map (fun h => SetRequestHeader h.1 h.2) l) = l.*1.
Proof. induction l as [| h l IH]; cbn; [reflexivity | by rewrite <- IH]. Qed.

(** X4. The request headers are the headers of the client overridden by
    those of the call: a header is set to a value exactly when the call-site
    headers hold that value under the name, or hold nothing under it and the
    client's headers hold the value; and no name is set twice. *)
Theorem request_headers_merged this method path params handle :
  (forall name value,
      SetRequestHeader name value
        ∈ XMLHttpRequest.calls (newTransport this method path params handle)
      <-> headerOf this params name = Some value)
  /\ NoDup (headerNames (XMLHttpRequest.calls (newTransport this method path params handle))).
Proof.
  split.
  - intros name value. rewrite elem_of_newTransport_header.
    unfold headerOf. by rewrite lookup_spread.
  - rewrite newTransport_calls. rewrite !headerNames_app, headerNames_headers.
    replace (headerNames listeners) with (@nil string) by reflexivity.
    replace (headerNames [Open method (urlOf this path)]) with (@nil string) by reflexivity.
    cbn [app].
    replace (headerNames _) with (@nil string).
    + rewrite app_nil_r, entries_keys. apply NoDup_keys.
    + destruct (HttpRequestOptions.body params) as [body |]; [case_if |]; reflexivity.
Qed.

Lemma newTransport_sends_last this method path params handle :
  truthyData (HttpRequestOptions.body params) = true ->
  method <> "GET" -> method <> "HEAD" ->
  exists body before,
    HttpRequestOptions.body params = Some body
    /\ XMLHttpRequest.calls (newTransport this method path params handle)
       = before ++ [Send body]
    /\ existsb isSend before = false.
Proof.
  intros Hbody Hget Hhead.
  rewrite newTransport_calls.
  destruct (HttpRequestOptions.body params) as [body |]; [| discriminate].
  exists body. eexists. split; [reflexivity |].
  rewrite Hbody.
  replace (methodIs "GET" method) with false
    by (symmetry; by apply String.eqb_neq).
  replace (methodIs "HEAD" method) with false
    by (symmetry; by apply String.eqb_neq).
  cbn [andb negb]. rewrite !app_assoc. split; [reflexivity |].
  rewrite !existsb_app. cbn. apply existsb_isSend_headers.
Qed.

(** X5. When the options hold a body that is not the empty string and the
    method is neither GET nor HEAD, [send] is called exactly once, as the
    last call, with that body. *)
Theorem body_sent_once this method path params handle
    (Hbody : truthyData (HttpRequestOptions.body params) = true)
    (Hget : method <> "GET") (Hhead : method <> "HEAD") :
  exists body before,
    HttpRequestOptions.body params = Some body
    /\ XMLHttpRequest.calls (newTransport this method path params handle)
       = before ++ [Send body]
    /\ existsb isSend before = false.
Proof. by apply newTransport_sends_last. Qed.

Lemma body_sent_once_witness :
  exists before,
    XMLHttpRequest.calls (newTransport (exampleClient 0) "POST" "/p" exampleOptions 0)
    = before ++ [Send (DString "{}")].
Proof.
  destruct (body_sent_once (exampleClient 0) "POST" "/p" exampleOptions 0)
    as (body & before & Hb & Hcalls & _).
  - reflexivity.
  - discriminate.
  - discriminate.
  - exists before. injection Hb as <-. exact Hcalls.
Defined.

(** X6. The timeout of the transport is the timeout of the call when the
    options give one, even 0, which switches the default of the client off,
    and the timeout of the client otherwise; the response type is the one of
    the options, or the empty string. *)
Theorem transport_timeout_and_type this method path params handle :
  XMLHttpRequest.timeout (newTransport this method path params handle)
  = orNull (HttpRequestOptions.timeout params) (HttpClient.timeout this)
  /\ XMLHttpRequest.responseType (newTransport this method path params handle)
     = default EmptyString (HttpRequestOptions.responseType params).
Proof.
  unfold newTransport. cbn zeta.
  set (t := orNull _ _).
  split.
  - destruct (HttpRequestOptions.body params) as [body |]; [case_if |];
      cbn [XMLHttpRequest.call XMLHttpRequest.timeout];
      rewrite foldl_call_timeout; cbn;
      destruct (HttpRequestOptions.responseType params) as [r |];
      destruct (Z.eqb_spec t 0) as [-> |]; repeat case_if; reflexivity.
  - destruct (HttpRequestOptions.body params) as [body |]; [case_if |];
      cbn [XMLHttpRequest.call XMLHttpRequest.responseType];
      rewrite foldl_call_responseType; cbn;
      destruct (HttpRequestOptions.responseType params) as [r |]; cbn;
      repeat case_if; try reflexivity;
      match goal with
      | H : (?r =? ""%string)%string = true |- _ => apply String.eqb_eq in H; by subst
      end.
Qed.

(* ================================================================== *)
(** * What a retry repeats                                             *)
(* ================================================================== *)

Lemma doRetry_eq k newParams w a :
  World.attempts w !! k = Some a ->
  doRetry k newParams w
  = World.mk (allocateRequestId (World.nextRequestId w)).2
      (World.attempts w
       ++ [Attempt.mk (Attempt.this a) (World.nextRequestId w) 1 (Attempt.method a)
             (Attempt.path a) newParams
             (newTransport (Attempt.this a) (Attempt.method a) (Attempt.path a) newParams
                (length (World.attempts w)))
             Outcome.None Pending (k :: Attempt.forwardTo a)])
      (World.timers w) (World.settleLog w).
Proof.
  intros Ha. unfold doRetry. rewrite Ha. unfold _makeRequest.
  cbn [allocateRequestId World.setNextRequestId World.attempts World.setAttempts
         World.alterAttempt World.nextRequestId World.timers World.settleLog fst snd].
  cbv zeta.
  cbn [World.setNextRequestId World.attempts World.setAttempts
         World.alterAttempt World.nextRequestId World.timers World.settleLog fst snd].
  unfold World.alterAttempt, World.setAttempts, World.setNextRequestId.
  cbn [World.attempts World.nextRequestId World.timers World.settleLog].
  replace (length (World.attempts w)) with (length (World.attempts w) + 0)%nat at 1 by lia.
  rewrite alter_app_r. reflexivity.
Qed.

(** The step from a failure that is retried to the attempt that retries it. *)
Lemma retry_step rt w k a cause res :
  World.attempts w !! k = Some a ->
  retriesOf a <> 0 ->
  isRetryableOf a (Attempt.xhr a) cause res = true ->
  step rt (retryIfPossible k cause res w) (TimerFired (length (World.timers w)))
  = World.mk (allocateRequestId (World.nextRequestId w)).2
      (World.attempts w
       ++ [retryOf a k (length (World.attempts w)) (World.nextRequestId w)])
      (World.timers w
       ++ [Timer.mk (DoRetry k (HttpRequestOptions.withRetries (retriesOf a - 1)
                                   (Attempt.params a)))
                    (backoff (Attempt.attempt a)) true])
      (World.settleLog w).
Proof.
  intros Ha Hr Hpol. unfold retryIfPossible. rewrite Ha. cbn zeta. rewrite Hpol.
  replace (negb (retriesOf a =? 0)) with true
    by (symmetry; apply negb_true_iff, Z.eqb_neq; exact Hr).
  cbn [step]. unfold runTimer, setTimeout.
  destruct w as [next atts tms log].
  cbn [World.setTimers World.attempts World.timers World.nextRequestId World.settleLog] in *.
  rewrite lookup_app_r by lia. rewrite Nat.sub_diag.
  cbn [lookup list_lookup Timer.fired Timer.task Timer.delay].
  rewrite (doRetry_eq k _ _ a) by exact Ha.
  cbn [World.setTimers World.attempts World.timers World.nextRequestId World.settleLog].
  replace (length tms) with (length tms + 0)%nat at 1 by lia.
  rewrite insert_app_r. reflexivity.
Qed.

Lemma newTransport_handle this method path params handle :
  XMLHttpRequest.handle (newTransport this method path params handle) = handle.
Proof.
  unfold newTransport. cbn zeta.
  assert (forall (f : string * string -> XhrCall) l x,
             XMLHttpRequest.handle (foldl (fun x h => XMLHttpRequest.call (f h) x) x l)
             = XMLHttpRequest.handle x) as Hfold.
  { intros f l. induction l as [| h l IH]; intros x; cbn [foldl]; [reflexivity |].
    by rewrite IH. }
  destruct (HttpRequestOptions.body params) as [body |]; [case_if |];
    cbn [XMLHttpRequest.call XMLHttpRequest.handle];
    rewrite Hfold; cbn;
    destruct (HttpRequestOptions.responseType params) as [r |];
    repeat case_if; reflexivity.
Qed.

(** X7. A retry repeats the request.  When an attempt fails with a budget
    other than 0 and the policy agrees, then, once the timer of the retry has
    come due, the page has one more attempt: for the same client, method and
    path, with the options of the failed attempt except for the budget, which
    is one less, numbered 1 again, its promise forwarding to the failed
    attempt; and its transport is set up by the same calls, so with the same
    URL, headers and body. *)
Theorem retry_repeats_request rt w k a cause res
    (Ha : World.attempts w !! k = Some a)
    (Hr : retriesOf a <> 0)
    (Hpol : isRetryableOf a (Attempt.xhr a) cause res = true) :
  let w' := step rt (retryIfPossible k cause res w) (TimerFired (length (World.timers w))) in
  let a' := retryOf a k (length (World.attempts w)) (World.nextRequestId w) in
  World.attempts w' = World.attempts w ++ [a']
  /\ retriesOf a' = retriesOf a - 1
  /\ isRetryableOf a' = isRetryableOf a
  /\ XMLHttpRequest.calls (Attempt.xhr a')
     = XMLHttpRequest.calls
         (newTransport (Attempt.this a) (Attempt.method a) (Attempt.path a)
            (Attempt.params a) k)
  /\ World.settleLog w' = World.settleLog w.
Proof.
  intros w' a'. unfold w'. rewrite (retry_step rt w k a cause res Ha Hr Hpol).
  cbn [World.attempts World.settleLog]. fold a'.
  repeat split.
  unfold a', retryOf. cbn [Attempt.xhr]. by rewrite !newTransport_calls.
Qed.

Lemma retry_repeats_request_witness :
  let rt := Runtime.mk (fun _ => None) in
  let w' := step rt (retryIfPossible 0 XhrFailures.Error None (posted 1)) (TimerFired 0) in
  map retriesOf (World.attempts w') = [1; 0].
Proof.
  cbn zeta.
  destruct (World.attempts (posted 1) !! 0%nat) as [a |] eqn:Ha;
    [| vm_compute in Ha; discriminate].
  pose proof (retry_repeats_request (Runtime.mk (fun _ => None)) (posted 1) 0%nat a
                XhrFailures.Error None Ha) as H.
  cbn zeta in H.
  destruct H as (Hatts & _).
  - vm_compute in Ha. injection Ha as <-. vm_compute. discriminate.
  - vm_compute in Ha. injection Ha as <-. reflexivity.
  - change (length (World.timers (posted 1))) with 0%nat in Hatts.
    rewrite Hatts. vm_compute in Ha. injection Ha as <-. reflexivity.
Defined.

(* ================================================================== *)
(** * The default policy in the executor                               *)
(* ================================================================== *)

(** X8. With the default policy a failure by status (400 or more) or by
    abort is never retried, whatever the budget: the promise of the attempt
    is rejected with that cause and no timer is set.  A failure by error or
    timeout is retried as long as the budget is not 0: nothing is settled,
    and the timer of a retry with one retry less is set, due after the
    backoff of the attempt. *)
Theorem default_policy_in_executor w k a res
    (Ha : World.attempts w !! k = Some a)
    (Hp : Attempt.promise a = Pending)
    (Hpol : forall x cause r, isRetryableOf a x cause r = retryNetworkErrors x cause r) :
  (forall cause,
      cause = XhrFailures.Status \/ cause = XhrFailures.Abort ->
      promiseOf k (retryIfPossible k cause res w) = Some (Rejected (rejection (Attempt.xhr a) cause))
      /\ World.timers (retryIfPossible k cause res w) = World.timers w)
  /\ (forall cause,
         cause = XhrFailures.Error \/ cause = XhrFailures.Timeout ->
         retriesOf a <> 0 ->
         retryIfPossible k cause res w
         = setTimeout
             (DoRetry k (HttpRequestOptions.withRetries (retriesOf a - 1) (Attempt.params a)))
             (backoff (Attempt.attempt a)) w).
Proof.
  split.
  - intros cause Hc.
    assert (isRetryableOf a (Attempt.xhr a) cause res = false) as Hno
        by (rewrite Hpol; by destruct Hc as [-> | ->]).
    split; [apply retryIfPossible_gives_up; auto |].
    unfold retryIfPossible. rewrite Ha. cbn zeta. rewrite Hno.
    case_if; apply settle_timers.
  - intros cause Hc Hr.
    assert (isRetryableOf a (Attempt.xhr a) cause res = true) as Hyes
        by (rewrite Hpol; by destruct Hc as [-> | ->]).
    unfold retryIfPossible. rewrite Ha. cbn zeta. rewrite Hyes.
    replace (negb (retriesOf a =? 0)) with true
      by (symmetry; apply negb_true_iff, Z.eqb_neq; exact Hr).
    reflexivity.
Qed.

(** A failure by status on a client with two retries and the default
    policy. *)
Lemma default_policy_in_executor_witness :
  exists x,
    promiseOf 0 (retryIfPossible 0 XhrFailures.Status None (posted 2))
    = Some (Rejected (rejection x XhrFailures.Status)).
Proof.
  destruct (World.attempts (posted 2) !! 0%nat) as [a |] eqn:Ha;
    [| vm_compute in Ha; discriminate].
  exists (Attempt.xhr a).
  destruct (default_policy_in_executor (posted 2) 0%nat a None Ha) as [H _].
  - vm_compute in Ha. injection Ha as <-. reflexivity.
  - intros x cause r. vm_compute in Ha. injection Ha as <-. reflexivity.
  - exact (proj1 (H XhrFailures.Status (or_introl eq_refl))).
Defined.

(* ================================================================== *)
(** * Retries that end in an answer, and retries without end           *)
(* ================================================================== *)

(** The events of an answer lead to the branch of [onDone] on the status, in
    the world with the view, the latch and the fired timer. *)
Lemma run_answer rt v k w a :
  XhrView.readyState v = ReadyState.Done ->
  World.attempts w !! k = Some a ->
  Attempt.outcome a = Outcome.None ->
  run rt w (answerEvents v k (length (World.timers w)))
  = (if 400 <=? XhrView.status v
     then retryIfPossible k XhrFailures.Status
            (Some (buildResponse rt (XMLHttpRequest.setView v (Attempt.xhr a))))
     else resolve k (buildResponse rt (XMLHttpRequest.setView v (Attempt.xhr a))))
      (statusFailed v k w).
Proof.
  intros Hdone Ha Ho. destruct w as [next atts tms log].
  cbn [World.attempts World.timers] in *.
  cbn [answerEvents run foldl step].
  unfold onReadyStateChange, World.alterAttempt, World.setAttempts.
  cbn [World.attempts World.timers World.nextRequestId World.settleLog].
  rewrite list_lookup_alter_eq, Ha. cbn [fmap option_fmap option_map].
  cbn [Attempt.setXhr Attempt.xhr XMLHttpRequest.setView XMLHttpRequest.view].
  rewrite Hdone.
  unfold runTimer, setTimeout, World.setTimers.
  cbn [World.attempts World.timers World.nextRequestId World.settleLog].
  rewrite lookup_app_r by lia. rewrite Nat.sub_diag.
  cbn [lookup list_lookup Timer.fired Timer.task Timer.delay].
  unfold onDone.
  cbn [World.attempts World.timers World.nextRequestId World.settleLog].
  rewrite list_lookup_alter_eq, Ha. cbn [fmap option_fmap option_map].
  cbn [Attempt.setXhr Attempt.outcome]. rewrite Ho.
  cbn [Outcome.eqb Outcome.value Z.eqb negb].
  cbn zeta. rewrite buildResponse_statusCode.
  unfold statusFailed, World.alterAttempt, World.setAttempts.
  cbn [World.attempts World.timers World.nextRequestId World.settleLog].
  rewrite list_alter_alter_eq.
  replace (length tms) with (length tms + 0)%nat by lia.
  rewrite insert_app_r.
  match goal with
  | |- context [400 <=? ?s] => change s with (XhrView.status v)
  end.
  destruct (400 <=? XhrView.status v); reflexivity.
Qed.

Lemma standing_statusFailed r cause v w k chain :
  standing r cause w k chain -> standing r cause (statusFailed v k w) k chain.
Proof.
  intros (a & Ha & Hlen & HR & Hpol & Hh & Hfw & Hpend & Hnd).
  exists (Attempt.setOutcome Outcome.Done
            (Attempt.setXhr (XMLHttpRequest.setView v (Attempt.xhr a)) a)).
  cbn [statusFailed World.attempts].
  split; [by rewrite list_lookup_alter_eq, Ha |].
  split; [by rewrite length_alter |].
  repeat (split; [assumption |]).
  split; [| assumption].
  eapply Forall_impl; [exact Hpend |]. cbn. intros j Hj.
  unfold promiseOf in *. cbn [statusFailed World.attempts].
  by rewrite lookup_alter_same.
Qed.

Lemma fail_standing rt cause v r w k chain :
  XhrView.readyState v = ReadyState.Done ->
  400 <= XhrView.status v ->
  standing r cause w k chain ->
  outcomeOf k w = Some Outcome.None ->
  exists w1 res,
    run rt w (failureEvents cause v k (length (World.timers w)))
    = retryIfPossible k cause res w1
    /\ standing r cause w1 k chain
    /\ World.settleLog w1 = World.settleLog w
    /\ length (World.timers w1) = (length (World.timers w) + timersOf cause)%nat.
Proof.
  intros Hdone Hst Hst' Ho.
  destruct cause.
  - destruct Hst' as (a & Ha & Hrest).
    exists (statusFailed v k w).
    exists (Some (buildResponse rt (XMLHttpRequest.setView v (Attempt.xhr a)))).
    split.
    { apply run_status_failure; try assumption.
      unfold outcomeOf in Ho. rewrite Ha in Ho. by injection Ho. }
    split; [apply standing_statusFailed; by exists a |].
    split; [reflexivity |].
    cbn [statusFailed World.timers timersOf]. by rewrite length_app.
  - exists w, None. cbn. repeat split; try done; lia.
  - exists w, None. cbn. repeat split; try done; lia.
  - exists w, None. cbn. repeat split; try done; lia.
Qed.

Lemma retry_standing rt r cause w k chain res :
  standing r cause w k chain ->
  r <> 0 ->
  let w3 := step rt (retryIfPossible k cause res w) (TimerFired (length (World.timers w))) in
  standing (r - 1) cause w3 (S k) (k :: chain)
  /\ outcomeOf (S k) w3 = Some Outcome.None
  /\ World.settleLog w3 = World.settleLog w
  /\ length (World.timers w3) = S (length (World.timers w)).
Proof.
  intros (a & Ha & Hlen & HR & Hpol & Hh & Hfw & Hpend & Hnd) Hr w3.
  unfold w3. rewrite (retry_step rt w k a cause res Ha) by (try apply Hpol; lia).
  set (a' := retryOf a k (length (World.attempts w)) (World.nextRequestId w)).
  assert ((World.attempts w ++ [a']) !! S k = Some a') as Ha'.
  { rewrite lookup_app_r by lia. by rewrite Hlen, Nat.sub_diag. }
  split; [| split; [| split]].
  - exists a'. cbn [World.attempts].
    split; [exact Ha' |].
    split; [rewrite length_app; cbn; lia |].
    split; [unfold a', retryOf, retriesOf at 1; cbn; lia |].
    split; [exact Hpol |].
    split; [unfold a', retryOf; cbn [Attempt.xhr]; by rewrite newTransport_handle, Hlen |].
    split; [unfold a', retryOf; cbn; by rewrite Hfw |].
    split.
    + constructor.
      * unfold promiseOf. cbn [World.attempts]. by rewrite Ha'.
      * eapply Forall_impl; [exact Hpend |]. cbn. intros j Hj.
        unfold promiseOf in *. cbn [World.attempts].
        rewrite lookup_app_l; [exact Hj |].
        destruct (World.attempts w !! j) eqn:E; [| discriminate].
        by eapply lookup_lt_Some.
    + apply NoDup_cons. split; [| exact Hnd].
      intros Hin. rewrite Forall_forall in Hpend. specialize (Hpend _ Hin).
      unfold promiseOf in Hpend.
      destruct (World.attempts w !! S k) eqn:E; [| discriminate].
      apply lookup_lt_Some in E. lia.
  - unfold outcomeOf. cbn [World.attempts]. by rewrite Ha'.
  - reflexivity.
  - cbn [World.timers]. rewrite length_app. cbn. lia.
Qed.

(** [n] rounds of failure and retry, none of which finds the budget at 0:
    the attempt [k + n] stands with the budget less [n], nothing is settled. *)
Lemma rounds_standing rt cause v :
  XhrView.readyState v = ReadyState.Done ->
  400 <= XhrView.status v ->
  forall n r w k chain,
    standing r cause w k chain ->
    outcomeOf k w = Some Outcome.None ->
    (forall i, (i < n)%nat -> r - Z.of_nat i <> 0) ->
    let w' := run rt w (retryingScript cause v n k (length (World.timers w))) in
    standing (r - Z.of_nat n) cause w' (k + n) (rev (seq k n) ++ chain)
    /\ outcomeOf (k + n) w' = Some Outcome.None
    /\ World.settleLog w' = World.settleLog w
    /\ length (World.timers w')
       = (length (World.timers w) + timersOfRounds cause n)%nat.
Proof.
  intros Hdone Hst. induction n as [| n IH]; intros r w k chain Hs Ho Hr w'.
  - subst w'. cbn [retryingScript run foldl seq rev app timersOfRounds Nat.mul].
    rewrite Z.sub_0_r, !Nat.add_0_r. done.
  - subst w'. cbn [retryingScript]. rewrite run_app.
    destruct (fail_standing rt cause v r w k chain Hdone Hst Hs Ho)
      as (w1 & res & -> & Hs1 & Hlog1 & Hlen1).
    rewrite <- Hlen1.
    change (run rt ?w0 (?e :: ?evs)) with (run rt (step rt w0 e) evs).
    assert (r <> 0) as Hr0.
    { specialize (Hr 0%nat ltac:(lia)). cbn in Hr. lia. }
    destruct (retry_standing rt r cause w1 k chain res Hs1 Hr0)
      as (Hs3 & Ho3 & Hlog3 & Hlen3).
    set (w3 := step rt (retryIfPossible k cause res w1) (TimerFired (length (World.timers w1))))
      in *.
    rewrite <- Hlen3.
    destruct (IH (r - 1) w3 (S k) (k :: chain) Hs3 Ho3) as (Hs' & Ho' & Hlog' & Hlen').
    { intros i Hi. specialize (Hr (S i) ltac:(lia)). lia. }
    replace (r - Z.of_nat (S n)) with (r - 1 - Z.of_nat n) by lia.
    replace (k + S n)%nat with (S k + n)%nat by lia.
    assert (rev (seq k (S n)) ++ chain = rev (seq (S k) n) ++ k :: chain) as ->.
    { cbn [seq rev]. by rewrite <- app_assoc. }
    split; [exact Hs' |]. split; [exact Ho' |].
    split; [by rewrite Hlog', Hlog3, Hlog1 |].
    rewrite Hlen', Hlen3, Hlen1. unfold timersOfRounds. lia.
Qed.

(** An answer below 400 fulfils every promise of the chain with the response
    built from the transport of the attempt. *)
Lemma answer_standing rt r cause v w k chain :
  XhrView.readyState v = ReadyState.Done ->
  XhrView.status v < 400 ->
  standing r cause w k chain ->
  outcomeOf k w = Some Outcome.None ->
  let w' := run rt w (answerEvents v k (length (World.timers w))) in
  exists x,
    XMLHttpRequest.handle x = k
    /\ XMLHttpRequest.view x = v
    /\ length (World.attempts w') = S k
    /\ Forall (fun j => promiseOf j w' = Some (Fulfilled (buildResponse rt x))) (k :: chain)
    /\ World.settleLog w'
       = World.settleLog w ++ map (fun j => (j, Resolve (buildResponse rt x))) (k :: chain).
Proof.
  intros Hdone Hst Hs Ho w'.
  pose proof (standing_statusFailed r cause v w k chain Hs) as Hs1.
  destruct Hs as (a & Ha & Hlen & _ & _ & Hh & _).
  assert (Attempt.outcome a = Outcome.None) as Hoa.
  { unfold outcomeOf in Ho. rewrite Ha in Ho. by injection Ho. }
  subst w'. rewrite (run_answer rt v k w a Hdone Ha Hoa).
  destruct (Z.leb_spec 400 (XhrView.status v)); [lia |].
  destruct Hs1 as (a1 & Ha1 & Hlen1 & _ & _ & _ & Hfw1 & Hpend1 & Hnd1).
  exists (XMLHttpRequest.setView v (Attempt.xhr a)).
  split; [exact Hh |]. split; [reflexivity |].
  unfold resolve, settle. rewrite Ha1, Hfw1.
  destruct (settleChain_pending (k :: chain)
              (Resolve (buildResponse rt (XMLHttpRequest.setView v (Attempt.xhr a))))
              (statusFailed v k w) Hnd1 Hpend1) as [Hlog Hall].
  split; [by rewrite settleChain_length |].
  split; [exact Hall | exact Hlog].
Qed.

Lemma standing_request this method path params cause (r : Z) w0 :
  orNull (HttpRequestOptions.retries params) (HttpClient.retries this) = r ->
  (forall x res,
      orNull (HttpRequestOptions.isRetryable params) (HttpClient.isRetryable this)
        x cause res = true) ->
  let w := (request this method path params w0).2 in
  standing r cause w (length (World.attempts w0)) []
  /\ outcomeOf (length (World.attempts w0)) w = Some Outcome.None
  /\ World.timers w = World.timers w0
  /\ World.settleLog w = World.settleLog w0.
Proof.
  intros HR Hpol w. unfold w, request.
  destruct (_makeRequest_attempts this method path params 1 w0)
    as (a & Hatts & Hthis & _ & _ & _ & _ & Hparams & Hx & Hout & Hprom & Hfw).
  assert (World.attempts (_makeRequest this method path params 1 w0).2
          !! length (World.attempts w0) = Some a) as Ha.
  { rewrite Hatts, lookup_app_r by lia. by rewrite Nat.sub_diag. }
  split; [| split; [| split; [apply _makeRequest_timers | apply _makeRequest_settleLog]]].
  - exists a. split; [exact Ha |].
    split; [rewrite Hatts, length_app; cbn; lia |].
    split; [unfold retriesOf; by rewrite Hparams, Hthis |].
    split; [intros x res; unfold isRetryableOf; rewrite Hparams, Hthis; apply Hpol |].
    split; [rewrite Hx; apply newTransport_handle |].
    split; [exact Hfw |].
    split.
    + constructor; [| constructor]. unfold promiseOf. rewrite Ha. cbn. by rewrite Hprom.
    + apply NoDup_singleton.
  - unfold outcomeOf. rewrite Ha. cbn. by rewrite Hout.
Qed.

(** With a budget of [R], when the first [n <= R] attempts each handle one
    failure with a cause that the policy retries, and no other event, and
    attempt [n + 1] is answered with a status below 400, the promise of the
    first attempt is fulfilled with the response of the last. *)
Lemma rounds_then_answer rt this method path params cause v answer (R n : nat) w0
    (HR : orNull (HttpRequestOptions.retries params) (HttpClient.retries this) = Z.of_nat R)
    (Hn : (n <= R)%nat)
    (Hpol : forall x res,
        orNull (HttpRequestOptions.isRetryable params) (HttpClient.isRetryable this)
          x cause res = true)
    (Hdone : XhrView.readyState v = ReadyState.Done)
    (Hst : 400 <= XhrView.status v)
    (Hanswered : XhrView.readyState answer = ReadyState.Done)
    (Hok : XhrView.status answer < 400) :
  let k := length (World.attempts w0) in
  let t := length (World.timers w0) in
  let w := run rt (request this method path params w0).2
               (retryingScript cause v n k t
                ++ answerEvents answer (k + n) (t + timersOfRounds cause n)) in
  length (World.attempts w) = (k + n + 1)%nat
  /\ exists x,
      XMLHttpRequest.handle x = (k + n)%nat
      /\ XMLHttpRequest.view x = answer
      /\ promiseOf k w = Some (Fulfilled (buildResponse rt x))
      /\ World.settleLog w
         = World.settleLog w0
           ++ map (fun j => (j, Resolve (buildResponse rt x))) (rev (seq k (S n))).
Proof.
  intros k t w.
  destruct (standing_request this method path params cause (Z.of_nat R) w0 HR Hpol)
    as (Hs & Ho & Htm & Hlog0).
  fold k in Hs, Ho.
  pose proof (rounds_standing rt cause v Hdone Hst n (Z.of_nat R) _ k [] Hs Ho) as H.
  cbn zeta in H. rewrite Htm, Hlog0 in H. fold t in H.
  destruct H as (Hs' & Ho' & Hlog' & Hlen'); [intros i Hi; lia |].
  subst w. rewrite run_app.
  set (w1 := run rt (request this method path params w0).2 (retryingScript cause v n k t))
    in *.
  rewrite <- Hlen'.
  destruct (answer_standing rt _ cause answer w1 (k + n) _ Hanswered Hok Hs' Ho')
    as (x & Hh & Hv & Hatts & Hall & Hlog).
  split; [lia |].
  exists x. split; [exact Hh |]. split; [exact Hv |].
  rewrite app_nil_r in Hall, Hlog.
  assert ((k + n)%nat :: rev (seq k n) = rev (seq k (S n))) as Hseq.
  { rewrite seq_S. rewrite rev_app_distr. reflexivity. }
  rewrite Hseq in Hall, Hlog.
  split.
  - rewrite Forall_forall in Hall. apply Hall. apply elem_of_rev_seq. lia.
  - by rewrite Hlog, Hlog'.
Qed.

(** With a budget below 0 every failure that the policy retries is retried,
    with a budget one further below 0. *)
Lemma negative_budget_rounds rt this method path params cause v (r : Z) (n : nat) w0
    (HR : orNull (HttpRequestOptions.retries params) (HttpClient.retries this) = r)
    (Hneg : r < 0)
    (Hpol : forall x res,
        orNull (HttpRequestOptions.isRetryable params) (HttpClient.isRetryable this)
          x cause res = true)
    (Hdone : XhrView.readyState v = ReadyState.Done)
    (Hst : 400 <= XhrView.status v) :
  let k := length (World.attempts w0) in
  let w := run rt (request this method path params w0).2
               (retryingScript cause v n k (length (World.timers w0))) in
  length (World.attempts w) = (k + n + 1)%nat
  /\ promiseOf k w = Some Pending
  /\ World.settleLog w = World.settleLog w0
  /\ retriesOf <$> World.attempts w !! (k + n)%nat = Some (r - Z.of_nat n).
Proof.
  intros k w.
  destruct (standing_request this method path params cause r w0 HR Hpol)
    as (Hs & Ho & Htm & Hlog0).
  fold k in Hs, Ho.
  pose proof (rounds_standing rt cause v Hdone Hst n r _ k [] Hs Ho) as H.
  cbn zeta in H. rewrite Htm, Hlog0 in H. fold w in H.
  destruct H as ((a & Ha & Hlen & Hr & _ & _ & _ & Hpend & _) & _ & Hlog' & _);
    [intros i Hi; lia |].
  split; [lia |].
  split; [| split; [exact Hlog' | by rewrite Ha; cbn; rewrite Hr]].
  rewrite Forall_forall in Hpend. apply Hpend.
  rewrite app_nil_r. destruct n as [| n].
  - apply elem_of_cons. left. lia.
  - apply elem_of_cons. right. apply elem_of_rev_seq. lia.
Qed.

(** X9. A retry that is answered answers the caller.  With a budget of [R]
    and a policy that retries failures by status, when the first [n <= R]
    attempts are each answered with a status of 400 or more (the transport
    announces Done, the timer of [onDone] comes due, then the timer of the
    retry) and attempt [n + 1] is answered with a status below 400, then
    [n + 1] attempts have been made and the promise that the caller holds is
    fulfilled with the response built from the transport of the last
    attempt; [resolve] is called once for each promise of the chain, from
    the last attempt down to the first. *)
Theorem retried_request_resolves rt this method path params v answer (R n : nat) w0
    (HR : orNull (HttpRequestOptions.retries params) (HttpClient.retries this) = Z.of_nat R)
    (Hn : (n <= R)%nat)
    (Hpol : forall x res,
        orNull (HttpRequestOptions.isRetryable params) (HttpClient.isRetryable this)
          x XhrFailures.Status res = true)
    (Hdone : XhrView.readyState v = ReadyState.Done)
    (Hst : 400 <= XhrView.status v)
    (Hanswered : XhrView.readyState answer = ReadyState.Done)
    (Hok : XhrView.status answer < 400) :
  let k := length (World.attempts w0) in
  let t := length (World.timers w0) in
  let w := run rt (request this method path params w0).2
               (retryingScript XhrFailures.Status v n k t
                ++ answerEvents answer (k + n) (t + timersOfRounds XhrFailures.Status n)) in
  length (World.attempts w) = (k + n + 1)%nat
  /\ exists x,
      XMLHttpRequest.handle x = (k + n)%nat
      /\ XMLHttpRequest.view x = answer
      /\ promiseOf k w = Some (Fulfilled (buildResponse rt x))
      /\ World.settleLog w
         = World.settleLog w0
           ++ map (fun j => (j, Resolve (buildResponse rt x))) (rev (seq k (S n))).
Proof.
  exact (rounds_then_answer rt this method path params XhrFailures.Status v answer R n w0
           HR Hn Hpol Hdone Hst Hanswered Hok).
Qed.

(** A 503, then a 200 on the retry. *)
Lemma retried_request_resolves_witness :
  let rt := Runtime.mk (fun _ => None) in
  let w := run rt (request (exampleClient 1) "POST" "/p" retryingOptions World.initial).2
               (retryingScript XhrFailures.Status (doneView 503) 1 0 0
                ++ answerEvents (doneView 200) 1 2) in
  length (World.attempts w) = 2%nat
  /\ fulfilledStatus (promiseOf 0 w) = Some 200.
Proof.
  pose proof (retried_request_resolves (Runtime.mk (fun _ => None)) (exampleClient 1)
                "POST" "/p" retryingOptions (doneView 503) (doneView 200)
                1 1 World.initial) as H.
  cbn zeta in H.
  destruct H as (Hatts & x & _ & Hv & Hp & _).
  - reflexivity.
  - lia.
  - intros x res. reflexivity.
  - reflexivity.
  - cbn. lia.
  - reflexivity.
  - cbn. lia.
  - split; [exact Hatts |].
    cbn [length World.attempts World.timers World.initial Nat.add timersOfRounds timersOf
           Nat.mul] in Hp.
    rewrite Hp. cbn [fulfilledStatus]. rewrite buildResponse_statusCode, Hv. reflexivity.
Defined.

(** X10. A negative budget is never spent.  With a budget below 0 and a
    policy that retries failures by status, however many attempts are
    answered with a status of 400 or more, each of them is retried with a
    budget one further below 0: after [n] such answers there are [n + 1]
    attempts, nothing has been settled, and the promise that the caller
    holds is still pending. *)
Theorem negative_budget_retries_forever rt this method path params v (r : Z) (n : nat) w0
    (HR : orNull (HttpRequestOptions.retries params) (HttpClient.retries this) = r)
    (Hneg : r < 0)
    (Hpol : forall x res,
        orNull (HttpRequestOptions.isRetryable params) (HttpClient.isRetryable this)
          x XhrFailures.Status res = true)
    (Hdone : XhrView.readyState v = ReadyState.Done)
    (Hst : 400 <= XhrView.status v) :
  let k := length (World.attempts w0) in
  let w := run rt (request this method path params w0).2
               (retryingScript XhrFailures.Status v n k (length (World.timers w0))) in
  length (World.attempts w) = (k + n + 1)%nat
  /\ promiseOf k w = Some Pending
  /\ World.settleLog w = World.settleLog w0
  /\ retriesOf <$> World.attempts w !! (k + n)%nat = Some (r - Z.of_nat n).
Proof.
  exact (negative_budget_rounds rt this method path params XhrFailures.Status v r n w0
           HR Hneg Hpol Hdone Hst).
Qed.

(** A budget of -1 and three answers with status 503. *)
Lemma negative_budget_retries_forever_witness :
  let rt := Runtime.mk (fun _ => None) in
  let w := run rt (request (exampleClient (-1)) "POST" "/p" retryingOptions World.initial).2
               (retryingScript XhrFailures.Status (doneView 503) 3 0 0) in
  length (World.attempts w) = 4%nat /\ promiseOf 0 w = Some Pending.
Proof.
  pose proof (negative_budget_retries_forever (Runtime.mk (fun _ => None))
                (exampleClient (-1)) "POST" "/p" retryingOptions
                (doneView 503) (-1) 3 World.initial) as H.
  cbn zeta in H.
  destruct H as (Hatts & Hp & _).
  - reflexivity.
  - lia.
  - intros x res. reflexivity.
  - reflexivity.
  - cbn. lia.
  - split; [exact Hatts | exact Hp].
Defined.

(** X23. The budget bounds the retries of a request that keeps failing by
    status.  With a budget of [R >= 0] and a policy that retries failures by
    status, a request whose every attempt is answered with a status of 400
    or more (the transport announces Done, the timer of [onDone] comes due,
    and while the budget lasts the timer of the retry) makes exactly [R + 1]
    attempts and sets exactly [R] retry timers, none when [R = 0]; then the
    promise that the caller holds is rejected with the cause [Status], and
    its [reject] is called once. *)
Theorem status_failures_exhaust_budget rt this method path params v (R : nat) w0
    (HR : orNull (HttpRequestOptions.retries params) (HttpClient.retries this) = Z.of_nat R)
    (Hpol : forall x res,
        orNull (HttpRequestOptions.isRetryable params) (HttpClient.isRetryable this)
          x XhrFailures.Status res = true)
    (Hdone : XhrView.readyState v = ReadyState.Done)
    (Hst : 400 <= XhrView.status v) :
  let k := length (World.attempts w0) in
  let w := run rt (request this method path params w0).2
               (failingScript XhrFailures.Status v R k (length (World.timers w0))) in
  length (World.attempts w) = (k + (R + 1))%nat
  /\ length (retryDelays (World.timers w)) = (length (retryDelays (World.timers w0)) + R)%nat
  /\ (R = 0%nat -> retryDelays (World.timers w) = retryDelays (World.timers w0))
  /\ exists x,
      promiseOf k w = Some (Rejected (rejection x XhrFailures.Status))
      /\ World.settleLog w
         = World.settleLog w0
           ++ map (fun j => (j, Reject (rejection x XhrFailures.Status))) (rev (seq k (S R)))
      /\ filter (fun e => e.1 = k) (drop (length (World.settleLog w0)) (World.settleLog w))
         = [(k, Reject (rejection x XhrFailures.Status))].
Proof.
  exact (failing_request_rejects rt this method path params XhrFailures.Status v R w0
           HR Hpol Hdone Hst).
Qed.

(** A budget of two, every attempt answered with status 503. *)
Lemma status_failures_exhaust_budget_witness :
  let rt := Runtime.mk (fun _ => None) in
  let w := run rt (request (exampleClient 2) "POST" "/p" retryingOptions World.initial).2
               (failingScript XhrFailures.Status (doneView 503) 2 0 0) in
  length (World.attempts w) = 3%nat
  /\ length (retryDelays (World.timers w)) = 2%nat.
Proof.
  pose proof (status_failures_exhaust_budget (Runtime.mk (fun _ => None)) (exampleClient 2)
                "POST" "/p" retryingOptions (doneView 503) 2 World.initial) as H.
  cbn zeta in H.
  destruct H as (Hatts & Hdel & _).
  - reflexivity.
  - intros x res. reflexivity.
  - reflexivity.
  - cbn. lia.
  - split; [exact Hatts | exact Hdel].
Defined.

(* ================================================================== *)
(** * Request ids and attempt numbers along a run                      *)
(* ================================================================== *)

Lemma settleChain_map {B} (g : Attempt.t -> B) ks s w :
  (forall p a, g (Attempt.setPromise p a) = g a) ->
  map g (World.attempts (settleChain ks s w)) = map g (World.attempts w).
Proof.
  intros Hg. revert w. induction ks as [| k ks IH]; intros w; cbn; [reflexivity |].
  destruct (Attempt.promise <$> World.attempts w !! k) as [[| |] |]; try reflexivity.
  rewrite IH. cbn. by apply map_alter_same.
Qed.

Lemma settle_map {B} (g : Attempt.t -> B) k s w :
  closureConstant g ->
  map g (World.attempts (settle k s w)) = map g (World.attempts w).
Proof.
  intros (_ & _ & Hp & _). unfold settle.
  destruct (World.attempts w !! k); [by apply settleChain_map | reflexivity].
Qed.

Lemma retryIfPossible_map {B} (g : Attempt.t -> B) k cause res w :
  closureConstant g ->
  map g (World.attempts (retryIfPossible k cause res w)) = map g (World.attempts w).
Proof.
  intros Hg. unfold retryIfPossible.
  destruct (World.attempts w !! k) as [a |]; [| reflexivity]. cbn zeta.
  repeat case_if; try reflexivity; by apply settle_map.
Qed.

Lemma retryIfPossible_nextRequestId k cause res w :
  World.nextRequestId (retryIfPossible k cause res w) = World.nextRequestId w.
Proof.
  unfold retryIfPossible.
  destruct (World.attempts w !! k) as [a |]; [| reflexivity]. cbn zeta.
  repeat case_if; try reflexivity; apply settle_nextRequestId.
Qed.

Lemma onDone_map {B} (g : Attempt.t -> B) rt k w :
  closureConstant g ->
  map g (World.attempts (onDone rt k w)) = map g (World.attempts w).
Proof.
  intros Hg. unfold onDone.
  destruct (World.attempts w !! k) as [a |]; [| reflexivity].
  case_if; [reflexivity |]. cbn zeta.
  assert (map g (World.attempts (World.alterAttempt (Attempt.setOutcome Outcome.Done) k w))
          = map g (World.attempts w)) as Halt.
  { cbn. apply map_alter_same. intros a0. apply Hg. }
  case_if.
  - by rewrite retryIfPossible_map.
  - unfold resolve. by rewrite settle_map.
Qed.

Lemma onDone_nextRequestId rt k w :
  World.nextRequestId (onDone rt k w) = World.nextRequestId w.
Proof.
  unfold onDone.
  destruct (World.attempts w !! k) as [a |]; [| reflexivity].
  case_if; [reflexivity |]. cbn zeta.
  case_if; [by rewrite retryIfPossible_nextRequestId | unfold resolve; by rewrite settle_nextRequestId].
Qed.

(** An event either leaves the attempts as they are, up to what the handlers
    change in them, or it is the timer of a retry, which adds the attempt
    that [doRetry] makes. *)
Lemma step_attempts {B} (g : Attempt.t -> B) rt w e :
  closureConstant g ->
  (map g (World.attempts (step rt w e)) = map g (World.attempts w)
   /\ World.nextRequestId (step rt w e) = World.nextRequestId w)
  \/ (exists k newParams a,
         World.attempts w !! k = Some a
         /\ map g (World.attempts (step rt w e))
            = map g (World.attempts w)
              ++ [g (Attempt.mk (Attempt.this a) (World.nextRequestId w) 1 (Attempt.method a)
                       (Attempt.path a) newParams
                       (newTransport (Attempt.this a) (Attempt.method a) (Attempt.path a)
                          newParams (length (World.attempts w)))
                       Outcome.None Pending (k :: Attempt.forwardTo a))]
         /\ World.nextRequestId (step rt w e)
            = (allocateRequestId (World.nextRequestId w)).2).
Proof.
  intros Hg. destruct e as [j v | j | j | j | t]; cbn [step].
  - left. rewrite onReadyStateChange_attempts. split.
    + cbn. apply map_alter_same. intros a. apply Hg.
    + unfold onReadyStateChange. destruct (World.attempts _ !! j); [| reflexivity].
      by destruct (XhrView.readyState _).
  - left. split; [by apply retryIfPossible_map | apply retryIfPossible_nextRequestId].
  - left. split; [by apply retryIfPossible_map | apply retryIfPossible_nextRequestId].
  - left. split; [by apply retryIfPossible_map | apply retryIfPossible_nextRequestId].
  - unfold runTimer. destruct (World.timers w !! t) as [tm |]; [| by left].
    case_if; [by left |].
    destruct (Timer.task tm) as [k | k newParams].
    + left. split; [by rewrite onDone_map | by rewrite onDone_nextRequestId].
    + destruct (World.attempts w !! k) as [a |] eqn:Ha.
      * right. exists k, newParams, a. split; [exact Ha |].
        rewrite (doRetry_eq k newParams _ a) by exact Ha.
        cbn [World.attempts World.nextRequestId World.setTimers World.timers].
        split; [by rewrite map_app | reflexivity].
      * left. unfold doRetry. cbn [World.attempts World.setTimers]. by rewrite Ha.
Qed.

Lemma StronglySorted_lt_NoDup (l : list Z) : StronglySorted Z.lt l -> NoDup l.
Proof.
  induction 1 as [| x l Hl IH Hx]; constructor; [| exact IH].
  intros Hin. rewrite Forall_forall in Hx. specialize (Hx _ Hin). lia.
Qed.

Lemma requestIds_step rt w e :
  World.nextRequestId w < MAX_SAFE_INTEGER ->
  StronglySorted Z.lt (requestIds w) ->
  Forall (fun i => i < World.nextRequestId w) (requestIds w) ->
  StronglySorted Z.lt (requestIds (step rt w e))
  /\ Forall (fun i => i < World.nextRequestId (step rt w e)) (requestIds (step rt w e))
  /\ World.nextRequestId w <= World.nextRequestId (step rt w e) <= World.nextRequestId w + 1.
Proof.
  intros Hmax Hs Hlt. unfold requestIds in *.
  destruct (step_attempts Attempt.requestId rt w e closureConstant_requestId)
    as [[-> ->] | (k & newParams & a & _ & -> & ->)].
  - repeat split; try assumption; lia.
  - cbn [Attempt.requestId]. rewrite allocateRequestId_next.
    destruct (Z.leb_spec MAX_SAFE_INTEGER (World.nextRequestId w)); [lia |].
    split; [| split; [| lia]].
    + apply StronglySorted_app_2; [| exact Hs | repeat constructor].
      intros x1 x2 H1 H2. apply list_elem_of_singleton in H2 as ->.
      rewrite Forall_forall in Hlt. by apply Hlt.
    + apply Forall_app. split.
      * eapply Forall_impl; [exact Hlt |]. cbn. lia.
      * constructor; [lia | constructor].
Qed.

(** X11. As long as the counter does not wrap, the request ids of the
    attempts on a page increase strictly in the order in which the attempts
    were made, so no two attempts share an id: if that holds on a page whose
    counter is above all its ids, it holds after any events that leave the
    counter below [Number.MAX_SAFE_INTEGER]. *)
Theorem request_ids_distinct rt w evs
    (Hroom : World.nextRequestId w + Z.of_nat (length evs) <= MAX_SAFE_INTEGER)
    (Hsorted : StronglySorted Z.lt (requestIds w))
    (Hbelow : Forall (fun i => i < World.nextRequestId w) (requestIds w)) :
  StronglySorted Z.lt (requestIds (run rt w evs))
  /\ NoDup (requestIds (run rt w evs))
  /\ Forall (fun i => i < World.nextRequestId (run rt w evs)) (requestIds (run rt w evs)).
Proof.
  assert (StronglySorted Z.lt (requestIds (run rt w evs))
          /\ Forall (fun i => i < World.nextRequestId (run rt w evs))
                    (requestIds (run rt w evs))) as [H1 H2].
  { unfold run. revert w Hroom Hsorted Hbelow.
    induction evs as [| e evs IH]; intros w Hroom Hsorted Hbelow; cbn [foldl]; [by split |].
    cbn [length] in Hroom.
    destruct (requestIds_step rt w e) as (Hs & Hb & Hn); [lia | assumption | assumption |].
    apply IH; [lia | exact Hs | exact Hb]. }
  split; [exact H1 | split; [by apply StronglySorted_lt_NoDup | exact H2]].
Qed.

Lemma request_ids_distinct_witness :
  let rt := Runtime.mk (fun _ => None) in
  requestIds (run rt (posted 2) [ErrorEvent 0; TimerFired 0; ErrorEvent 1; TimerFired 1])
  = [1; 2; 3]
  /\ NoDup (requestIds
              (run rt (posted 2) [ErrorEvent 0; TimerFired 0; ErrorEvent 1; TimerFired 1])).
Proof.
  cbn zeta. split; [reflexivity |].
  apply (request_ids_distinct (Runtime.mk (fun _ => None)) (posted 2)
           [ErrorEvent 0; TimerFired 0; ErrorEvent 1; TimerFired 1]).
  - vm_compute. discriminate.
  - repeat constructor.
  - repeat constructor.
Defined.

Lemma retryIfPossible_timers_delay (P : JsNum.t -> Prop) k cause res w :
  (forall a, World.attempts w !! k = Some a -> P (backoff (Attempt.attempt a))) ->
  Forall P (retryDelays (World.timers w)) ->
  Forall P (retryDelays (World.timers (retryIfPossible k cause res w))).
Proof.
  intros Hk Hw. unfold retryIfPossible.
  destruct (World.attempts w !! k) as [a |]; [| exact Hw]. cbn zeta.
  repeat case_if; try (unfold reject; by rewrite settle_timers).
  cbn [setTimeout World.setTimers World.timers].
  rewrite retryDelays_snoc_doRetry. apply Forall_app. split; [exact Hw |].
  constructor; [by apply Hk | constructor].
Qed.

Lemma retryDelays_cons x tms :
  retryDelays (x :: tms)
  = (if isDoRetry x then [Timer.delay x] else []) ++ retryDelays tms.
Proof.
  unfold retryDelays. destruct (isDoRetry x) eqn:E.
  - by rewrite filter_cons_True by exact E.
  - by rewrite filter_cons_False by (rewrite E; discriminate).
Qed.

Lemma retryDelays_fired tms t tm :
  tms !! t = Some tm ->
  retryDelays (<[t := Timer.mk (Timer.task tm) (Timer.delay tm) true]> tms) = retryDelays tms.
Proof.
  revert t. induction tms as [| x tms IH]; intros [| t] H; try discriminate.
  - injection H as ->.
    change (<[0%nat := ?y]> (tm :: tms)) with (y :: tms).
    by rewrite !retryDelays_cons.
  - change (<[S t := ?y]> (x :: tms)) with (x :: <[t := y]> tms).
    rewrite !retryDelays_cons. f_equal. by apply IH.
Qed.

Lemma onDone_timers_delay (P : JsNum.t -> Prop) rt k w :
  (forall a, World.attempts w !! k = Some a -> P (backoff (Attempt.attempt a))) ->
  Forall P (retryDelays (World.timers w)) ->
  Forall P (retryDelays (World.timers (onDone rt k w))).
Proof.
  intros Hk Hw. unfold onDone.
  destruct (World.attempts w !! k) as [a |] eqn:Ha; [| exact Hw].
  case_if; [exact Hw |]. cbn zeta. case_if.
  - apply retryIfPossible_timers_delay; [| exact Hw].
    intros a0 Ha0. cbn in Ha0. rewrite list_lookup_alter_eq, Ha in Ha0.
    cbn in Ha0. injection Ha0 as <-. by apply (Hk a).
  - unfold resolve. by rewrite settle_timers.
Qed.

Lemma numbered_one_step rt w e :
  Forall (fun a => Attempt.attempt a = 1) (World.attempts w) ->
  Forall (fun d => d = JsNum.ofZ 500) (retryDelays (World.timers w)) ->
  Forall (fun a => Attempt.attempt a = 1) (World.attempts (step rt w e))
  /\ Forall (fun d => d = JsNum.ofZ 500) (retryDelays (World.timers (step rt w e))).
Proof.
  intros Ha Ht. split.
  - apply (Forall_map Attempt.attempt (fun n => n = 1)).
    apply (Forall_map Attempt.attempt (fun n => n = 1)) in Ha.
    destruct (step_attempts Attempt.attempt rt w e closureConstant_attempt)
      as [[-> _] | (k & newParams & a & _ & -> & _)]; [exact Ha |].
    apply Forall_app. split; [exact Ha | by repeat constructor].
  - assert (forall k a,
               World.attempts w !! k = Some a -> backoff (Attempt.attempt a) = JsNum.ofZ 500)
      as Hback.
    { intros k a Hk. rewrite Forall_lookup in Ha. by rewrite (Ha _ _ Hk). }
    destruct e as [j v | j | j | j | t]; cbn [step].
    + unfold onReadyStateChange. destruct (World.attempts _ !! j) as [a |]; [| exact Ht].
      destruct (XhrView.readyState _); try exact Ht.
      cbn [setTimeout World.setTimers World.timers World.alterAttempt World.setAttempts].
      by rewrite retryDelays_snoc_onDone.
    + apply retryIfPossible_timers_delay; [apply Hback | exact Ht].
    + apply retryIfPossible_timers_delay; [apply Hback | exact Ht].
    + apply retryIfPossible_timers_delay; [apply Hback | exact Ht].
    + unfold runTimer. destruct (World.timers w !! t) as [tm |] eqn:Htm; [| exact Ht].
      case_if; [exact Ht |].
      set (w1 := World.setTimers _ w).
      assert (Forall (fun d => d = JsNum.ofZ 500) (retryDelays (World.timers w1))) as Ht1.
      { unfold w1. cbn [World.setTimers World.timers]. by rewrite retryDelays_fired. }
      destruct (Timer.task tm) as [k | k newParams].
      * apply onDone_timers_delay; [apply Hback | exact Ht1].
      * by rewrite doRetry_timers.
Qed.

(** X12. Every attempt is attempt 1.  On a page whose attempts are all
    numbered 1 (as every attempt made by a public method is) and whose retry
    timers are all due after 500 ms, any events leave it so: each retry is
    numbered 1 again, and each retry waits 500 ms, however many came before. *)
Theorem every_attempt_numbered_one rt w evs
    (Hone : Forall (fun a => Attempt.attempt a = 1) (World.attempts w))
    (Hdelay : Forall (fun d => d = JsNum.ofZ 500) (retryDelays (World.timers w))) :
  Forall (fun a => Attempt.attempt a = 1) (World.attempts (run rt w evs))
  /\ Forall (fun d => d = JsNum.ofZ 500) (retryDelays (World.timers (run rt w evs))).
Proof.
  unfold run. revert w Hone Hdelay.
  induction evs as [| e evs IH]; intros w Hone Hdelay; cbn [foldl]; [by split |].
  destruct (numbered_one_step rt w e Hone Hdelay) as [H1 H2]. by apply IH.
Qed.

Lemma every_attempt_numbered_one_witness :
  let rt := Runtime.mk (fun _ => None) in
  let w := run rt (posted 3)
               (retryingScript XhrFailures.Timeout (doneView 500) 3 0 0) in
  Forall (fun d => d = JsNum.ofZ 500) (retryDelays (World.timers w)).
Proof.
  cbn zeta.
  apply (every_attempt_numbered_one (Runtime.mk (fun _ => None)) (posted 3)
           (retryingScript XhrFailures.Timeout (doneView 500) 3 0 0)).
  - repeat constructor.
  - constructor.
Defined.

(* ================================================================== *)
(** * The parsed JSON of a response                                    *)
(* ================================================================== *)

Lemma foldl_addHeader_fields lines res :
  Response.xhr (foldl addHeader res lines) = Response.xhr res
  /\ Response.statusCode (foldl addHeader res lines) = Response.statusCode res
  /\ Response.body (foldl addHeader res lines) = Response.body res
  /\ Response.json (foldl addHeader res lines) = Response.json res.
Proof.
  revert res. induction lines as [| h lines IH]; intros res; cbn [foldl]; [done |].
  destruct (IH (addHeader res h)) as (-> & -> & -> & ->).
  unfold addHeader. by destruct (headerPair h).
Qed.

(** X13. The [json] of a response is set only for a transport with a
    response type other than the empty string whose content-type header is
    exactly application/json, and it is then what [JSON.parse] made of the
    body; in particular a response of the default type never has it.  What
    [JSON.parse] does, failing included, changes nothing else in the
    response. *)
Theorem json_only_when_parsed rt xhr :
  (forall j,
      Response.json (buildResponse rt xhr) = Some j ->
      XMLHttpRequest.responseType xhr <> EmptyString
      /\ Response.headers (buildResponse rt xhr) !! "content-type" = Some "application/json"
      /\ Runtime.JSON_parse rt (dataToString (Response.body (buildResponse rt xhr))) = Some j)
  /\ (XMLHttpRequest.responseType xhr = EmptyString ->
      Response.json (buildResponse rt xhr) = None)
  /\ (forall rt',
         Response.xhr (buildResponse rt' xhr) = Response.xhr (buildResponse rt xhr)
         /\ Response.statusCode (buildResponse rt' xhr) = Response.statusCode (buildResponse rt xhr)
         /\ Response.headers (buildResponse rt' xhr) = Response.headers (buildResponse rt xhr)
         /\ Response.rawHeaders (buildResponse rt' xhr)
            = Response.rawHeaders (buildResponse rt xhr)
         /\ Response.body (buildResponse rt' xhr) = Response.body (buildResponse rt xhr)).
Proof.
  assert (forall rt0,
             exists res,
               Response.json res = None
               /\ (buildResponse rt0 xhr = res
                   \/ exists j,
                       buildResponse rt0 xhr = setJson j res
                       /\ XMLHttpRequest.responseType xhr <> EmptyString
                       /\ Response.headers res !! "content-type" = Some "application/json"
                       /\ Runtime.JSON_parse rt0 (dataToString (Response.body res)) = Some j)
               /\ res = parseHeaders (XhrView.allResponseHeaders (XMLHttpRequest.view xhr))
                          (Response.mk xhr (XhrView.status (XMLHttpRequest.view xhr)) ∅ []
                             (if truthyData (XhrView.response (XMLHttpRequest.view xhr))
                              then default (DString (XhrView.responseText (XMLHttpRequest.view xhr)))
                                     (XhrView.response (XMLHttpRequest.view xhr))
                              else DString (XhrView.responseText (XMLHttpRequest.view xhr)))
                             None)) as Hshape.
  { intros rt0. unfold buildResponse. cbn zeta.
    set (data := if truthyData _ then _ else _).
    set (res := parseHeaders _ _).
    assert (Response.body res = data /\ Response.json res = None) as [Hbody Hjson].
    { unfold res, parseHeaders.
      destruct (foldl_addHeader_fields
                  (JsString.splitCRLF
                     (JsString.trim (XhrView.allResponseHeaders (XMLHttpRequest.view xhr))))
                  (Response.mk xhr (XhrView.status (XMLHttpRequest.view xhr)) ∅ [] data None))
        as (_ & _ & -> & ->). done. }
    exists res. split; [exact Hjson |]. split; [| reflexivity].
    destruct (bool_decide _ && negb _) eqn:Hc; [| by left].
    apply andb_true_iff in Hc as [Hct Hrt].
    apply bool_decide_eq_true in Hct. apply negb_true_iff, String.eqb_neq in Hrt.
    destruct (Runtime.JSON_parse rt0 (dataToString data)) as [j |] eqn:Hparse; [| by left].
    right. exists j. rewrite Hbody. done. }
  destruct (Hshape rt) as (res & Hnone & Hres & Hdef).
  split; [| split].
  - intros j Hj. destruct Hres as [Hres | (j' & Hres & Hrt & Hct & Hparse)];
      rewrite Hres in *; [congruence |].
    cbn in Hj. injection Hj as ->. done.
  - intros Hrt. destruct Hres as [Hres | (j' & _ & Hne & _)];
      [by rewrite Hres | contradiction].
  - intros rt'. destruct (Hshape rt') as (res' & _ & Hres' & Hdef').
    assert (res' = res) as -> by congruence.
    destruct Hres as [Hres | (j & Hres & _)], Hres' as [Hres' | (j' & Hres' & _)];
      rewrite Hres, Hres'; done.
Qed.

(* ================================================================== *)
(** * Header lines                                                     *)
(* ================================================================== *)

Lemma substring_0_all s : substring 0 (String.length s) s = s.
Proof. induction s as [| c s IH]; cbn; [reflexivity | by rewrite IH]. Qed.

Lemma append_cons c s1 s2 : String c s1 +:+ s2 = String c (s1 +:+ s2).
Proof. reflexivity. Qed.

Lemma append_empty s : EmptyString +:+ s = s.
Proof. reflexivity. Qed.

Lemma substring_0_app s1 s2 : substring 0 (String.length s1) (s1 +:+ s2) = s1.
Proof.
  induction s1 as [| c s1 IH].
  - rewrite append_empty. by destruct s2.
  - rewrite append_cons. cbn [String.length substring]. by rewrite IH.
Qed.

Lemma substring_skip_app s1 s2 n m :
  substring (String.length s1 + n) m (s1 +:+ s2) = substring n m s2.
Proof.
  induction s1 as [| c s1 IH]; [by rewrite append_empty |].
  rewrite append_cons. cbn [String.length Nat.add substring]. exact IH.
Qed.

Lemma length_append s1 s2 :
  String.length (s1 +:+ s2) = (String.length s1 + String.length s2)%nat.
Proof.
  induction s1 as [| c s1 IH]; [by rewrite append_empty |].
  rewrite append_cons. cbn [String.length Nat.add]. by rewrite IH.
Qed.

Lemma indexOf_range c s : -1 <= JsString.indexOf c s < JsString.length s.
Proof.
  unfold JsString.length. induction s as [| a s IH]; cbn [JsString.indexOf String.length].
  - lia.
  - destruct (Ascii.eqb a c); [lia |].
    destruct (Z.ltb_spec (JsString.indexOf c s) 0); lia.
Qed.

(** The first occurrence is the one after a prefix without the character. *)
Lemma indexOf_app c s1 s2 :
  JsString.indexOf c s1 = -1 ->
  JsString.indexOf c (s1 +:+ String c s2) = JsString.length s1.
Proof.
  unfold JsString.length. induction s1 as [| a s1 IH]; cbn [JsString.indexOf String.length].
  - intros _. rewrite append_empty. cbn [JsString.indexOf]. by rewrite Ascii.eqb_refl.
  - rewrite append_cons. cbn [JsString.indexOf].
    destruct (Ascii.eqb a c); [discriminate |].
    pose proof (indexOf_range c s1) as Hr.
    destruct (Z.ltb_spec (JsString.indexOf c s1) 0) as [Hneg | Hpos]; [| lia].
    intros _. rewrite IH by lia.
    destruct (Z.ltb_spec (Z.of_nat (String.length s1)) 0); lia.
Qed.

(** X14. A header line is cut at its first colon: for a name without a
    colon, the line name:value parses into the name and the value, each
    without the white space around it, whatever colons the value holds. *)
Theorem header_line_parsed (name value : string)
    (Hname : JsString.indexOf ":" name = -1) :
  headerPair (name +:+ ":" +:+ value) = (JsString.trim name, JsString.trim value).
Proof.
  unfold headerPair. cbn zeta.
  change (":" +:+ value) with (String ":"%char value).
  rewrite indexOf_app by exact Hname.
  unfold JsString.slice, JsString.sliceFrom, JsString.slice, JsString.relIndex, JsString.length.
  rewrite length_append. cbn [String.length].
  set (n := String.length name). set (m := String.length value).
  replace (0 <? 0) with false by reflexivity.
  replace (Z.of_nat n <? 0) with false by (symmetry; apply Z.ltb_ge; lia).
  replace (Z.of_nat n + 1 <? 0) with false by (symmetry; apply Z.ltb_ge; lia).
  replace (Z.of_nat (n + S m) <? 0) with false by (symmetry; apply Z.ltb_ge; lia).
  f_equal; f_equal.
  - replace (Z.to_nat (Z.min 0 (Z.of_nat (n + S m)))) with 0%nat by lia.
    replace (Z.to_nat (Z.min (Z.of_nat n) (Z.of_nat (n + S m)) - Z.min 0 (Z.of_nat (n + S m))))
      with n by lia.
    apply substring_0_app.
  - replace (Z.to_nat (Z.min (Z.of_nat n + 1) (Z.of_nat (n + S m)))) with (n + 1)%nat by lia.
    replace (Z.to_nat (Z.min (Z.of_nat (n + S m)) (Z.of_nat (n + S m))
                       - Z.min (Z.of_nat n + 1) (Z.of_nat (n + S m))))
      with m by lia.
    unfold n, m. rewrite substring_skip_app. cbn [substring]. apply substring_0_all.
Qed.

Lemma header_line_parsed_witness :
  headerPair ("Location" +:+ ":" +:+ " http://localhost:8080/p ")
  = ("Location", "http://localhost:8080/p").
Proof.
  rewrite (header_line_parsed "Location" " http://localhost:8080/p ").
  - reflexivity.
  - reflexivity.
Defined.

(** X15. A header line without any colon: as [indexOf] answers -1, the name
    is the line without its last character and the value is the whole line,
    each without the white space around it. *)
Theorem header_line_without_colon (line : string)
    (Hline : JsString.indexOf ":" line = -1) :
  headerPair line
  = (JsString.trim (substring 0 (String.length line - 1) line), JsString.trim line).
Proof.
  unfold headerPair. cbn zeta. rewrite Hline.
  unfold JsString.slice, JsString.sliceFrom, JsString.slice, JsString.relIndex, JsString.length.
  set (n := String.length line).
  replace (0 <? 0) with false by reflexivity.
  replace (-1 <? 0) with true by reflexivity.
  replace (-1 + 1 <? 0) with false by reflexivity.
  replace (Z.of_nat n <? 0) with false by (symmetry; apply Z.ltb_ge; lia).
  f_equal; f_equal.
  - replace (Z.to_nat (Z.min 0 (Z.of_nat n))) with 0%nat by lia.
    replace (Z.to_nat (Z.max (Z.of_nat n + -1) 0 - Z.min 0 (Z.of_nat n))) with (n - 1)%nat
      by lia.
    reflexivity.
  - replace (Z.to_nat (Z.min (-1 + 1) (Z.of_nat n))) with 0%nat by lia.
    replace (Z.to_nat (Z.min (Z.of_nat n) (Z.of_nat n) - Z.min (-1 + 1) (Z.of_nat n)))
      with n by lia.
    apply substring_0_all.
Qed.

Lemma header_line_without_colon_witness :
  headerPair "HTTP/1.1 200 OK" = ("HTTP/1.1 200 O", "HTTP/1.1 200 OK").
Proof.
  rewrite (header_line_without_colon "HTTP/1.1 200 OK").
  - reflexivity.
  - reflexivity.
Defined.

Lemma splitCRLF_not_nil s : JsString.splitCRLF s <> [].
Proof.
  destruct s as [| c s]; cbn [JsString.splitCRLF]; [discriminate |].
  destruct (JsString.splitCRLF s) eqn:E; cbn zeta;
    destruct (Ascii.eqb c JsString.CR); try discriminate;
    destruct s as [| d s']; try discriminate;
    destruct (Ascii.eqb d JsString.LF); discriminate.
Qed.

(** X16. A response always has a raw header: even when the transport has no
    response headers at all, or only white space, the response built has the
    one raw header with the empty name and the empty value, and its header
    map holds the empty value under the empty name. *)
Theorem headers_never_empty rt handle responseType timeout calls view :
  let res := buildResponse rt (XMLHttpRequest.mk handle responseType timeout calls view) in
  Response.rawHeaders res <> []
  /\ (JsString.trim (XhrView.allResponseHeaders view) = EmptyString ->
      Response.rawHeaders res = [(EmptyString, EmptyString)]
      /\ Response.headers res = {[ EmptyString := EmptyString ]}).
Proof.
  intros res. unfold res. split.
  - rewrite buildResponse_rawHeaders. cbn [XMLHttpRequest.view].
    intros H. apply map_eq_nil in H. by apply splitCRLF_not_nil in H.
  - intros Hblank. split.
    + rewrite buildResponse_rawHeaders. cbn [XMLHttpRequest.view]. rewrite Hblank. reflexivity.
    + rewrite buildResponse_headers. cbn [XMLHttpRequest.view]. rewrite Hblank. reflexivity.
Qed.

(* ================================================================== *)
(** * formatDuration outside the range of a plain duration             *)
(* ================================================================== *)

Lemma truncate_nonpos (x : Q) : (x <= 0)%Q -> JsNumber.truncate x = Qceiling x.
Proof.
  destruct x as [a b]. unfold Qle, JsNumber.truncate, Qceiling, Qfloor, Qopp. cbn.
  intros H.
  replace a with (- - a) at 1 by lia.
  rewrite Z.quot_opp_l by lia. rewrite Z.quot_div_nonneg by lia. reflexivity.
Qed.

Lemma truncate_div_1000 (d : Q) :
  JsNumber.truncate (d / inject_Z 1000)%Q = Z.quot (JsNumber.truncate d) 1000.
Proof.
  destruct d as [a b]. unfold JsNumber.truncate, Qdiv, Qmult, Qinv, inject_Z. cbn.
  rewrite Z.mul_1_r, Pos2Z.inj_mul. by rewrite Z.quot_quot by lia.
Qed.

Lemma quot_1000_bounds (t : Z) :
  - 2 ^ 31 <= t <= 0 -> - 2 ^ 31 <= Z.quot t 1000 <= 0 /\ -1000 < t - Z.quot t 1000 * 1000 <= 0.
Proof.
  intros Ht.
  pose proof (Z.quot_rem' t 1000) as Hqr.
  pose proof (Z.rem_bound_pos_neg t 1000 ltac:(lia) ltac:(lia)) as Hrem.
  lia.
Qed.

(** X17. A negative duration loses its whole seconds.  For a duration below
    0 and not below -2^31 milliseconds the whole seconds, taken by
    truncation toward zero, are not positive, so only the millisecond
    component is printed: the rest of the duration after the whole seconds,
    which lies above -1000 and is at most 0 (a duration of -1500 is printed
    as -500.000ms). *)
Theorem formatDuration_negative (d : Q)
    (Hneg : (d <= 0)%Q) (Hlow : (inject_Z (- 2 ^ 31) <= d)%Q) :
  formatDuration d
  = JsNumber.toPrecision 6 (d - inject_Z (Spec.wholeSeconds d * 1000))%Q +:+ "ms"
  /\ (- 1000 < d - inject_Z (Spec.wholeSeconds d * 1000))%Q
  /\ (d - inject_Z (Spec.wholeSeconds d * 1000) <= 0)%Q.
Proof.
  assert (- 2 ^ 31 <= Qceiling d <= 0) as Ht.
  { split.
    - change (- 2 ^ 31) with (Qceiling (inject_Z (- 2 ^ 31))). by apply Qceiling_resp_le.
    - change 0 with (Qceiling (inject_Z 0)). by apply Qceiling_resp_le. }
  destruct (quot_1000_bounds (Qceiling d) Ht) as [Hq Hr].
  assert (Spec.wholeSeconds d = Z.quot (Qceiling d) 1000) as Hws.
  { unfold Spec.wholeSeconds. by rewrite truncate_div_1000, truncate_nonpos. }
  assert (JsNumber.bitOr0 (inject_Z (JsNumber.bitOr0 d) / inject_Z 1000)%Q
          = Spec.wholeSeconds d) as Hmodel.
  { unfold JsNumber.bitOr0 at 2. rewrite truncate_nonpos by exact Hneg.
    rewrite ToInt32_small by lia.
    unfold JsNumber.bitOr0. rewrite truncate_div_1000.
    replace (JsNumber.truncate (inject_Z (Qceiling d))) with (Qceiling d)
      by (unfold JsNumber.truncate, inject_Z; cbn; by rewrite Z.quot_1_r).
    rewrite ToInt32_small by lia. by rewrite Hws. }
  split.
  - unfold formatDuration. cbn zeta. rewrite Hmodel, Hws.
    destruct (Z.ltb_spec (Z.quot (Qceiling d) 1000) 1); [reflexivity | lia].
  - rewrite Hws.
    pose proof (Qle_ceiling d) as Hle. pose proof (Qceiling_lt d) as Hlt.
    unfold Z.sub in Hlt. rewrite inject_Z_plus in Hlt.
    replace (inject_Z (- (1))) with (-1)%Q in Hlt by reflexivity.
    assert (inject_Z (Qceiling d) - inject_Z (Z.quot (Qceiling d) 1000 * 1000)
            == inject_Z (Qceiling d - Z.quot (Qceiling d) 1000 * 1000))%Q as Hdiff.
    { unfold Z.sub. by rewrite inject_Z_plus, inject_Z_opp. }
    assert (inject_Z (-999) <= inject_Z (Qceiling d - Z.quot (Qceiling d) 1000 * 1000))%Q
      as Hlo by (rewrite <- Zle_Qle; lia).
    assert (inject_Z (Qceiling d - Z.quot (Qceiling d) 1000 * 1000) <= inject_Z 0)%Q
      as Hhi by (rewrite <- Zle_Qle; lia).
    change (inject_Z (-999)) with (-999)%Q in Hlo. change (inject_Z 0) with 0%Q in Hhi.
    split; lra.
Qed.

Lemma formatDuration_negative_witness :
  formatDuration (inject_Z (-1500)) = "-500.000ms".
Proof.
  destruct (formatDuration_negative (inject_Z (-1500))) as [-> _].
  - unfold Qle. cbn. lia.
  - unfold Qle. cbn. lia.
  - vm_compute. reflexivity.
Defined.

(** X18. A duration of 2^31 milliseconds or more, below 2^32, loses its
    units.  [rawMilliseconds | 0] wraps to a negative number there, the whole
    seconds computed from it are not positive, and only a millisecond
    component is printed, of the duration less those whole seconds. *)
Theorem formatDuration_wraps (d : Q)
    (Hlow : (inject_Z (2 ^ 31) <= d)%Q) (Hhigh : (d < inject_Z (2 ^ 32))%Q) :
  let wholeSeconds := Z.quot (Qfloor d - 2 ^ 32) 1000 in
  wholeSeconds <= 0
  /\ formatDuration d
     = JsNumber.toPrecision 6 (d - inject_Z (wholeSeconds * 1000))%Q +:+ "ms".
Proof.
  intros wholeSeconds.
  assert (2 ^ 31 <= Qfloor d < 2 ^ 32) as Hf.
  { split.
    - change (2 ^ 31) with (Qfloor (inject_Z (2 ^ 31))). by apply Qfloor_resp_le.
    - rewrite Zlt_Qlt. eapply Qle_lt_trans; [apply Qfloor_le | exact Hhigh]. }
  assert (0 <= d)%Q as H0.
  { eapply Qle_trans; [| exact Hlow]. unfold Qle. cbn. lia. }
  assert (JsNumber.bitOr0 d = Qfloor d - 2 ^ 32) as Hb.
  { unfold JsNumber.bitOr0. rewrite truncate_nonneg by exact H0.
    unfold JsNumber.ToInt32.
    replace (Qfloor d + 2 ^ 31) with (Qfloor d - 2 ^ 31 + 1 * 2 ^ 32) by lia.
    rewrite Z.mod_add by lia. rewrite Z.mod_small by lia. lia. }
  destruct (quot_1000_bounds (Qfloor d - 2 ^ 32) ltac:(lia)) as [Hq _].
  fold wholeSeconds in Hq.
  assert (JsNumber.bitOr0 (inject_Z (JsNumber.bitOr0 d) / inject_Z 1000)%Q = wholeSeconds)
    as Hmodel.
  { rewrite Hb. unfold JsNumber.bitOr0. rewrite truncate_div_1000.
    replace (JsNumber.truncate (inject_Z (Qfloor d - 2 ^ 32))) with (Qfloor d - 2 ^ 32)
      by (unfold JsNumber.truncate, inject_Z; cbn; by rewrite Z.quot_1_r).
    apply ToInt32_small. fold wholeSeconds. lia. }
  split; [lia |].
  unfold formatDuration. cbn zeta. rewrite Hmodel.
  destruct (Z.ltb_spec wholeSeconds 1); [reflexivity | lia].
Qed.

Lemma formatDuration_wraps_witness :
  formatDuration (inject_Z (2 ^ 31)) = "4.29497e+9ms".
Proof.
  destruct (formatDuration_wraps (inject_Z (2 ^ 31))) as [_ ->].
  - unfold Qle. cbn. lia.
  - unfold Qlt. cbn. lia.
  - vm_compute. reflexivity.
Defined.

(* ================================================================== *)
(** * HttpTimer                                                        *)
(* ================================================================== *)

Lemma formatDurationNumber_Num (q : Q) : formatDurationNumber (JsNum.Num q) = formatDuration q.
Proof. reflexivity. Qed.

Lemma formatDurationNumber_NaN : formatDurationNumber JsNum.NaN = "NaNms".
Proof. reflexivity. Qed.

(** X19. A timer that has not seen the transport opened, or has not seen it
    done, reports the duration NaNms and is never slow, whatever the
    threshold; and a latency is reported only when both of its time stamps
    are set and neither is 0, a time stamp of 0 counting as not set. *)
Theorem timer_with_missing_stamps (this : HttpTimer.t) :
  (HttpTimer.opened this = None \/ HttpTimer.done this = None ->
   TimerResult.duration (HttpTimer.durations this) = Some "NaNms"
   /\ TimerResult.wasSlow (HttpTimer.durations this) = Some false)
  /\ (TimerResult.headersReceived (HttpTimer.durations this) = None
      <-> truthyField (HttpTimer.opened this) = false
          \/ truthyField (HttpTimer.headersReceived this) = false)
  /\ (TimerResult.contentDownload (HttpTimer.durations this) = None
      <-> truthyField (HttpTimer.headersReceived this) = false
          \/ truthyField (HttpTimer.done this) = false)
  /\ (forall q, (q == 0)%Q -> truthyField (Some q) = false).
Proof.
  split; [| split; [| split]].
  - unfold HttpTimer.durations. cbn [TimerResult.duration TimerResult.wasSlow].
    intros [-> | ->]; destruct (HttpTimer.done this), (HttpTimer.opened this); done.
  - unfold HttpTimer.durations. cbn [TimerResult.headersReceived].
    destruct (truthyField (HttpTimer.opened this)),
      (truthyField (HttpTimer.headersReceived this)); cbn; split; try done; intuition congruence.
  - unfold HttpTimer.durations. cbn [TimerResult.contentDownload].
    destruct (truthyField (HttpTimer.headersReceived this)),
      (truthyField (HttpTimer.done this)); cbn; split; try done; intuition congruence.
  - intros q Hq. cbn. apply negb_false_iff. by apply Qeq_bool_iff.
Qed.

(** A difference of whole numbers that stays below [2^53] is exact. *)
Lemma sub_whole (x y : Q) (a b : Z) :
  (x == inject_Z a)%Q -> (y == inject_Z b)%Q -> Z.abs (a - b) < 2 ^ 53 ->
  JsNum.sub (JsNum.Num x) (JsNum.Num y) = JsNum.ofZ (a - b).
Proof.
  intros Hx Hy Hab. cbn [JsNum.sub].
  assert (x - y == inject_Z (a - b))%Q as Hd.
  { rewrite Hx, Hy. unfold Qminus. by rewrite <- inject_Z_opp, <- inject_Z_plus. }
  rewrite (round_exact _ (a - b) 0);
    [| rewrite Hd; change (JsNum.twoTo 0) with 1%Q; ring | exact Hab | lia |].
  - unfold JsNum.ofZ. f_equal. rewrite <- Qred_inject_Z. by apply Qred_complete.
  - rewrite Hd. change (Qabs (inject_Z (a - b))) with (inject_Z (Z.abs (a - b))).
    rewrite <- (twoTo_inject 1024) by lia. apply inject_Z_lt.
    assert (2 ^ 53 < 2 ^ 1024) by (apply Z.pow_lt_mono_r; lia). lia.
Qed.

(** X20. A timer that sees a transport opened at [t0], its headers received
    at [t1] and the transport done at [t2], none of them 0, with Unsent and
    Loading notifications in between, reports the three differences of the
    recorded time stamps, each rounded to a double as the subtraction does,
    and is slow exactly when the rounded total is above the threshold; the
    Unsent and Loading notifications leave no trace.  When the time stamps
    are whole milliseconds less than [2^53] apart the differences are exact. *)
Theorem timer_full_lifecycle (threshold : Z) (t0 t1 t2 u l : Q)
    (H0 : ~ (t0 == 0)%Q) (H1 : ~ (t1 == 0)%Q) (H2 : ~ (t2 == 0)%Q) :
  let timer :=
    HttpTimer.onReadyStateChange ReadyState.Done t2
      (HttpTimer.onReadyStateChange ReadyState.Loading l
         (HttpTimer.onReadyStateChange ReadyState.HeadersReceived t1
            (HttpTimer.onReadyStateChange ReadyState.Opened t0
               (HttpTimer.onReadyStateChange ReadyState.Unsent u
                  (HttpTimer.new threshold))))) in
  let total := JsNum.sub (JsNum.Num t2) (JsNum.Num t0) in
  HttpTimer.durations timer
  = TimerResult.mk (Some (formatDurationNumber total))
      (Some (formatDurationNumber (JsNum.sub (JsNum.Num t1) (JsNum.Num t0))))
      (Some (formatDurationNumber (JsNum.sub (JsNum.Num t2) (JsNum.Num t1))))
      (Some (JsNum.gt total (JsNum.ofZ threshold)))
  /\ (forall z0 z1 z2 : Z,
         (t0 == inject_Z z0)%Q -> (t1 == inject_Z z1)%Q -> (t2 == inject_Z z2)%Q ->
         Z.abs (z2 - z0) < 2 ^ 53 -> Z.abs (z1 - z0) < 2 ^ 53 -> Z.abs (z2 - z1) < 2 ^ 53 ->
         HttpTimer.durations timer
         = TimerResult.mk (Some (formatDuration (inject_Z (z2 - z0))))
             (Some (formatDuration (inject_Z (z1 - z0))))
             (Some (formatDuration (inject_Z (z2 - z1))))
             (Some (threshold <? z2 - z0))).
Proof.
  intros timer total.
  assert (forall q, ~ (q == 0)%Q -> truthyField (Some q) = true) as Htruthy.
  { intros q Hq. cbn. apply negb_true_iff. destruct (Qeq_bool q 0) eqn:E; [| reflexivity].
    apply Qeq_bool_iff in E. contradiction. }
  assert (HttpTimer.durations timer
          = TimerResult.mk (Some (formatDurationNumber total))
              (Some (formatDurationNumber (JsNum.sub (JsNum.Num t1) (JsNum.Num t0))))
              (Some (formatDurationNumber (JsNum.sub (JsNum.Num t2) (JsNum.Num t1))))
              (Some (JsNum.gt total (JsNum.ofZ threshold)))) as Hd.
  { unfold timer, HttpTimer.durations.
    cbn [HttpTimer.onReadyStateChange HttpTimer.new HttpTimer.opened HttpTimer.headersReceived
           HttpTimer.done HttpTimer.slowThreshold JsNum.ofField].
    rewrite !Htruthy by assumption. reflexivity. }
  split; [exact Hd |].
  intros z0 z1 z2 E0 E1 E2 B20 B10 B21. rewrite Hd. unfold total.
  rewrite (sub_whole t2 t0 z2 z0), (sub_whole t1 t0 z1 z0), (sub_whole t2 t1 z2 z1)
    by assumption.
  unfold JsNum.ofZ. rewrite !formatDurationNumber_Num. do 3 f_equal.
  cbn [JsNum.gt JsNum.lt].
  destruct (Z.ltb_spec threshold (z2 - z0)) as [Hlt | Hge].
  - apply negb_true_iff. destruct (Qle_bool _ _) eqn:E; [| reflexivity].
    apply Qle_bool_iff in E. rewrite <- Zle_Qle in E. lia.
  - apply negb_false_iff, Qle_bool_iff. by rewrite <- Zle_Qle.
Qed.

Lemma timer_full_lifecycle_witness :
  HttpTimer.durations
    (HttpTimer.onReadyStateChange ReadyState.Done 250
       (HttpTimer.onReadyStateChange ReadyState.Loading 120
          (HttpTimer.onReadyStateChange ReadyState.HeadersReceived 100
             (HttpTimer.onReadyStateChange ReadyState.Opened 10
                (HttpTimer.onReadyStateChange ReadyState.Unsent 5 (HttpTimer.new 200))))))
  = TimerResult.mk (Some "240.000ms") (Some "90.0000ms") (Some "150.000ms") (Some true).
Proof.
  destruct (timer_full_lifecycle 200 10 100 250 5 120) as [_ H].
  - discriminate.
  - discriminate.
  - discriminate.
  - rewrite (H 10 100 250); [vm_compute; reflexivity | reflexivity.. | | |]; vm_compute;
      reflexivity.
Defined.

(** X21. The threshold of the timer of an attempt is never 0 on a client
    made by the constructor: a threshold of 0 in the options of the call
    gives way to the one of the client, and a threshold of 0 in the
    parameters of the constructor gives way to 200. *)
Theorem slow_threshold_never_zero (clientParams : HttpClientParams.t)
    (params : HttpRequestOptions.t) :
  let timer := timerOf (HttpClient.new clientParams) params in
  HttpTimer.slowThreshold timer <> 0
  /\ HttpTimer.slowThreshold timer
     = orNumber (HttpRequestOptions.slowThreshold params)
         (orNumber (HttpClientParams.slowThreshold clientParams) 200)
  /\ HttpTimer.opened timer = None
  /\ HttpTimer.headersReceived timer = None
  /\ HttpTimer.done timer = None.
Proof.
  intros timer. split; [| done].
  unfold timer, timerOf, HttpClient.new, orNumber.
  cbn [HttpTimer.new HttpTimer.slowThreshold HttpClient.slowThreshold].
  destruct (HttpRequestOptions.slowThreshold params) as [n |];
    destruct (HttpClientParams.slowThreshold clientParams) as [m |];
    repeat match goal with
           | |- context [?x =? 0] => destruct (Z.eqb_spec x 0)
           end; lia.
Qed.

(* ================================================================== *)
(** * The verb methods                                                 *)
(* ================================================================== *)

Lemma _makeRequest_calls this method path params attempt w :
  callsOf (_makeRequest this method path params attempt w).1
          (_makeRequest this method path params attempt w).2
  = Some (XMLHttpRequest.calls
            (newTransport this method path params (length (World.attempts w)))).
Proof.
  destruct (_makeRequest_attempts this method path params attempt w)
    as (a & Hatts & _ & _ & _ & _ & _ & _ & Hx & _).
  unfold callsOf. rewrite _makeRequest_index, Hatts, lookup_app_r by lia.
  rewrite Nat.sub_diag. cbn. by rewrite Hx.
Qed.

(** X22. [get] never sends, whatever the options hold, a body included;
    [post], [put], [patch] and [delete] send the body of the options as
    their last call whenever it is not missing and not the empty string. *)
Theorem verbs_and_bodies this path params w :
  (exists calls,
      callsOf (HttpClientMethods.get this path params w).1
              (HttpClientMethods.get this path params w).2 = Some calls
      /\ existsb isSend calls = false)
  /\ (truthyData (HttpRequestOptions.body params) = true ->
      forall verb,
        verb = HttpClientMethods.post \/ verb = HttpClientMethods.put
        \/ verb = HttpClientMethods.patch \/ verb = HttpClientMethods.delete ->
        exists body before,
          HttpRequestOptions.body params = Some body
          /\ callsOf (verb this path params w).1 (verb this path params w).2
             = Some (before ++ [Send body])
          /\ existsb isSend before = false).
Proof.
  split.
  - unfold HttpClientMethods.get. rewrite _makeRequest_calls.
    eexists. split; [reflexivity |]. apply newTransport_no_send. auto.
  - intros Hbody verb Hverb.
    assert (exists method,
               verb = (fun this path params w => _makeRequest this method path params 1 w)
               /\ method <> "GET" /\ method <> "HEAD") as (method & -> & Hget & Hhead).
    { destruct Hverb as [-> | [-> | [-> | ->]]];
        [exists "POST" | exists "PUT" | exists "PATCH" | exists "DELETE"]; done. }
    cbn beta. rewrite _makeRequest_calls.
    destruct (newTransport_sends_last this method path params (length (World.attempts w))
                Hbody Hget Hhead) as (body & before & Hb & Hcalls & Hno).
    exists body, before. by rewrite Hcalls.
Qed.

(* ================================================================== *)
(** * Every attempt repeats the request                                *)
(* ================================================================== *)

(** The calls that set a transport up do not depend on its handle nor on the
    retry budget of the options. *)
Lemma newTransport_calls_options this method path p q h1 h2 :
  optionsOf p = optionsOf q ->
  XMLHttpRequest.calls (newTransport this method path p h1)
  = XMLHttpRequest.calls (newTransport this method path q h2).
Proof.
  intros H. rewrite !newTransport_calls.
  assert (HttpRequestOptions.headers p = HttpRequestOptions.headers q) as ->
    by exact (f_equal HttpRequestOptions.headers H).
  assert (HttpRequestOptions.body p = HttpRequestOptions.body q) as ->
    by exact (f_equal HttpRequestOptions.body H).
  reflexivity.
Qed.

Lemma sameRequest_proj this method path params (a b : Attempt.t) :
  (Attempt.this a, Attempt.method a, Attempt.path a, Attempt.params a,
   XMLHttpRequest.calls (Attempt.xhr a))
  = (Attempt.this b, Attempt.method b, Attempt.path b, Attempt.params b,
     XMLHttpRequest.calls (Attempt.xhr b)) ->
  sameRequest this method path params a -> sameRequest this method path params b.
Proof.
  intros H. injection H as H1 H2 H3 H4 H5. unfold sameRequest.
  by rewrite H1, H2, H3, H4, H5.
Qed.

Lemma closureConstant_request :
  closureConstant
    (fun a => (Attempt.this a, Attempt.method a, Attempt.path a, Attempt.params a,
               XMLHttpRequest.calls (Attempt.xhr a))).
Proof. by repeat split. Qed.

Lemma Forall_sameRequest_map this method path params (l1 l2 : list Attempt.t) :
  map (fun a => (Attempt.this a, Attempt.method a, Attempt.path a, Attempt.params a,
                 XMLHttpRequest.calls (Attempt.xhr a))) l1
  = map (fun a => (Attempt.this a, Attempt.method a, Attempt.path a, Attempt.params a,
                   XMLHttpRequest.calls (Attempt.xhr a))) l2 ->
  Forall (sameRequest this method path params) l2 ->
  Forall (sameRequest this method path params) l1.
Proof.
  revert l2. induction l1 as [| a l1 IH]; intros [| b l2] H Hall; try discriminate;
    [constructor |].
  cbn [map] in H. injection H as H1 H2 H3 H4 H5 Hrest.
  apply Forall_cons in Hall as [Hb Hall].
  constructor; [| by eapply IH].
  eapply sameRequest_proj; [| exact Hb]. by rewrite H1, H2, H3, H4, H5.
Qed.

Lemma retryIfPossible_retriesWith this method path params k cause res w :
  Forall (sameRequest this method path params) (World.attempts w) ->
  Forall (retriesWith params) (World.timers w) ->
  Forall (retriesWith params) (World.timers (retryIfPossible k cause res w)).
Proof.
  intros Ha Ht. unfold retryIfPossible.
  destruct (World.attempts w !! k) as [a |] eqn:Hk; [| exact Ht]. cbn zeta.
  repeat case_if; try (unfold reject; by rewrite settle_timers).
  cbn [setTimeout World.setTimers World.timers].
  apply Forall_app. split; [exact Ht |]. constructor; [| constructor].
  rewrite Forall_lookup in Ha. destruct (Ha _ _ Hk) as (_ & _ & _ & Hp & _).
  exact Hp.
Qed.

Lemma sameRequest_step rt this method path params w e :
  Forall (sameRequest this method path params) (World.attempts w) ->
  Forall (retriesWith params) (World.timers w) ->
  Forall (sameRequest this method path params) (World.attempts (step rt w e))
  /\ Forall (retriesWith params) (World.timers (step rt w e)).
Proof.
  intros Ha Ht.
  set (g := fun a => (Attempt.this a, Attempt.method a, Attempt.path a, Attempt.params a,
                      XMLHttpRequest.calls (Attempt.xhr a))).
  assert (forall w', map g (World.attempts w') = map g (World.attempts w) ->
                     Forall (sameRequest this method path params) (World.attempts w'))
    as Hsame.
  { intros w' H. by eapply Forall_sameRequest_map. }
  destruct e as [j v | j | j | j | t]; cbn [step].
  - split.
    + apply Hsame. rewrite onReadyStateChange_attempts. cbn. by apply map_alter_same.
    + unfold onReadyStateChange. destruct (World.attempts _ !! j) as [a |]; [| exact Ht].
      destruct (XhrView.readyState _); try exact Ht.
      cbn [setTimeout World.setTimers World.timers World.alterAttempt World.setAttempts].
      apply Forall_app. split; [exact Ht | by repeat constructor].
  - split; [apply Hsame, retryIfPossible_map, closureConstant_request |].
    by apply (retryIfPossible_retriesWith this method path).
  - split; [apply Hsame, retryIfPossible_map, closureConstant_request |].
    by apply (retryIfPossible_retriesWith this method path).
  - split; [apply Hsame, retryIfPossible_map, closureConstant_request |].
    by apply (retryIfPossible_retriesWith this method path).
  - unfold runTimer. destruct (World.timers w !! t) as [tm |] eqn:Htm; [| done].
    case_if; [done |].
    set (w1 := World.setTimers _ w).
    assert (retriesWith params tm) as Htask.
    { rewrite Forall_lookup in Ht. by apply (Ht t). }
    assert (Forall (retriesWith params) (World.timers w1)) as Ht1.
    { unfold w1. cbn [World.setTimers World.timers].
      apply Forall_insert; [exact Ht | exact Htask]. }
    destruct (Timer.task tm) as [k | k newParams] eqn:Hk.
    + split; [apply Hsame; by rewrite onDone_map by apply closureConstant_request |].
      unfold onDone. change (World.attempts w1) with (World.attempts w).
      destruct (World.attempts w !! k) as [a |] eqn:Hak; [| exact Ht1].
      case_if; [exact Ht1 |]. cbn zeta. case_if.
      * apply (retryIfPossible_retriesWith this method path); [| exact Ht1].
        apply Hsame. cbn. by apply map_alter_same.
      * unfold resolve. by rewrite settle_timers.
    + change (World.attempts w1) with (World.attempts w).
      destruct (World.attempts w !! k) as [a |] eqn:Hak.
      * rewrite (doRetry_eq k newParams w1 a) by exact Hak.
        cbn [World.attempts World.timers]. split; [| exact Ht1].
        apply Forall_app. split; [exact Ha |]. constructor; [| constructor].
        rewrite Forall_lookup in Ha. destruct (Ha _ _ Hak) as (H1 & H2 & H3 & _ & _).
        unfold retriesWith in Htask. rewrite Hk in Htask.
        unfold sameRequest. cbn [Attempt.this Attempt.method Attempt.path Attempt.params
                                   Attempt.xhr].
        rewrite H1, H2, H3. repeat split; [exact Htask |].
        by apply newTransport_calls_options.
      * unfold doRetry. change (World.attempts w1) with (World.attempts w).
        rewrite Hak. split; [exact Ha | exact Ht1].
Qed.

(** X24. Every attempt repeats the request.  Whatever events follow a
    request on a fresh page, every attempt that is made for it, the first
    and each retry, is made for the same client, method and path, with the
    same options up to the retry budget, and sets its transport up by the
    same calls: the same listeners, the same URL, the same headers, and the
    same body sent, or none. *)
Theorem every_attempt_repeats_request rt this method path params evs :
  Forall (sameRequest this method path params)
         (World.attempts (run rt (request this method path params World.initial).2 evs)).
Proof.
  assert (forall w,
             Forall (sameRequest this method path params) (World.attempts w) ->
             Forall (retriesWith params) (World.timers w) ->
             Forall (sameRequest this method path params) (World.attempts (run rt w evs)))
    as H.
  { unfold run. induction evs as [| e evs IH]; intros w Ha Ht; cbn [foldl]; [exact Ha |].
    destruct (sameRequest_step rt this method path params w e Ha Ht) as [Ha' Ht'].
    by apply IH. }
  apply H; [| constructor].
  constructor; [| constructor]. by repeat split.
Qed.
